(** * Bostonia: moderation, memory and chat-orchestration services

    A shallow embedding of the three Python services of the repository
    (content-moderation, memory-service, ai-orchestration) and the
    properties their specification states about them.

    Conventions.
    - A Python [str] is a Rocq [string] holding its UTF-8 encoding.
    - A Python [float] that is only compared or passed through (the
      moderation scores and thresholds) is a [Py.float]: an exact rational
      or one of the three IEEE specials.  No arithmetic is performed on
      such values, and the rationals are a superset of the finite doubles.
      In the handlers of the memory service, whose properties here are
      about the store and the number of results, the floats (embeddings,
      importances, relevance scores) are idealised as real numbers; the
      arithmetic of the cosine similarity itself is modelled on IEEE
      doubles, in [Doubles].
    - Calls that leave the process (the LLM provider, sibling HTTP services,
      the key-value store) are answers supplied by the environment; handlers
      thread the state they touch explicitly.
    - A raised exception is the left injection of a sum. *)

From Stdlib Require Import Ascii String QArith Reals Lra Lia.
From Stdlib Require SpecFloat.
From stdpp Require Import base strings list gmap pretty.

Open Scope string_scope.
Open Scope list_scope.

(* ===================================================================== *)
(** ** Python values shared by the services *)
(* ===================================================================== *)

Module Py.

(** Floats: finite values as exact rationals, and the IEEE specials that
    [json.loads] accepts ([Infinity], [-Infinity], [NaN]). *)
Inductive float :=
  | Fin (q : Q)
  | PInf
  | NInf
  | NaN.

Definition Qltb (a b : Q) : bool := negb (Qle_bool b a).

(** [x < y] on floats; every comparison with NaN is false. *)
Definition flt (x y : float) : bool :=
  match x, y with
  | NaN, _ | _, NaN => false
  | Fin a, Fin b => Qltb a b
  | Fin _, PInf => true
  | NInf, Fin _ => true
  | NInf, PInf => true
  | _, _ => false
  end.

(** [max(x, y)] of two arguments: the first is kept unless the second
    compares greater. *)
Definition pymax (x y : float) : float := if flt x y then y else x.

(** Membership in the closed unit interval. *)
Definition in_unit (x : float) : Prop :=
  match x with
  | Fin q => (0 <= q /\ q <= 1)%Q
  | _ => False
  end.

(** Values produced by [json.loads] / [response.json()]. *)
#[warnings="-register-all"]
Inductive json :=
  | JNull
  | JBool (b : bool)
  | JInt (z : Z)
  | JFloat (x : float)
  | JStr (s : string)
  | JArr (items : list json)
  | JObj (fields : list (string * json)).

(** Exceptions the modelled code can meet. *)
Inductive exn :=
  | JSONDecodeError
  | AttributeError
  | TypeError
  | ValueError
  | OverflowError
  | KeyError
  | ZeroDivisionError
  | ResponseError
  | ValidationError
  | APIError
  | RequestError
  | HTTPException (status_code : Z) (detail : json).

Definition result (A : Type) : Type := exn + A.

Definition ok {A} (a : A) : result A := inr a.
Definition raise {A} (e : exn) : result A := inl e.

Definition bind {A B} (m : result A) (k : A -> result B) : result B :=
  match m with
  | inl e => inl e
  | inr a => k a
  end.

Declare Scope py_scope.
Delimit Scope py_scope with py.
Notation "'let*' x ':=' m 'in' k" := (bind m (fun x => k))
  (at level 10, x name, m at level 100, k at level 200,
   format "'[v' 'let*'  x  ':='  m  'in' '/' k ']'") : py_scope.

Fixpoint mapM {A B} (f : A -> result B) (l : list A) : result (list B) :=
  match l with
  | [] => ok []
  | a :: l' =>
      (let* b := f a in
       let* bs := mapM f l' in
       ok (b :: bs))%py
  end.

(** A text as [json.loads] sees it: either it does not parse, or it parses
    to a value. *)
Inductive text :=
  | NotJson (raw : string)
  | JsonText (v : json).

Definition json_loads (t : text) : result json :=
  match t with
  | NotJson _ => raise JSONDecodeError
  | JsonText v => ok v
  end.

(** [d.get(key, default)] on the items of a dict. *)
Fixpoint dict_get (fields : list (string * json)) (key : string) (default : json) : json :=
  match fields with
  | [] => default
  | (k, v) :: rest => if String.eqb k key then v else dict_get rest key default
  end.

(** [v.get(key, default)]: only dicts have the method. *)
Definition get (v : json) (key : string) (default : json) : result json :=
  match v with
  | JObj fields => ok (dict_get fields key default)
  | _ => raise AttributeError
  end.

(** [v[key]] on a dict. *)
Fixpoint dict_item (fields : list (string * json)) (key : string) : result json :=
  match fields with
  | [] => raise KeyError
  | (k, v) :: rest => if String.eqb k key then ok v else dict_item rest key
  end.

(** [v[key]] with a string key. *)
Definition item (v : json) (key : string) : result json :=
  match v with
  | JObj fields => dict_item fields key
  | _ => raise TypeError
  end.

(** The items of [for x in v]: the elements of a list, the keys of a dict,
    the characters of a string (here the bytes of its encoding). *)
Definition iter (v : json) : result (list json) :=
  match v with
  | JArr items => ok items
  | JObj fields => ok (map (fun kv => JStr (fst kv)) fields)
  | JStr s => ok (map (fun c => JStr (String c "")) (String.list_ascii_of_string s))
  | _ => raise TypeError
  end.

(** Truth value of a JSON-decoded object. *)
Definition truthy (v : json) : bool :=
  match v with
  | JNull => false
  | JBool b => b
  | JInt z => negb (z =? 0)%Z
  | JFloat (Fin q) => negb (Qeq_bool q 0)
  | JFloat _ => true
  | JStr s => negb (String.eqb s "")
  | JArr items => match items with [] => false | _ => true end
  | JObj fields => match fields with [] => false | _ => true end
  end.

(** [float(z)] for an int: round to 53 significant bits, ties to even;
    too large a magnitude raises OverflowError. *)
Definition float_of_int (z : Z) : result float :=
  let a := Z.abs z in
  let e := (Z.log2 a - 52)%Z in
  if (e <=? 0)%Z then ok (Fin (inject_Z z))
  else
    let q := (a / 2 ^ e)%Z in
    let r := (a mod 2 ^ e)%Z in
    let half := (2 ^ (e - 1))%Z in
    let q' := if (half <? r)%Z || ((r =? half)%Z && Z.odd q) then (q + 1)%Z else q in
    let m := (q' * 2 ^ e)%Z in
    if (2 ^ 1024 <=? m)%Z then raise OverflowError
    else ok (Fin (inject_Z (Z.sgn z * m))).

(** A [str]-typed pydantic (v2) field accepts a JSON string only. *)
Definition validate_str (v : json) : result string :=
  match v with
  | JStr s => ok s
  | _ => raise ValidationError
  end.

(** Handlers: state passing with exceptions. *)
Definition St (S A : Type) : Type := S -> result A * S.

Definition ret {S A} (a : A) : St S A := fun w => (ok a, w).
Definition throw {S A} (e : exn) : St S A := fun w => (raise e, w).
Definition lift {S A} (r : result A) : St S A := fun w => (r, w).

Definition mbind {S A B} (m : St S A) (k : A -> St S B) : St S B :=
  fun w =>
    match m w with
    | (inl e, w') => (inl e, w')
    | (inr a, w') => k a w'
    end.

(** [try: body except Exception: raise handler]. *)
Definition try_except {S A} (body : St S A) (handler : exn) : St S A :=
  fun w =>
    match body w with
    | (inl _, w') => (inl handler, w')
    | (inr a, w') => (inr a, w')
    end.

(** [try: body except E: handler], for the exceptions [E] that [caught]
    selects. *)
Definition try_catch {S A} (body : St S A) (caught : exn -> bool) (handler : St S A)
  : St S A :=
  fun w =>
    match body w with
    | (inl e, w') => if caught e then handler w' else (inl e, w')
    | (inr a, w') => (inr a, w')
    end.

Declare Scope st_scope.
Delimit Scope st_scope with st.
Notation "'let*' x ':=' m 'in' k" := (mbind m (fun x => k))
  (at level 10, x name, m at level 100, k at level 200,
   format "'[v' 'let*'  x  ':='  m  'in' '/' k ']'") : st_scope.
Notation "m ';;' k" := (mbind m (fun _ => k))
  (at level 100, k at level 200, right associativity) : st_scope.

Fixpoint for_each {S A} (l : list A) (body : A -> St S unit) : St S unit :=
  match l with
  | [] => ret tt
  | a :: l' => (body a ;; for_each l' body)%st
  end.

End Py.

Import Py.

(* ===================================================================== *)
(** ** Regular expressions of the keyword filter *)
(* ===================================================================== *)

Module Re.

(** The fragment of [re] syntax that BLOCKED_PATTERNS uses. *)
Inductive regex :=
  | Eps
  | Chr (c : ascii)
  | Space
  | WordBoundary
  | Seq (r s : regex)
  | Alt (r s : regex)
  | Opt (r : regex)
  | Plus (r : regex).

Fixpoint Lit (s : string) : regex :=
  match s with
  | EmptyString => Eps
  | String c s' => Seq (Chr c) (Lit s')
  end.

Fixpoint seq_of (rs : list regex) : regex :=
  match rs with
  | [] => Eps
  | [r] => r
  | r :: rs' => Seq r (seq_of rs')
  end.

Fixpoint alt_of (rs : list regex) : regex :=
  match rs with
  | [] => Eps
  | [r] => r
  | r :: rs' => Alt r (alt_of rs')
  end.

Definition words (ws : list string) : regex := alt_of (map Lit ws).

(** *** What a pattern matches

    [matches r c c']: pattern [r] matches the input between cursor [c] and
    cursor [c'].  A cursor is the character before the position (if any)
    and the remaining input.  The character tests follow CPython on ASCII
    text: literals compare case-insensitively (re.IGNORECASE), [\s] is
    ASCII whitespace, [\b] lies between a word character [[A-Za-z0-9_]]
    and anything else. *)

Definition cursor : Type := option ascii * list ascii.

Definition code (c : ascii) : nat := nat_of_ascii c.

Definition ascii_lower (c : ascii) : ascii :=
  if (65 <=? code c)%nat && (code c <=? 90)%nat then ascii_of_nat (code c + 32) else c.

Definition is_space (c : ascii) : bool :=
  ((9 <=? code c)%nat && (code c <=? 13)%nat)
  || ((28 <=? code c)%nat && (code c <=? 32)%nat).

Definition is_word (c : ascii) : bool :=
  ((48 <=? code c)%nat && (code c <=? 57)%nat)
  || ((65 <=? code c)%nat && (code c <=? 90)%nat)
  || ((97 <=? code c)%nat && (code c <=? 122)%nat)
  || (code c =? 95)%nat.

Definition chr_eq_ic (c x : ascii) : bool :=
  Ascii.eqb (ascii_lower c) (ascii_lower x).

Definition at_boundary (cur : cursor) : bool :=
  let before := match fst cur with Some c => is_word c | None => false end in
  let after := match snd cur with c :: _ => is_word c | [] => false end in
  xorb before after.

Inductive matches : regex -> cursor -> cursor -> Prop :=
  | matches_eps cur : matches Eps cur cur
  | matches_chr c prev x rest :
      chr_eq_ic c x = true -> matches (Chr c) (prev, x :: rest) (Some x, rest)
  | matches_space prev x rest :
      is_space x = true -> matches Space (prev, x :: rest) (Some x, rest)
  | matches_boundary cur :
      at_boundary cur = true -> matches WordBoundary cur cur
  | matches_seq a b c1 c2 c3 :
      matches a c1 c2 -> matches b c2 c3 -> matches (Seq a b) c1 c3
  | matches_alt_l a b c1 c2 : matches a c1 c2 -> matches (Alt a b) c1 c2
  | matches_alt_r a b c1 c2 : matches b c1 c2 -> matches (Alt a b) c1 c2
  | matches_opt_some a c1 c2 : matches a c1 c2 -> matches (Opt a) c1 c2
  | matches_opt_none a cur : matches (Opt a) cur cur
  | matches_plus_one a c1 c2 : matches a c1 c2 -> matches (Plus a) c1 c2
  | matches_plus_more a c1 c2 c3 :
      matches a c1 c2 -> matches (Plus a) c2 c3 -> matches (Plus a) c1 c3.

(** Some substring of [s] matches [r]: a match starts after some prefix
    [pre], whose last character is the one before the position. *)
Definition found (r : regex) (s : string) : Prop :=
  exists pre post cur',
    String.list_ascii_of_string s = pre ++ post
    /\ matches r (last pre, post) cur'.

(** *** A reference matcher

    Decides [found] by enumerating the cursors a pattern can reach. *)

Definition advance (p : ascii -> bool) (cur : cursor) : list cursor :=
  match snd cur with
  | x :: rest => if p x then [(Some x, rest)] else []
  | [] => []
  end.

(** One or more rounds of [step]; a round that consumes nothing is not
    repeated, so [fuel] = remaining length + 1 is always enough. *)
Fixpoint rounds (step : cursor -> list cursor) (fuel : nat) (cur : cursor) : list cursor :=
  match fuel with
  | O => []
  | S fuel' =>
      let once := step cur in
      once ++ flat_map (fun c =>
                 if (length (snd c) <? length (snd cur))%nat
                 then rounds step fuel' c else []) once
  end.

Fixpoint run (r : regex) (cur : cursor) : list cursor :=
  match r with
  | Eps => [cur]
  | Chr c => advance (chr_eq_ic c) cur
  | Space => advance is_space cur
  | WordBoundary => if at_boundary cur then [cur] else []
  | Seq a b => flat_map (run b) (run a cur)
  | Alt a b => run a cur ++ run b cur
  | Opt a => run a cur ++ [cur]
  | Plus a => rounds (run a) (S (length (snd cur))) cur
  end.

Fixpoint cursors (prev : option ascii) (s : list ascii) : list cursor :=
  (prev, s) :: match s with
               | [] => []
               | c :: s' => cursors (Some c) s'
               end.

(** [re.search(r, s, re.IGNORECASE) is not None]. *)
Definition search (r : regex) (s : string) : bool :=
  existsb (fun cur => match run r cur with [] => false | _ => true end)
          (cursors None (String.list_ascii_of_string s)).

(** [s.lower()] on ASCII text. *)
Definition lower (s : string) : string :=
  String.string_of_list_ascii (map ascii_lower (String.list_ascii_of_string s)).

End Re.

(* ===================================================================== *)
(** ** Content-moderation service  (routes/moderation.py, config.py) *)
(* ===================================================================== *)

Module Moderation.

Import Re.

(** The library functions the service calls on text.  The handlers are
    written against this interface, and the properties below hold for every
    instance of it.  [reference_runtime] instantiates it for evaluation on
    ASCII input; it takes no string for a number (the classifier answers of
    the examples carry JSON numbers). *)
Class Runtime := {
  (** [s.lower()] *)
  str_lower : string -> string;
  (** [re.search(pattern, s, re.IGNORECASE)] finds a match *)
  re_search : regex -> string -> bool;
  (** [float(s)] on a string; raises ValueError on a malformed one *)
  float_of_str : string -> result float
}.

#[export] Instance reference_runtime : Runtime := {
  str_lower := Re.lower;
  re_search := Re.search;
  float_of_str := fun _ => raise ValueError
}.

(** U+2019 RIGHT SINGLE QUOTATION MARK, UTF-8 encoded. *)
Definition rsquo : string :=
  String (ascii_of_nat 226) (String (ascii_of_nat 128) (String (ascii_of_nat 153) "")).

Definition BLOCKED_PATTERNS : list regex :=
  [ (* \b(kill|murder|harm|attack|hurt)\s+(yourself|myself|people|someone)\b *)
    seq_of [ WordBoundary;
             words ["kill"; "murder"; "harm"; "attack"; "hurt"];
             Plus Space;
             words ["yourself"; "myself"; "people"; "someone"];
             WordBoundary ];
    (* \b(suicide|self[- ]?harm|end\s+(my|your)\s+life)\b *)
    seq_of [ WordBoundary;
             alt_of [ Lit "suicide";
                      seq_of [Lit "self"; Opt (Alt (Chr "-") (Chr " ")); Lit "harm"];
                      seq_of [Lit "end"; Plus Space; words ["my"; "your"];
                              Plus Space; Lit "life"] ];
             WordBoundary ];
    (* \b(how\s+to\s+(make|create|build)\s+(bomb|weapon|drug))\b *)
    seq_of [ WordBoundary;
             Lit "how"; Plus Space; Lit "to"; Plus Space;
             words ["make"; "create"; "build"];
             Plus Space;
             words ["bomb"; "weapon"; "drug"];
             WordBoundary ];
    (* \b(what['’]?s\s+your\s+(address|phone|ssn|credit\s+card))\b *)
    seq_of [ WordBoundary;
             Lit "what"; Opt (Alt (Chr "'") (Lit rsquo)); Lit "s";
             Plus Space; Lit "your"; Plus Space;
             alt_of [ Lit "address"; Lit "phone"; Lit "ssn";
                      seq_of [Lit "credit"; Plus Space; Lit "card"] ];
             WordBoundary ] ].

Record ModerationRequest := {
  content : string;
  filter_level : string
}.

Record ModerationFlag := {
  category : string;
  severity : string;
  description : string
}.

Record ModerationResponse := {
  passed : bool;
  flags : list ModerationFlag;
  score : float
}.

Record Settings := {
  severity_threshold_low : float;
  severity_threshold_medium : float;
  severity_threshold_high : float
}.

(** The defaults of config.py. *)
Definition default_settings : Settings := {|
  severity_threshold_low := Fin (3 # 10);
  severity_threshold_medium := Fin (6 # 10);
  severity_threshold_high := Fin (8 # 10)
|}.

(** What [claude_client.messages.create] does on its [n]-th call, for the
    prompt built around [content]. *)
Inductive block :=
  | TextBlock (t : text)
  | OtherBlock.

Inductive api_result :=
  | ApiRaises
  | Message (blocks : list block).

Definition client : Type := nat -> string -> api_result.

Definition is_high (f : ModerationFlag) : bool := String.eqb (severity f) "high".

Definition keyword_flag : ModerationFlag := {|
  category := "keyword_match";
  severity := "high";
  description := "Content matched blocked pattern"
|}.

Section Service.

Context {rt : Runtime}.
Variable settings : Settings.
Variable claude_client : option client.

Definition check_keyword_filters (content : string) : list ModerationFlag :=
  let content_lower := str_lower content in
  flat_map (fun pattern =>
              if re_search pattern content_lower then [keyword_flag] else [])
           BLOCKED_PATTERNS.

(** [float(v)]. *)
Definition py_float (v : json) : result float :=
  match v with
  | JFloat x => ok x
  | JInt z => float_of_int z
  | JBool b => ok (Fin (if b then 1 else 0))
  | JStr s => float_of_str s
  | _ => raise TypeError
  end.

Definition flag_of_json (f : json) : result ModerationFlag :=
  (let* c := get f "category" (JStr "unknown") in
   let* s := get f "severity" (JStr "low") in
   let* d := get f "description" (JStr "") in
   let* c := validate_str c in
   let* s := validate_str s in
   let* d := validate_str d in
   ok {| category := c; severity := s; description := d |})%py.

(** [response.content[0].text if response.content else "{}"]. *)
Definition response_text (blocks : list block) : result text :=
  match blocks with
  | [] => ok (JsonText (JObj []))
  | TextBlock t :: _ => ok t
  | OtherBlock :: _ => raise AttributeError
  end.

(** The body of the inner [try]. *)
Definition parse_result (response_text : text) : result (list ModerationFlag * float) :=
  (let* result := json_loads response_text in
   let* fs := get result "flags" (JArr []) in
   let* fs := iter fs in
   let* flags := mapM flag_of_json fs in
   let* s := get result "score" (JInt 0) in
   let* score := py_float s in
   ok (flags, score))%py.

(** The body of the outer [try], after the call. *)
Definition analyse (r : api_result) : result (list ModerationFlag * float) :=
  match r with
  | ApiRaises => raise APIError
  | Message blocks =>
      (let* t := response_text blocks in
       match parse_result t with
       | inl JSONDecodeError => ok ([], Fin 0)
       | other => other
       end)%py
  end.

(** Returns the verdict and the number of classifier calls made so far. *)
Definition check_ai_moderation (content : string) (n : nat)
  : (list ModerationFlag * float) * nat :=
  match claude_client with
  | None => (([], Fin 0), n)
  | Some create =>
      (match analyse (create n content) with
       | inr verdict => verdict
       | inl _ => ([], Fin 0)
       end, S n)
  end.

Definition thresholds_get (filter_level : string) : float :=
  if String.eqb filter_level "strict" then severity_threshold_low settings
  else if String.eqb filter_level "moderate" then severity_threshold_medium settings
  else if String.eqb filter_level "relaxed" then severity_threshold_high settings
  else severity_threshold_medium settings.

Definition moderate_content (request : ModerationRequest) (n : nat)
  : ModerationResponse * nat :=
  let keyword_flags := check_keyword_filters (content request) in
  let all_flags := keyword_flags in
  if existsb is_high keyword_flags then
    ({| passed := false; flags := all_flags; score := Fin 1 |}, n)
  else
    let '((ai_flags, ai_score), n') := check_ai_moderation (content request) n in
    let all_flags := all_flags ++ ai_flags in
    let final_score :=
      match keyword_flags with
      | [] => ai_score
      | _ => pymax ai_score (Fin (1 # 2))
      end in
    let threshold := thresholds_get (filter_level request) in
    let passed := flt final_score threshold && negb (existsb is_high all_flags) in
    ({| passed := passed; flags := all_flags; score := final_score |}, n').

Fixpoint batch_loop (contents : list string) (n : nat)
  : list ModerationResponse * nat :=
  match contents with
  | [] => ([], n)
  | content :: rest =>
      let keyword_flags := check_keyword_filters content in
      let '((ai_flags, ai_score), n') := check_ai_moderation content n in
      let all_flags := keyword_flags ++ ai_flags in
      let passed := flt ai_score (severity_threshold_medium settings)
                    && negb (existsb is_high all_flags) in
      let '(results, n'') := batch_loop rest n' in
      ({| passed := passed; flags := all_flags; score := ai_score |} :: results, n'')
  end.

Definition moderate_batch (contents : list string) (n : nat)
  : list ModerationResponse * nat :=
  batch_loop (firstn 10 contents) n.

End Service.

End Moderation.

(* ===================================================================== *)
(** ** The key-value store the memory service talks to *)
(* ===================================================================== *)

Module Redis.

(** A key holds a string or a set.  The string values of this service are
    the [json.dumps] of a memory record; the store is typed by what
    [json.loads] gives back for them. *)
Inductive value (D : Type) :=
  | VString (data : D)
  | VSet (members : gset string).
Arguments VString {D} data.
Arguments VSet {D} members.

(** A value and the seconds it has left to live ([None]: no expiry). *)
Record entry (D : Type) := {
  val : value D;
  ttl : option Z
}.
Arguments val {D} e.
Arguments ttl {D} e.

Section Commands.

Context {D : Type}.

(** SETEX: a non-positive expiry is refused. *)
Definition setex (key : string) (seconds : Z) (data : D) (db : gmap string (entry D))
  : result unit * gmap string (entry D) :=
  if (seconds <=? 0)%Z then (raise ResponseError, db)
  else (ok tt, <[key := {| val := VString data; ttl := Some seconds |}]> db).

(** SADD: creates the set when the key is absent; keeps its expiry. *)
Definition sadd (key member : string) (db : gmap string (entry D))
  : result unit * gmap string (entry D) :=
  match db !! key with
  | None => (ok tt, <[key := {| val := VSet {[member]}; ttl := None |}]> db)
  | Some {| val := VSet members; ttl := t |} =>
      (ok tt, <[key := {| val := VSet (members ∪ {[member]}); ttl := t |}]> db)
  | Some {| val := VString _ |} => (raise ResponseError, db)
  end.

(** EXPIRE: a non-positive timeout deletes the key. *)
Definition expire (key : string) (seconds : Z) (db : gmap string (entry D))
  : result unit * gmap string (entry D) :=
  match db !! key with
  | None => (ok tt, db)
  | Some e =>
      if (seconds <=? 0)%Z then (ok tt, delete key db)
      else (ok tt, <[key := {| val := val e; ttl := Some seconds |}]> db)
  end.

(** SMEMBERS: an absent key is the empty set. *)
Definition smembers (key : string) (db : gmap string (entry D))
  : result (gset string) * gmap string (entry D) :=
  match db !! key with
  | None => (ok ∅, db)
  | Some {| val := VSet members |} => (ok members, db)
  | Some {| val := VString _ |} => (raise ResponseError, db)
  end.

(** GET. *)
Definition get (key : string) (db : gmap string (entry D))
  : result (option D) * gmap string (entry D) :=
  match db !! key with
  | None => (ok None, db)
  | Some {| val := VString data |} => (ok (Some data), db)
  | Some {| val := VSet _ |} => (raise ResponseError, db)
  end.

(** DEL: the number of keys removed. *)
Definition del (key : string) (db : gmap string (entry D))
  : result nat * gmap string (entry D) :=
  match db !! key with
  | None => (ok 0%nat, db)
  | Some _ => (ok 1%nat, delete key db)
  end.

(** [seconds] of time passing: keys whose time is up disappear. *)
Definition age (seconds : Z) (e : entry D) : option (entry D) :=
  match ttl e with
  | None => Some e
  | Some t => if (t <=? seconds)%Z then None
              else Some {| val := val e; ttl := Some (t - seconds)%Z |}
  end.

Definition elapse (seconds : Z) (db : gmap string (entry D)) : gmap string (entry D) :=
  omap (age seconds) db.

End Commands.

End Redis.

(* ===================================================================== *)
(** ** Memory service  (routes/memory.py, config.py) *)
(* ===================================================================== *)

Module Memory.

(** Embedding components, importances and relevance scores are floats on
    which the service does arithmetic (products, sums, a square root, a
    quotient).  In this module they are idealised as real numbers: there
    is no rounding, no overflow and no NaN here, so what is proved of the
    handlers below concerns the store, the calls made and the number of
    results, not the values of the scores or the order they induce.  The
    arithmetic itself, on doubles, is in [Doubles]. *)

Record Settings := {
  short_term_ttl : Z;
  embedding_model : string
}.

Definition default_settings : Settings := {|
  short_term_ttl := 3600;
  embedding_model := "text-embedding-3-small"
|}.

Record StoreMemoryRequest := {
  s_conversation_id : string;
  s_content : string;
  s_memory_type : string;
  s_importance : R
}.

Record RetrieveMemoryRequest := {
  r_conversation_id : string;
  r_query : string;
  r_limit : Z
}.

(** The dict [memory_data] that [store_memory] serialises, with the
    [relevance_score] key that [retrieve_memories] may add to its copy. *)
Record memory := {
  id : string;
  conversation_id : string;
  content : string;
  type : string;
  importance : R;
  embedding : option (list R);
  relevance_score : option R
}.

Record MemoryView := {
  v_id : string;
  v_content : string;
  v_type : string;
  v_importance : R;
  v_relevance_score : option R
}.

(** What [openai_client.embeddings.create] does on its [n]-th call. *)
Inductive embedding_result :=
  | EmbeddingRaises
  | Embedding (vector : list R).

Definition embedder : Type := nat -> string -> embedding_result.

(** The store and the number of embedding calls made so far. *)
Record world := {
  db : gmap string (Redis.entry memory);
  calls : nat
}.

Definition M : Type -> Type := St world.

(** A store command, run on the [db] component.  SMEMBERS answers with a
    set; where a handler iterates over it, [elements] fixes the order. *)
Definition redis {A}
  (cmd : gmap string (Redis.entry memory) -> result A * gmap string (Redis.entry memory))
  : M A :=
  fun w =>
    let '(r, db') := cmd (db w) in
    (r, {| db := db'; calls := calls w |}).

Fixpoint sum (l : list R) : R :=
  match l with
  | [] => 0%R
  | x :: l' => (x + sum l')%R
  end.

Fixpoint zip {A B} (a : list A) (b : list B) : list (A * B) :=
  match a, b with
  | x :: a', y :: b' => (x, y) :: zip a' b'
  | _, _ => []
  end.

(** Truth value of a number. *)
Definition nonzero (x : R) : bool := if Req_dec_T x 0 then false else true.

(** [x / y], which raises on a zero divisor. *)
Definition div (x y : R) : result R :=
  if Req_dec_T y 0 then raise ZeroDivisionError else ok (x / y)%R.

Definition dot (a b : list R) : R := sum (map (fun xy => (fst xy * snd xy)%R) (zip a b)).
Definition norm (a : list R) : R := sqrt (sum (map (fun x => (x * x)%R) a)).

Definition cosine_similarity (a b : list R) : result R :=
  let dot := dot a b in
  let norm_a := norm a in
  let norm_b := norm b in
  if nonzero norm_a && nonzero norm_b then div dot (norm_a * norm_b)%R
  else ok 0%R.

(** [l.sort(key=key, reverse=True)] for keys that are numbers (no NaN):
    stable, descending. *)
Fixpoint insert_desc {A} (key : A -> R) (x : A) (l : list A) : list A :=
  match l with
  | [] => [x]
  | y :: l' => if Rlt_dec (key y) (key x) then x :: y :: l'
               else y :: insert_desc key x l'
  end.

Definition sort_desc {A} (key : A -> R) (l : list A) : list A :=
  fold_left (fun acc x => insert_desc key x acc) l [].

(** [l[:limit]]. *)
Definition slice_to {A} (limit : Z) (l : list A) : list A :=
  if (0 <=? limit)%Z then firstn (Z.to_nat limit) l
  else firstn (length l - Z.to_nat (- limit)) l.

Definition or_default {A} (o : option A) (d : A) : A :=
  match o with
  | Some a => a
  | None => d
  end.

Section Service.

Variable settings : Settings.
Variable redis_client : bool.
Variable openai_client : option embedder.
(** [hash] on strings: fixed for the life of the process. *)
Variable hash : string -> Z.

Definition get_embedding (text : string) : M (option (list R)) :=
  fun w =>
    match openai_client with
    | None => (ok None, w)
    | Some create =>
        let w' := {| db := db w; calls := S (calls w) |} in
        match create (calls w) text with
        | EmbeddingRaises => (ok None, w')
        | Embedding v => (ok (Some v), w')
        end
    end.

Definition memory_id_of (conversation_id content : string) : string :=
  conversation_id +:+ ":" +:+ pretty (hash content).

Definition memory_key (memory_id : string) : string := "memory:" +:+ memory_id.
Definition index_key_of (conversation_id : string) : string :=
  "memory_index:" +:+ conversation_id.

Record StoreMemoryResponse := {
  sr_id : string;
  sr_stored : bool
}.

Definition store_memory (request : StoreMemoryRequest) : M StoreMemoryResponse :=
  if negb redis_client then throw (HTTPException 503 (JStr "Memory service unavailable"))
  else
    try_except
      (let memory_id := memory_id_of (s_conversation_id request) (s_content request) in
       let* embedding := get_embedding (s_content request) in
       let memory_data := {|
         id := memory_id;
         conversation_id := s_conversation_id request;
         content := s_content request;
         type := s_memory_type request;
         importance := s_importance request;
         embedding := embedding;
         relevance_score := None
       |} in
       let key := memory_key memory_id in
       redis (Redis.setex key (short_term_ttl settings) memory_data) ;;
       let index_key := index_key_of (s_conversation_id request) in
       redis (Redis.sadd index_key memory_id) ;;
       redis (Redis.expire index_key (short_term_ttl settings * 24)) ;;
       ret {| sr_id := memory_id; sr_stored := true |})%st
      (HTTPException 500 (JStr "Failed to store memory")).

Fixpoint fetch_all (memory_ids : list string) (memories : list memory) : M (list memory) :=
  match memory_ids with
  | [] => ret memories
  | mid :: rest =>
      (let key := memory_key mid in
       let* data := redis (Redis.get key) in
       match data with
       | Some memory => fetch_all rest (memories ++ [memory])
       | None => fetch_all rest memories
       end)%st
  end.

(** The scoring loop of the semantic branch. *)
Fixpoint score_all (query_embedding : list R) (memories : list memory)
  : result (list memory) :=
  match memories with
  | [] => ok []
  | memory :: rest =>
      (let* score :=
         match embedding memory with
         | Some (x :: v) => cosine_similarity query_embedding (x :: v)
         | _ => ok (importance memory)
         end in
       let* rest' := score_all query_embedding rest in
       ok ({| id := id memory;
              conversation_id := conversation_id memory;
              content := content memory;
              type := type memory;
              importance := importance memory;
              embedding := embedding memory;
              relevance_score := Some score |} :: rest'))%py
  end.

Definition view (m : memory) : MemoryView := {|
  v_id := id m;
  v_content := content m;
  v_type := type m;
  v_importance := importance m;
  v_relevance_score := relevance_score m
|}.

Definition retrieve_memories (request : RetrieveMemoryRequest) : M (list MemoryView) :=
  if negb redis_client then throw (HTTPException 503 (JStr "Memory service unavailable"))
  else
    try_except
      (let index_key := index_key_of (r_conversation_id request) in
       let* memory_ids := redis (Redis.smembers index_key) in
       if decide (memory_ids = ∅) then ret []
       else
         let* memories := fetch_all (elements memory_ids) [] in
         let* query_embedding := get_embedding (r_query request) in
         let* memories :=
           match query_embedding with
           | Some (x :: q) =>
               let* scored := lift (score_all (x :: q) memories) in
               ret (sort_desc (fun m => or_default (relevance_score m) 0%R) scored)
           | _ => ret (sort_desc importance memories)
           end in
         let top_memories := slice_to (r_limit request) memories in
         ret (map view top_memories))%st
      (HTTPException 500 (JStr "Failed to retrieve memories")).

Record ClearResponse := {
  cleared : nat
}.

Definition clear_memories (conversation_id : string) : M ClearResponse :=
  if negb redis_client then throw (HTTPException 503 (JStr "Memory service unavailable"))
  else
    try_except
      (let index_key := index_key_of conversation_id in
       let* memory_ids := redis (Redis.smembers index_key) in
       for_each (elements memory_ids)
                (fun mid => let key := memory_key mid in
                            let* _ := redis (Redis.del key) in ret tt) ;;
       redis (Redis.del index_key) ;;
       ret {| cleared := size memory_ids |})%st
      (HTTPException 500 (JStr "Failed to clear memories")).

Record SummaryResponse := {
  sm_conversation_id : string;
  total_memories : nat
}.

Definition get_memory_summary (conversation_id : string) : M SummaryResponse :=
  if negb redis_client then throw (HTTPException 503 (JStr "Memory service unavailable"))
  else
    try_except
      (let index_key := index_key_of conversation_id in
       let* memory_ids := redis (Redis.smembers index_key) in
       ret {| sm_conversation_id := conversation_id;
              total_memories := size memory_ids |})%st
      (HTTPException 500 (JStr "Failed to get memory summary")).

End Service.

End Memory.

(* ===================================================================== *)
(** ** AI-orchestration service  (routes/chat.py, config.py) *)
(* ===================================================================== *)

Module Chat.

Record Settings := {
  memory_service_url : string;
  moderation_service_url : string;
  claude_model : string;
  max_tokens : Z;
  temperature : float
}.

Definition default_settings : Settings := {|
  memory_service_url := "http://localhost:8002";
  moderation_service_url := "http://localhost:8003";
  claude_model := "claude-sonnet-4-20250514";
  max_tokens := 4096;
  temperature := Fin (8 # 10)
|}.

Record ChatRequest := {
  conversation_id : string;
  message : string;
  user_id : string
}.

(** One entry of the message list sent to the LLM. *)
Record message_param := {
  role : string;
  content : json
}.

(** The calls a handler makes to the outside, in the order it makes them. *)
Inductive call :=
  | PostModerate (content : string)
  | GetConversation (conversation_id : string)
  | GetMessages (conversation_id : string)
  | PostRetrieve (conversation_id query : string)
  | MessagesCreate (model : string) (system : json) (messages : list message_param)
  | MessagesStream (model : string) (system : json) (messages : list message_param).

Inductive http_result :=
  | RequestFails
  | Response (status_code : Z) (body : text).

Inductive block :=
  | TextBlock (text : string)
  | OtherBlock.

Record Message := {
  blocks : list block;
  model : string;
  input_tokens : Z;
  output_tokens : Z
}.

Inductive create_result :=
  | CreateRaises
  | Created (response : Message).

(** How an opened stream ends: its text stream is exhausted and leaving the
    [with] block succeeds; reading the text stream raises; or the text
    stream is exhausted and leaving the [with] block raises. *)
Inductive stream_end :=
  | Completes
  | StreamRaises
  | ExitRaises.

Inductive stream_result :=
  | OpenRaises
  | Opened (text_stream : list string) (ending : stream_end).

(** The outside world: what each call answers, given the calls made before
    it. *)
Record environment := {
  http : list call -> call -> http_result;
  messages_create : list call -> call -> create_result;
  messages_stream : list call -> call -> stream_result
}.

(** Handlers thread the list of calls made so far. *)
Definition M : Type -> Type := St (list call).

Record Context := {
  conversation : json;
  messages : json;
  character : json
}.

Record Metadata := {
  md_model : string;
  prompt_tokens : Z;
  completion_tokens : Z
}.

Record ChatResponse := {
  r_content : string;
  r_metadata : Metadata
}.

Record sse := {
  event : string;
  data : json
}.

Definition newline : string := String (ascii_of_nat 10) "".

Definition refusal : string := "I apologize, but I cannot provide that response.".

Definition is_request_error (e : exn) : bool :=
  match e with
  | RequestError => true
  | _ => false
  end.

Definition json_is_str (v : json) (s : string) : bool :=
  match v with
  | JStr s' => String.eqb s' s
  | _ => false
  end.

Section Service.

Variable settings : Settings.
Variable client : bool.
Variable env : environment.
(** [str(v)] for a decoded value that is not a string. *)
Variable str_of : json -> string.

Definition http_call (c : call) : M (Z * text) :=
  fun tr =>
    match http env tr c with
    | RequestFails => (raise RequestError, tr ++ [c])
    | Response status_code body => (ok (status_code, body), tr ++ [c])
    end.

Definition get_conversation_context (conversation_id : string) : M Context :=
  try_catch
    (let* conv_response := http_call (GetConversation conversation_id) in
     if negb (fst conv_response =? 200)%Z
     then throw (HTTPException 404 (JStr "Conversation not found"))
     else
       let* conv_data := lift (json_loads (snd conv_response)) in
       let* success := lift (get conv_data "success" JNull) in
       if negb (truthy success)
       then throw (HTTPException 404 (JStr "Conversation not found"))
       else
         let* conversation := lift (item conv_data "data") in
         let* messages_response := http_call (GetMessages conversation_id) in
         let* messages_data := lift (json_loads (snd messages_response)) in
         let* messages := lift (get messages_data "data" (JArr [])) in
         let* character := lift (get conversation "character" (JObj [])) in
         ret {| conversation := conversation;
                messages := messages;
                character := character |})%st
    is_request_error
    (throw (HTTPException 500 (JStr "Failed to fetch conversation context"))).

Definition get_memory_context (conversation_id message : string) : M (list json) :=
  (let* found :=
     try_catch
       (let* response := http_call (PostRetrieve conversation_id message) in
        if (fst response =? 200)%Z then
          let* data := lift (json_loads (snd response)) in
          let* d := lift (get data "data" (JObj [])) in
          let* ms := lift (get d "memories" (JArr [])) in
          let* ms := lift (iter ms) in
          let* contents := lift (mapM (fun m => item m "content") ms) in
          ret (Some contents)
        else ret None)
       is_request_error
       (ret None) in
   match found with
   | Some contents => ret contents
   | None => ret []
   end)%st.

Definition check_moderation (content : string) : M json :=
  (let* found :=
     try_catch
       (let* response := http_call (PostModerate content) in
        if (fst response =? 200)%Z then
          let* body := lift (json_loads (snd response)) in
          let* d := lift (get body "data" (JObj [("passed", JBool true)])) in
          ret (Some d)
        else ret None)
       is_request_error
       (ret None) in
   match found with
   | Some d => ret d
   | None => ret (JObj [("passed", JBool true); ("flags", JArr [])])
   end)%st.

Definition format_value (m : json) : string :=
  match m with
  | JStr s => s
  | _ => str_of m
  end.

Definition build_messages (character messages : json) (user_message : string)
  (memories : list json) : result (list message_param) :=
  let memory_context :=
    match memories with
    | [] => ""
    | _ => newline +:+ newline +:+ "Relevant context from previous conversations:"
           +:+ newline
           +:+ String.concat newline (map (fun m => "- " +:+ format_value m) memories)
    end in
  (let* msgs := iter messages in
   let* history :=
     mapM (fun msg =>
             let* r := item msg "role" in
             let role := if json_is_str r "USER" then "user" else "assistant" in
             let* c := item msg "content" in
             ok {| role := role; content := c |}) msgs in
   ok (history ++ [{| role := "user";
                      content := JStr (user_message +:+ memory_context) |}]))%py.

Definition create_call (c : call) : M Message :=
  fun tr =>
    match messages_create env tr c with
    | CreateRaises => (raise APIError, tr ++ [c])
    | Created response => (ok response, tr ++ [c])
    end.

(** [response.content[0].text if response.content else ""]. *)
Definition first_text (bs : list block) : result string :=
  match bs with
  | [] => ok ""
  | TextBlock t :: _ => ok t
  | OtherBlock :: _ => raise AttributeError
  end.

Definition chat (request : ChatRequest) : M ChatResponse :=
  if negb client then throw (HTTPException 503 (JStr "AI service not configured"))
  else
    (let* moderation := check_moderation (message request) in
     let* passed := lift (get moderation "passed" (JBool true)) in
     if negb (truthy passed) then
       let* flags := lift (get moderation "flags" (JArr [])) in
       throw (HTTPException 400
                (JObj [("code", JStr "CONTENT_BLOCKED");
                       ("message", JStr "Message blocked by content moderation");
                       ("flags", flags)]))
     else
       let* context := get_conversation_context (conversation_id request) in
       let character := character context in
       let messages := messages context in
       let* memories := get_memory_context (conversation_id request) (message request) in
       let* system_prompt :=
         lift (get character "systemPrompt" (JStr "You are a helpful AI assistant.")) in
       let* claude_messages :=
         lift (build_messages character messages (message request) memories) in
       try_except
         (let* response :=
            create_call (MessagesCreate (claude_model settings) system_prompt
                                        claude_messages) in
          let* content := lift (first_text (blocks response)) in
          let* response_moderation := check_moderation content in
          let* passed := lift (get response_moderation "passed" (JBool true)) in
          let content := if negb (truthy passed) then refusal else content in
          ret {| r_content := content;
                 r_metadata := {| md_model := model response;
                                  prompt_tokens := input_tokens response;
                                  completion_tokens := output_tokens response |} |})
         (HTTPException 500 (JStr "AI service error")))%st.

Definition chunk_event (text : string) : sse :=
  {| event := "chunk"; data := JObj [("content", JStr text)] |}.

Definition done_event (full_content : string) : sse :=
  {| event := "done";
     data := JObj [("content", JStr full_content);
                   ("metadata", JObj [("model", JStr (claude_model settings))])] |}.

Definition error_event : sse :=
  {| event := "error"; data := JObj [("error", JStr "AI service unavailable")] |}.

(** The [for text in stream.text_stream] loop and what follows it.  The
    done event is yielded inside the [with] block and inside the [try]: an
    exception raised on leaving the block reaches the handler after it. *)
Fixpoint stream_loop (text_stream : list string) (ending : stream_end)
  (full_content : string) : list sse :=
  match text_stream with
  | text :: rest =>
      let full_content := full_content +:+ text in
      chunk_event text :: stream_loop rest ending full_content
  | [] =>
      match ending with
      | Completes => [done_event full_content]
      | StreamRaises => [error_event]
      | ExitRaises => [done_event full_content; error_event]
      end
  end.

(** The events of the generator, consumed to its end. *)
Definition generate (system_prompt : json) (claude_messages : list message_param)
  : M (list sse) :=
  fun tr =>
    let c := MessagesStream (claude_model settings) system_prompt claude_messages in
    let full_content := "" in
    (ok match messages_stream env tr c with
        | OpenRaises => [error_event]
        | Opened text_stream ending => stream_loop text_stream ending full_content
        end,
     tr ++ [c]).

Definition chat_stream (request : ChatRequest) : M (list sse) :=
  if negb client then throw (HTTPException 503 (JStr "AI service not configured"))
  else
    (let* moderation := check_moderation (message request) in
     let* passed := lift (get moderation "passed" (JBool true)) in
     if negb (truthy passed) then
       throw (HTTPException 400 (JStr "Message blocked by content moderation"))
     else
       let* context := get_conversation_context (conversation_id request) in
       let character := character context in
       let messages := messages context in
       let* memories := get_memory_context (conversation_id request) (message request) in
       let* system_prompt :=
         lift (get character "systemPrompt" (JStr "You are a helpful AI assistant.")) in
       let* claude_messages :=
         lift (build_messages character messages (message request) memories) in
       generate system_prompt claude_messages)%st.

End Service.

End Chat.

(* ===================================================================== *)
(** ** The specification's wording, and the inputs of the examples *)
(* ===================================================================== *)

Module ModerationSpec.

Import Moderation.

(** "strict/moderate/relaxed map to ascending severity thresholds"; any
    other level "defaults to the moderate threshold". *)
Definition spec_threshold (settings : Settings) (filter_level : string) : float :=
  if decide (filter_level = "strict") then severity_threshold_low settings
  else if decide (filter_level = "relaxed") then severity_threshold_high settings
  else severity_threshold_medium settings.

(** "Final score = max(classifier score, 0.5 if any keyword flags present,
    else classifier score)". *)
Definition spec_final_score (keyword_flags : list ModerationFlag) (classifier_score : float)
  : float :=
  pymax classifier_score
        (match keyword_flags with
         | [] => classifier_score
         | _ => Fin (1 # 2)
         end).

(** "passes iff score < threshold AND no flag has severity high". *)
Definition spec_passed (score threshold : float) (flags : list ModerationFlag) : bool :=
  flt score threshold && forallb (fun f => negb (String.eqb (severity f) "high")) flags.

(** A content is blocked when some pattern matches its lowercased text. *)
Definition blocked `{Runtime} (content : string) : bool :=
  existsb (fun pattern => re_search pattern (str_lower content)) BLOCKED_PATTERNS.

(** The three ways the classifier can be unavailable on call [n]:
    unconfigured, raising, or answering with text that is not JSON. *)
Definition classifier_fails (claude_client : option client) (content : string) (n : nat)
  : Prop :=
  match claude_client with
  | None => True
  | Some create =>
      match create n content with
      | ApiRaises => True
      | Message (TextBlock (NotJson _) :: _) => True
      | _ => False
      end
  end.

(** A classifier that answers every call with the JSON object
    [{score: 5}]. *)
Definition overshooting_client : client :=
  fun _ _ => Message [TextBlock (JsonText (JObj [("score", JInt 5)]))].

(** A classifier whose every call raises. *)
Definition failing_client : client := fun _ _ => ApiRaises.

(** A classifier that finds nothing and scores 0.2. *)
Definition lenient_client : client :=
  fun _ _ => Message [TextBlock (JsonText (JObj [("flags", JArr []);
                                                  ("score", JFloat (Fin (2 # 10)))]))].

End ModerationSpec.

Module MemorySpec.

Import Memory.

(** The set a key denotes as an index: empty when absent, nothing when the
    key holds a string. *)
Definition index_set (d : gmap string (Redis.entry memory)) (key : string)
  : option (gset string) :=
  match d !! key with
  | None => Some ∅
  | Some {| Redis.val := Redis.VSet members |} => Some members
  | Some {| Redis.val := Redis.VString _ |} => None
  end.

(** The members of a conversation's index, as SMEMBERS reports them. *)
Definition index_members (conversation_id : string) (w : world) : result (gset string) :=
  fst (Redis.smembers (index_key_of conversation_id) (db w)).

(** The world after [seconds] of time have passed. *)
Definition later (seconds : Z) (w : world) : world :=
  {| db := Redis.elapse seconds (db w); calls := calls w |}.

Definition delete_all (keys : list string) (d : gmap string (Redis.entry memory))
  : gmap string (Redis.entry memory) :=
  fold_left (fun d key => delete key d) keys d.

Section Records.

Variable settings : Settings.
Variable hash : string -> Z.

(** What [store_memory] writes for a request. *)
Definition record_of (request : StoreMemoryRequest) (embedding : option (list R)) : memory :=
  {| id := memory_id_of hash (s_conversation_id request) (s_content request);
     conversation_id := s_conversation_id request;
     content := s_content request;
     type := s_memory_type request;
     importance := s_importance request;
     embedding := embedding;
     relevance_score := None |}.

Definition record_entry (request : StoreMemoryRequest) (embedding : option (list R))
  : Redis.entry memory :=
  {| Redis.val := Redis.VString (record_of request embedding);
     Redis.ttl := Some (short_term_ttl settings) |}.

Definition index_entry (members : gset string) : Redis.entry memory :=
  {| Redis.val := Redis.VSet members;
     Redis.ttl := Some (short_term_ttl settings * 24)%Z |}.

End Records.

(** A conversation with two indexed ids, one of whose records is gone. *)
Definition sample_record : memory := {|
  id := "c1:5";
  conversation_id := "c1";
  content := "likes tea";
  type := "fact";
  importance := 0.5%R;
  embedding := None;
  relevance_score := None
|}.

Definition sample_ids : gset string := {["c1:5"; "c1:7"]}.

Definition sample_world : world := {|
  db := <["memory_index:c1" := {| Redis.val := Redis.VSet sample_ids;
                                  Redis.ttl := Some 86400%Z |}]>
        (<["memory:c1:5" := {| Redis.val := Redis.VString sample_record;
                               Redis.ttl := Some 3600%Z |}]> ∅);
  calls := 0
|}.

Definition sample_request : StoreMemoryRequest := {|
  s_conversation_id := "c1";
  s_content := "likes tea";
  s_memory_type := "fact";
  s_importance := 0.5%R
|}.

Definition sample_hash : string -> Z := fun _ => 42%Z.

Definition empty_world : world := {| db := ∅; calls := 0 |}.

End MemorySpec.

Module ChatSpec.

Import Chat.

(** "the full concatenated text". *)
Definition join (texts : list string) : string := fold_right String.append "" texts.

(** The three kinds of event, written out: a chunk carries its text, the
    done event the full text and the model's name, the error event a fixed
    message. *)
Definition spec_chunk (text : string) : sse :=
  {| event := "chunk"; data := JObj [("content", JStr text)] |}.

Definition spec_done (settings : Settings) (full_text : string) : sse :=
  {| event := "done";
     data := JObj [("content", JStr full_text);
                   ("metadata", JObj [("model", JStr (claude_model settings))])] |}.

Definition spec_error : sse :=
  {| event := "error"; data := JObj [("error", JStr "AI service unavailable")] |}.

(** "chunk events ..., followed by one done event carrying the full
    concatenated text, or one error event on provider failure"; and, when
    the stream was read to its end but closing it fails, the done event
    followed by the error event. *)
Definition expected_events (settings : Settings) (outcome : stream_result) : list sse :=
  match outcome with
  | OpenRaises => [spec_error]
  | Opened texts Completes => map spec_chunk texts ++ [spec_done settings (join texts)]
  | Opened texts StreamRaises => map spec_chunk texts ++ [spec_error]
  | Opened texts ExitRaises =>
      map spec_chunk texts ++ [spec_done settings (join texts); spec_error]
  end.

Fixpoint count_events (name : string) (events : list sse) : nat :=
  match events with
  | [] => 0
  | e :: rest => (if String.eqb (event e) name then 1 else 0) + count_events name rest
  end.

(** A moderation verdict fails when its [passed] entry is false-like, and
    passes when the entry is true-like or missing. *)
Definition verdict_fails (moderation : json) : Prop :=
  exists passed, get moderation "passed" (JBool true) = ok passed /\ truthy passed = false.

Definition verdict_passes (moderation : json) : Prop :=
  exists passed, get moderation "passed" (JBool true) = ok passed /\ truthy passed = true.

Definition verdict_body (passed : bool) : text :=
  JsonText (JObj [("success", JBool true);
                  ("data", JObj [("passed", JBool passed); ("flags", JArr [])])]).

(** An outside world for the examples: the moderation service passes the
    first text it is asked about and answers [later_verdict] afterwards;
    the chat service knows the conversation; the LLM answers, and its
    stream breaks after two chunks. *)
Definition sample_env (first_verdict later_verdict : bool) : environment := {|
  http := fun history c =>
    match c with
    | PostModerate _ =>
        Response 200 (verdict_body (match history with
                                    | [] => first_verdict
                                    | _ => later_verdict
                                    end))
    | GetConversation _ =>
        Response 200 (JsonText (JObj [("success", JBool true);
                                      ("data", JObj [("character", JObj [])])]))
    | GetMessages _ => Response 200 (JsonText (JObj [("data", JArr [])]))
    | PostRetrieve _ _ =>
        Response 200 (JsonText (JObj [("data", JObj [("memories", JArr [])])]))
    | _ => RequestFails
    end;
  messages_create := fun _ _ =>
    Created {| blocks := [TextBlock "generated text"];
               model := "claude-sonnet-4-20250514";
               input_tokens := 12;
               output_tokens := 3 |};
  messages_stream := fun _ _ => Opened ["Hel"; "lo"] StreamRaises
|}.

Definition sample_request : ChatRequest := {|
  conversation_id := "c1";
  message := "hi";
  user_id := "u1"
|}.

Definition sample_str_of : json -> string := fun _ => "".

End ChatSpec.

(* ===================================================================== *)
(** ** Further vocabulary: orders, views of the store, scripted worlds *)
(* ===================================================================== *)

Module Doubles.

(** IEEE 754 binary64 numbers, with the operations the Standard Library
    specifies for them (round to nearest, ties to even). *)
Definition double : Type := SpecFloat.spec_float.

Definition prec : Z := 53.
Definition emax : Z := 1024.

Definition mul : double -> double -> double := SpecFloat.SFmul prec emax.
Definition add : double -> double -> double := SpecFloat.SFadd prec emax.
Definition quotient : double -> double -> double := SpecFloat.SFdiv prec emax.
Definition sqrt : double -> double := SpecFloat.SFsqrt prec emax.

Definition zero : double := SpecFloat.S754_zero false.

(** Truth value of a float: false for the two zeros only (NaN is true). *)
Definition nonzero (x : double) : bool :=
  match x with
  | SpecFloat.S754_zero _ => false
  | _ => true
  end.

(** [x / y] on floats: raises on a zero divisor. *)
Definition div (x y : double) : result double :=
  if nonzero y then ok (quotient x y) else raise ZeroDivisionError.

(** What the function returns: the int of its [else] branch, or a float. *)
Inductive number :=
  | Int (z : Z)
  | Float (x : double).

(** The two builtins whose result, to the last bit, depends on the
    interpreter and on the C library: [sum] over floats (plain
    left-to-right addition up to Python 3.11, compensated summation from
    3.12 on; the int 0 of an empty sum stands here as 0.0, which is what
    [** 0.5] and the truth test make of it) and [x ** 0.5] (the C
    library's [pow]).  The function is written against this interface.
    [pow_half] is applied to sums of squares only, which are never
    negative. *)
Class Builtins := {
  sum : list double -> double;
  pow_half : double -> double
}.

Fixpoint zip {A B} (a : list A) (b : list B) : list (A * B) :=
  match a, b with
  | x :: a', y :: b' => (x, y) :: zip a' b'
  | _, _ => []
  end.

Definition cosine_similarity `{Builtins} (a b : list double) : result number :=
  let dot := sum (map (fun xy => mul (fst xy) (snd xy)) (zip a b)) in
  let norm_a := pow_half (sum (map (fun x => mul x x) a)) in
  let norm_b := pow_half (sum (map (fun x => mul x x) b)) in
  if nonzero norm_a && nonzero norm_b then
    (let* q := div dot (mul norm_a norm_b) in
     ok (Float q))%py
  else ok (Int 0).

(** Plain left-to-right summation from 0.0, and the correctly rounded
    square root, with [pow]'s values at the signed zeros and infinities. *)
Definition reference_sum (xs : list double) : double := fold_left add xs zero.

Definition reference_pow_half (x : double) : double :=
  match x with
  | SpecFloat.S754_zero _ => zero
  | SpecFloat.S754_infinity _ => SpecFloat.S754_infinity false
  | _ => sqrt x
  end.

#[export] Instance reference_builtins : Builtins := {
  sum := reference_sum;
  pow_half := reference_pow_half
}.

End Doubles.

Module DoublesSpec.

Import Doubles.


(** The number a finite double stands for; 0 for the zeros (and, with no
    meaning, for infinities and NaN). *)
Definition exact (x : double) : Q :=
  match x with
  | SpecFloat.S754_finite s m e =>
      ((if s then -1 else 1) * inject_Z (Z.pos m) * Qpower 2 e)%Q
  | _ => 0%Q
  end.



End DoublesSpec.

Module FloatOrder.

(** [x <= y] on floats; every comparison with NaN is false. *)
Definition fle (x y : float) : bool :=
  match x, y with
  | NaN, _ | _, NaN => false
  | Fin a, Fin b => Qle_bool a b
  | NInf, _ => true
  | _, PInf => true
  | _, _ => false
  end.

End FloatOrder.

Module ModerationCases.

Import Moderation.

(** An answer of the classifier that [check_ai_moderation] cannot use: the
    JSON value is not an object, one of the listed flags cannot be turned
    into a ModerationFlag, or the score is not a number. *)
Definition unusable `{Runtime} (v : json) : Prop :=
  match v with
  | JObj fields =>
      (exists items f,
          iter (dict_get fields "flags" (JArr [])) = ok items
          /\ In f items
          /\ exists e, flag_of_json f = raise e)
      \/ (exists e, iter (dict_get fields "flags" (JArr [])) = raise e)
      \/ (exists e, py_float (dict_get fields "score" (JInt 0)) = raise e)
  | _ => True
  end.

(** A classifier that reports one valid high-severity flag, one flag whose
    severity is a number, and score 0.9. *)
Definition sloppy_client : client :=
  fun _ _ =>
    Message [TextBlock (JsonText (JObj
      [("flags", JArr [JObj [("category", JStr "violence"); ("severity", JStr "high")];
                       JObj [("category", JStr "spam"); ("severity", JInt 3)]]);
       ("score", JFloat (Fin (9 # 10)))]))].

(** On call [n] the classifier step has nothing to go by: the classifier is
    unconfigured, the call raises, the answer has no content (its text
    then defaults to an empty object), its first block has no text, the
    text is not JSON, or the JSON is unusable. *)
Definition no_usable_answer `{Runtime} (claude_client : option client) (content : string)
  (n : nat) : Prop :=
  match claude_client with
  | None => True
  | Some create =>
      match create n content with
      | ApiRaises => True
      | Message [] => True
      | Message (OtherBlock :: _) => True
      | Message (TextBlock (NotJson _) :: _) => True
      | Message (TextBlock (JsonText v) :: _) => unusable v
      end
  end.

(** On call [n] the classifier answers with a JSON object whose flags are
    all well formed and whose score entry, a missing one counting as 0,
    is the number [s]. *)
Definition answers_score `{Runtime} (claude_client : option client) (content : string)
  (n : nat) (s : float) : Prop :=
  exists create fields rest items,
    claude_client = Some create
    /\ create n content = Message (TextBlock (JsonText (JObj fields)) :: rest)
    /\ iter (dict_get fields "flags" (JArr [])) = ok items
    /\ (forall f, In f items -> exists flag, flag_of_json f = ok flag)
    /\ py_float (dict_get fields "score" (JInt 0)) = ok s.

End ModerationCases.

Module MemoryViews.

Import Memory MemorySpec.

(** The records a GET finds for the ids, in order; ids without a record
    contribute nothing. *)
Definition live_records (d : gmap string (Redis.entry memory)) (memory_ids : list string)
  : list memory :=
  flat_map (fun mid =>
              match d !! memory_key mid with
              | Some {| Redis.val := Redis.VString m |} => [m]
              | _ => []
              end) memory_ids.

(** No record key of the ids holds a set. *)
Definition records_typed (d : gmap string (Redis.entry memory)) (memory_ids : list string)
  : Prop :=
  forall mid members t,
    In mid memory_ids ->
    d !! memory_key mid <> Some {| Redis.val := Redis.VSet members; Redis.ttl := t |}.

(** The store as the service itself leaves it: a record key never holds a
    set and an index key never holds a string. *)
Definition well_typed (d : gmap string (Redis.entry memory)) : Prop :=
  (forall mid members t,
      d !! memory_key mid <> Some {| Redis.val := Redis.VSet members; Redis.ttl := t |})
  /\ (forall cid m t,
         d !! index_key_of cid <> Some {| Redis.val := Redis.VString m; Redis.ttl := t |}).

(** A handler step that leaves the store as it found it. *)
Definition keeps_db {A} (m : M A) : Prop := forall w, db (snd (m w)) = db w.

(** Requests for the examples. *)
Definition sample_query : RetrieveMemoryRequest :=
  {| r_conversation_id := "c1"; r_query := "tea"; r_limit := 5 |}.

(** A second request of the same conversation. *)
Definition other_request : StoreMemoryRequest := {|
  s_conversation_id := "c1";
  s_content := "likes coffee";
  s_memory_type := "preference";
  s_importance := 0.9%R
|}.

(** The fields of a record that scoring leaves alone. *)
Definition core (m : memory) : string * string * string * R :=
  (id m, content m, type m, importance m).

End MemoryViews.

Module ChatCases.

Import Chat ChatSpec.

(** What [check_moderation] returns when the service gave no usable
    answer. *)
Definition allowing : json := JObj [("passed", JBool true); ("flags", JArr [])].

(** The text appended to the user's message: empty without memories. *)
Definition memory_context (str_of : json -> string) (memories : list json) : string :=
  match memories with
  | [] => ""
  | _ => newline +:+ newline +:+ "Relevant context from previous conversations:"
         +:+ newline
         +:+ String.concat newline
               (map (fun m => "- " +:+ format_value str_of m) memories)
  end.

(** The calls [chat] and [chat_stream] both make before calling the LLM. *)
Definition preparation (request : ChatRequest) : list call :=
  [PostModerate (message request);
   GetConversation (conversation_id request);
   GetMessages (conversation_id request);
   PostRetrieve (conversation_id request) (message request)].

(** The steps [chat] and [chat_stream] share succeed from the trace [tr]:
    the user's message passes moderation, the context and the memories
    are fetched, and the prompt is built. *)
Definition prepares (env : environment) (str_of : json -> string)
  (request : ChatRequest) (tr tr3 : list call) (system_prompt : json)
  (claude_messages : list message_param) : Prop :=
  exists moderation tr1 context tr2 memories,
    check_moderation env (message request) tr = (ok moderation, tr1)
    /\ verdict_passes moderation
    /\ get_conversation_context env (conversation_id request) tr1 = (ok context, tr2)
    /\ get_memory_context env (conversation_id request) (message request) tr2
       = (ok memories, tr3)
    /\ get (character context) "systemPrompt" (JStr "You are a helpful AI assistant.")
       = ok system_prompt
    /\ build_messages str_of (character context) (messages context) (message request)
         memories = ok claude_messages.

(** An outside world that answers each kind of call in a fixed way, the
    moderation service apart: it answers [first_moderate] to the first
    call made and [later_moderate] afterwards. *)
Definition scripted_env (first_moderate later_moderate conversation history
                         memories : http_result)
  (created : create_result) (streamed : stream_result) : environment := {|
  http := fun made c =>
    match c with
    | PostModerate _ => match made with [] => first_moderate | _ => later_moderate end
    | GetConversation _ => conversation
    | GetMessages _ => history
    | PostRetrieve _ _ => memories
    | _ => RequestFails
    end;
  messages_create := fun _ _ => created;
  messages_stream := fun _ _ => streamed
|}.

Definition passing : http_result := Response 200 (verdict_body true).

Definition known_conversation : http_result :=
  Response 200 (JsonText (JObj [("success", JBool true);
                                ("data", JObj [("character", JObj [])])])).

Definition no_history : http_result := Response 200 (JsonText (JObj [("data", JArr [])])).

Definition no_memories : http_result :=
  Response 200 (JsonText (JObj [("data", JObj [("memories", JArr [])])])).

Definition sample_message : Message :=
  {| blocks := [TextBlock "generated text"];
     model := "claude-sonnet-4-20250514";
     input_tokens := 12;
     output_tokens := 3 |}.

Definition sample_prompt : list message_param :=
  [{| role := "user"; content := JStr "hi" |}].

Definition sample_system : json := JStr "You are a helpful AI assistant.".

(** A history as the chat service returns it. *)
Definition sample_history : json :=
  JArr [JObj [("role", JStr "USER"); ("content", JStr "hello")];
        JObj [("role", JStr "ASSISTANT"); ("content", JStr "good day")];
        JObj [("role", JStr "user"); ("content", JStr "lower case")]].

(** Answers of a sibling service that went wrong. *)
Definition not_found : http_result := Response 404 (NotJson "Not Found").

Definition garbled : http_result := Response 200 (NotJson "<html>").

Definition failed_history : http_result :=
  Response 500 (JsonText (JObj [("success", JBool false); ("error", JStr "boom")])).

(** What [build_messages] makes of [sample_history] and the message hi. *)
Definition sample_messages : list message_param :=
  [{| role := "user"; content := JStr "hello" |};
   {| role := "assistant"; content := JStr "good day" |};
   {| role := "assistant"; content := JStr "lower case" |};
   {| role := "user"; content := JStr "hi" |}].

(** An LLM stream that ends at once. *)
Definition idle : stream_result := Opened [] Completes.

(** An LLM stream that delivers two chunks and is read to its end, but
    whose closing raises. *)
Definition closing_fails : stream_result := Opened ["Hel"; "lo"] ExitRaises.

End ChatCases.

(* ===================================================================== *)
(** ** Running handlers step by step *)
(* ===================================================================== *)

Section StFacts.

Context {S A B : Type}.

Lemma mbind_ok (m : St S A) (k : A -> St S B) (w w' : S) (a : A) :
  m w = (ok a, w') -> mbind m k w = k a w'.
Proof. intros H. unfold mbind. rewrite H. reflexivity. Qed.

Lemma mbind_raise (m : St S A) (k : A -> St S B) (w w' : S) (e : exn) :
  m w = (raise e, w') -> mbind m k w = (raise e, w').
Proof. intros H. unfold mbind. rewrite H. reflexivity. Qed.

Lemma mbind_inv_ok (m : St S A) (k : A -> St S B) (w w' : S) (b : B) :
  mbind m k w = (ok b, w') ->
  exists a w1, m w = (ok a, w1) /\ k a w1 = (ok b, w').
Proof.
  unfold mbind. destruct (m w) as [[e|a] w1]; intros H; [discriminate|eauto].
Qed.

Lemma try_except_ok (body : St S A) (handler : exn) (w w' : S) (a : A) :
  body w = (ok a, w') -> try_except body handler w = (ok a, w').
Proof. intros H. unfold try_except. rewrite H. reflexivity. Qed.

Lemma try_except_raise (body : St S A) (handler e : exn) (w w' : S) :
  body w = (raise e, w') -> try_except body handler w = (raise handler, w').
Proof. intros H. unfold try_except. rewrite H. reflexivity. Qed.

Lemma lift_run (r : result A) (w : S) : lift r w = (r, w).
Proof. reflexivity. Qed.

End StFacts.

(* ===================================================================== *)
(** ** The reference matcher decides the match relation *)
(* ===================================================================== *)

Section ReFacts.

Import Re.

Lemma advance_In (p : ascii -> bool) (cur cur' : cursor) :
  In cur' (advance p cur)
  <-> exists x rest, snd cur = x :: rest /\ p x = true /\ cur' = (Some x, rest).
Proof.
  unfold advance. destruct (snd cur) as [|x rest] eqn:Hs.
  - split; [intros []|]. intros (x & rest & H & _). discriminate.
  - destruct (p x) eqn:Hp; simpl.
    + split.
      * intros [<-|[]]. eauto.
      * intros (x' & rest' & H & _ & ->). injection H as <- <-. left. reflexivity.
    + split; [intros []|]. intros (x' & rest' & H & Hp' & _).
      injection H as <- <-. congruence.
Qed.

(** A match never lengthens the remaining input, and a match that consumes
    nothing ends where it began. *)
Lemma matches_consumes (r : regex) (c1 c2 : cursor) :
  matches r c1 c2 ->
  (length (snd c2) <= length (snd c1))%nat
  /\ (length (snd c2) = length (snd c1) -> c2 = c1).
Proof.
  induction 1 as [cur|c prev x rest Hc|prev x rest Hs|cur Hb
                 |a b c1 c2 c3 _ [IH1 IH1'] _ [IH2 IH2']
                 |a b c1 c2 _ IH|a b c1 c2 _ IH|a c1 c2 _ IH|a cur
                 |a c1 c2 _ IH|a c1 c2 c3 _ [IH1 IH1'] _ [IH2 IH2']];
    simpl in *; try (split; [lia|]; intros; try reflexivity; lia); try exact IH.
  - split; [lia|]. intros Heq.
    rewrite (IH2' ltac:(lia)). apply IH1'. rewrite (IH2' ltac:(lia)) in Heq. lia.
  - split; [lia|]. intros Heq.
    rewrite (IH2' ltac:(lia)). apply IH1'. rewrite (IH2' ltac:(lia)) in Heq. lia.
Qed.

Lemma rounds_mono (step : cursor -> list cursor) (fuel fuel' : nat) (cur cur' : cursor) :
  (fuel <= fuel')%nat -> In cur' (rounds step fuel cur) -> In cur' (rounds step fuel' cur).
Proof.
  revert fuel' cur. induction fuel as [|fuel IH]; intros fuel' cur Hle; [intros []|].
  destruct fuel' as [|fuel']; [lia|]. simpl.
  rewrite !in_app_iff, !in_flat_map. intros [Hin|(c & Hc & Hin)]; [auto|].
  right. exists c. split; [exact Hc|].
  destruct (length (snd c) <? length (snd cur))%nat; [|destruct Hin].
  apply IH; [lia|exact Hin].
Qed.

Lemma run_sound (r : regex) (cur cur' : cursor) :
  In cur' (run r cur) -> matches r cur cur'.
Proof.
  revert cur cur'. induction r as [|c| | |a IHa b IHb|a IHa b IHb|a IHa|a IHa];
    intros cur cur'; cbn [run].
  - intros [<-|[]]. apply matches_eps.
  - rewrite advance_In. intros (x & rest & Hs & Hp & ->).
    destruct cur as [prev s]. simpl in Hs. subst s. apply matches_chr. exact Hp.
  - rewrite advance_In. intros (x & rest & Hs & Hp & ->).
    destruct cur as [prev s]. simpl in Hs. subst s. apply matches_space. exact Hp.
  - destruct (at_boundary cur) eqn:Hb; [|intros []]. intros [<-|[]].
    apply matches_boundary. exact Hb.
  - rewrite in_flat_map. intros (mid & Hmid & Hin). econstructor; eauto.
  - rewrite in_app_iff. intros [H|H]; [apply matches_alt_l|apply matches_alt_r]; auto.
  - rewrite in_app_iff. intros [H|[<-|[]]]; [apply matches_opt_some; auto|apply matches_opt_none].
  - generalize (Datatypes.S (length (snd cur))). intros fuel. revert cur.
    induction fuel as [|fuel IH]; intros cur; cbn [rounds]; [intros []|].
    rewrite in_app_iff, in_flat_map. intros [H|(mid & Hmid & Hin)].
    + apply matches_plus_one. auto.
    + destruct (length (snd mid) <? length (snd cur))%nat; [|destruct Hin].
      eapply matches_plus_more; eauto.
Qed.

Lemma run_complete (r : regex) (cur cur' : cursor) :
  matches r cur cur' -> In cur' (run r cur).
Proof.
  induction 1 as [cur|c prev x rest Hc|prev x rest Hs|cur Hb
                 |a b c1 c2 c3 _ IH1 _ IH2
                 |a b c1 c2 _ IH|a b c1 c2 _ IH|a c1 c2 _ IH|a cur
                 |a c1 c2 _ IH|a c1 c2 c3 H12 IH1 H23 IH2]; cbn [run] in *.
  - left. reflexivity.
  - apply advance_In. eauto.
  - apply advance_In. eauto.
  - rewrite Hb. left. reflexivity.
  - apply in_flat_map. eauto.
  - apply in_app_iff. auto.
  - apply in_app_iff. auto.
  - apply in_app_iff. auto.
  - apply in_app_iff. right. left. reflexivity.
  - cbn [rounds]. apply in_app_iff. auto.
  - destruct (matches_consumes _ _ _ H12) as [Hle Hsame].
    destruct (Nat.eq_dec (length (snd c2)) (length (snd c1))) as [Heq|Hne].
    + rewrite <- (Hsame Heq). exact IH2.
    + cbn [rounds]. apply in_app_iff. right. apply in_flat_map.
      exists c2. split; [exact IH1|].
      rewrite (proj2 (Nat.ltb_lt _ _)) by lia.
      eapply rounds_mono; [|exact IH2]. lia.
Qed.

Lemma cursors_In (prev : option ascii) (s : list ascii) (cur : cursor) :
  In cur (cursors prev s)
  <-> exists pre post,
        s = pre ++ post
        /\ cur = (match last pre with Some c => Some c | None => prev end, post).
Proof.
  revert prev. induction s as [|c s IH]; intros prev; simpl.
  - split.
    + intros [<-|[]]. exists [], []. auto.
    + intros (pre & post & Hs & ->). symmetry in Hs.
      apply app_eq_nil in Hs as [-> ->]. left. reflexivity.
  - rewrite IH. split.
    + intros [<-|(pre & post & -> & ->)].
      * exists [], (c :: s). auto.
      * exists (c :: pre), post. split; [reflexivity|].
        rewrite last_cons. destruct (last pre); reflexivity.
    + intros (pre & post & Hs & ->). destruct pre as [|c' pre]; simpl in Hs.
      * subst post. left. reflexivity.
      * injection Hs as <- ->. right. exists pre, post. split; [reflexivity|].
        rewrite last_cons. destruct (last pre); reflexivity.
Qed.

(** The reference matcher decides [found]. *)
Lemma search_found (r : regex) (s : string) : search r s = true <-> found r s.
Proof.
  unfold search, found. rewrite existsb_exists. split.
  - intros (cur & Hcur & Hrun). apply cursors_In in Hcur as (pre & post & Hs & ->).
    destruct (run r _) as [|cur' rest] eqn:Hr; [discriminate|].
    exists pre, post, cur'. split; [exact Hs|].
    apply run_sound. destruct (last pre); rewrite Hr; left; reflexivity.
  - intros (pre & post & cur' & Hs & Hm). exists (last pre, post). split.
    + apply cursors_In. exists pre, post. split; [exact Hs|].
      destruct (last pre); reflexivity.
    + apply run_complete in Hm. destruct (run r _); [destruct Hm|reflexivity].
Qed.

End ReFacts.

(* ===================================================================== *)
(** ** Content moderation: properties *)
(* ===================================================================== *)

Section ModerationFacts.

Import Re Moderation ModerationSpec.

Context {rt : Runtime}.
Variable settings : Settings.
Variable claude_client : option client.

Lemma keyword_scan_all_high (patterns : list regex) (text : string) :
  Forall (fun f => f = keyword_flag)
    (flat_map (fun pattern => if re_search pattern text then [keyword_flag] else [])
              patterns).
Proof.
  induction patterns as [|p ps IH]; simpl.
  - constructor.
  - destruct (re_search p text); simpl; [constructor|]; auto.
Qed.

Lemma keyword_scan_high (patterns : list regex) (text : string) :
  existsb is_high
    (flat_map (fun pattern => if re_search pattern text then [keyword_flag] else [])
              patterns)
  = existsb (fun pattern => re_search pattern text) patterns.
Proof.
  induction patterns as [|p ps IH]; simpl; [reflexivity|].
  destruct (re_search p text); simpl; [reflexivity|exact IH].
Qed.

Lemma keyword_flags_high (content : string) :
  existsb is_high (check_keyword_filters content) = blocked content.
Proof. apply keyword_scan_high. Qed.

Lemma all_high_nil (l : list ModerationFlag) :
  Forall (fun f => f = keyword_flag) l -> existsb is_high l = false -> l = [].
Proof.
  intros Hall Hnone. destruct Hall as [|f l Hf _]; [reflexivity|].
  subst f. simpl in Hnone. discriminate.
Qed.

Lemma unblocked_no_keyword_flags (content : string) :
  blocked content = false -> check_keyword_filters content = [].
Proof.
  intros Hb. apply all_high_nil.
  - apply keyword_scan_all_high.
  - rewrite keyword_flags_high. exact Hb.
Qed.

(** A configured classifier is called exactly once per check. *)
Lemma check_ai_moderation_counts (create : client) (content : string) (n : nat) :
  snd (check_ai_moderation (Some create) content n) = Datatypes.S n.
Proof. reflexivity. Qed.

Lemma moderate_content_blocked (request : ModerationRequest) (n : nat) :
  blocked (content request) = true ->
  moderate_content settings claude_client request n
  = ({| passed := false;
        flags := check_keyword_filters (content request);
        score := Fin 1 |}, n).
Proof.
  intros Hb. unfold moderate_content.
  rewrite keyword_flags_high, Hb. reflexivity.
Qed.

Lemma pymax_same (x : float) : pymax x x = x.
Proof. unfold pymax. destruct (flt x x); reflexivity. Qed.

Lemma spec_threshold_agrees (level : string) :
  thresholds_get settings level = spec_threshold settings level.
Proof.
  unfold thresholds_get, spec_threshold.
  destruct (decide (level = "strict")) as [->|Hs]; [reflexivity|].
  destruct (String.eqb_spec level "strict"); [contradiction|].
  destruct (String.eqb_spec level "moderate") as [->|Hm]; [reflexivity|].
  destruct (decide (level = "relaxed")) as [->|Hr]; [reflexivity|].
  destruct (String.eqb_spec level "relaxed"); [contradiction|reflexivity].
Qed.

Lemma no_high_forallb (l : list ModerationFlag) :
  negb (existsb is_high l) = forallb (fun f => negb (String.eqb (severity f) "high")) l.
Proof.
  induction l as [|f l IH]; simpl; [reflexivity|].
  rewrite negb_orb, IH. reflexivity.
Qed.

Lemma moderate_content_unblocked (request : ModerationRequest) (n : nat) :
  blocked (content request) = false ->
  let keyword_flags := check_keyword_filters (content request) in
  let verdict := check_ai_moderation claude_client (content request) n in
  let all_flags := keyword_flags ++ fst (fst verdict) in
  let final_score := spec_final_score keyword_flags (snd (fst verdict)) in
  let threshold := spec_threshold settings (filter_level request) in
  moderate_content settings claude_client request n
  = ({| passed := spec_passed final_score threshold all_flags;
        flags := all_flags;
        score := final_score |}, snd verdict).
Proof.
  intros Hb. cbv zeta. unfold moderate_content.
  rewrite keyword_flags_high, Hb.
  rewrite (unblocked_no_keyword_flags _ Hb).
  destruct (check_ai_moderation claude_client (content request) n)
    as [[ai_flags ai_score] n'].
  simpl. unfold spec_final_score, spec_passed.
  rewrite pymax_same, spec_threshold_agrees, no_high_forallb. reflexivity.
Qed.

Lemma unblocked_score (request : ModerationRequest) (n : nat) :
  blocked (content request) = false ->
  score (fst (moderate_content settings claude_client request n))
  = snd (fst (check_ai_moderation claude_client (content request) n)).
Proof.
  intros Hb. rewrite (moderate_content_unblocked _ n Hb). simpl.
  rewrite (unblocked_no_keyword_flags _ Hb). unfold spec_final_score.
  apply pymax_same.
Qed.

Lemma in_unit_one : in_unit (Fin 1).
Proof. simpl. split; discriminate. Qed.

Lemma classifier_fails_verdict (content : string) (n : nat) :
  classifier_fails claude_client content n ->
  fst (check_ai_moderation claude_client content n) = ([], Fin 0).
Proof.
  unfold classifier_fails, check_ai_moderation.
  destruct claude_client as [create|]; [|reflexivity].
  destruct (create n content) as [|[|[[raw|v]|] rest]]; simpl; intros H;
    try contradiction; reflexivity.
Qed.

(** C1.  Content that matches a blocked pattern (on its lowercased text) is
    rejected with score 1.0 and the keyword flags only; the classifier call
    counter comes back unchanged, so no classifier call was made, and the
    result is the same for every classifier. *)
Theorem moderate_blocked_short_circuits (request : ModerationRequest) (n : nat) :
  blocked (content request) = true ->
  moderate_content settings claude_client request n
  = ({| passed := false;
        flags := check_keyword_filters (content request);
        score := Fin 1 |}, n).
Proof. apply moderate_content_blocked. Qed.

(** C2.  For content that matches no blocked pattern, the response carries
    the final score max(classifier score, 0.5 if keyword flags are present,
    else the classifier score), and passes exactly when that score is
    strictly below the threshold of the filter level (strict: low,
    relaxed: high, anything else: medium) and no flag is of high
    severity. *)
Theorem moderate_unblocked_decision (request : ModerationRequest) (n : nat) :
  blocked (content request) = false ->
  let keyword_flags := check_keyword_filters (content request) in
  let verdict := check_ai_moderation claude_client (content request) n in
  let all_flags := keyword_flags ++ fst (fst verdict) in
  let final_score := spec_final_score keyword_flags (snd (fst verdict)) in
  let threshold := spec_threshold settings (filter_level request) in
  moderate_content settings claude_client request n
  = ({| passed := spec_passed final_score threshold all_flags;
        flags := all_flags;
        score := final_score |}, snd verdict).
Proof. apply moderate_content_unblocked. Qed.

(** C5.  When the classifier is unconfigured, raises, or answers with text
    that is not JSON, the classifier step yields no flags and score 0.0;
    the response is then decided by the keyword filter alone: blocked
    content is rejected with score 1.0, other content gets score 0.0 and
    passes whenever the threshold is positive. *)
Theorem classifier_failure_fails_open (request : ModerationRequest) (n : nat) :
  classifier_fails claude_client (content request) n ->
  fst (check_ai_moderation claude_client (content request) n) = ([], Fin 0)
  /\ fst (moderate_content settings claude_client request n)
     = {| passed := negb (blocked (content request))
                    && flt (Fin 0) (spec_threshold settings (filter_level request));
          flags := check_keyword_filters (content request);
          score := if blocked (content request) then Fin 1 else Fin 0 |}.
Proof.
  intros Hfail. pose proof (classifier_fails_verdict _ _ Hfail) as Hv.
  split; [exact Hv|].
  destruct (blocked (content request)) eqn:Hb.
  - rewrite (moderate_content_blocked _ _ Hb). reflexivity.
  - rewrite (moderate_content_unblocked _ n Hb). simpl.
    rewrite Hv, (unblocked_no_keyword_flags _ Hb). simpl.
    unfold spec_final_score, spec_passed. rewrite pymax_same. simpl.
    rewrite andb_true_r. reflexivity.
Qed.

(** The batch loop, item by item. *)

Lemma verdict_shift (c0 c : string) (n i : nat) :
  fst (check_ai_moderation claude_client c
         (snd (check_ai_moderation claude_client c0 n) + i))
  = fst (check_ai_moderation claude_client c (n + Datatypes.S i)).
Proof.
  unfold check_ai_moderation. destruct claude_client as [create|]; simpl.
  - rewrite Nat.add_succ_r. reflexivity.
  - reflexivity.
Qed.

Lemma batch_loop_cons (content : string) (rest : list string) (n : nat) :
  fst (batch_loop settings claude_client (content :: rest) n)
  = (let verdict := fst (check_ai_moderation claude_client content n) in
     let all_flags := check_keyword_filters content ++ fst verdict in
     {| passed := flt (snd verdict) (severity_threshold_medium settings)
                  && negb (existsb is_high all_flags);
        flags := all_flags;
        score := snd verdict |})
    :: fst (batch_loop settings claude_client rest
              (snd (check_ai_moderation claude_client content n))).
Proof.
  simpl.
  destruct (check_ai_moderation claude_client content n) as [[ai_flags ai_score] n'].
  simpl. destruct (batch_loop settings claude_client rest n') as [results n''].
  reflexivity.
Qed.

Lemma batch_loop_length (contents : list string) (n : nat) :
  length (fst (batch_loop settings claude_client contents n)) = length contents.
Proof.
  revert n. induction contents as [|c rest IH]; intros n; [reflexivity|].
  rewrite batch_loop_cons. simpl. rewrite IH. reflexivity.
Qed.

Lemma batch_loop_lookup (contents : list string) (n i : nat) (content : string) :
  contents !! i = Some content ->
  exists r,
    fst (batch_loop settings claude_client contents n) !! i = Some r
    /\ score r = snd (fst (check_ai_moderation claude_client content (n + i)))
    /\ flags r = check_keyword_filters content
                 ++ fst (fst (check_ai_moderation claude_client content (n + i)))
    /\ passed r = flt (score r) (severity_threshold_medium settings)
                  && negb (existsb is_high (flags r)).
Proof.
  revert n i. induction contents as [|c rest IH]; intros n i Hi; [discriminate|].
  rewrite batch_loop_cons. destruct i as [|i]; simpl in *.
  - injection Hi as ->. rewrite Nat.add_0_r. eexists. split; [reflexivity|].
    simpl. auto.
  - destruct (IH (snd (check_ai_moderation claude_client c n)) _ Hi)
      as (r & Hr & Hs & Hf & Hp).
    rewrite verdict_shift in Hs, Hf. eauto.
Qed.

Lemma high_flags_fail (r : ModerationResponse) (content : string)
  (ai_flags : list ModerationFlag) (threshold : float) :
  flags r = check_keyword_filters content ++ ai_flags ->
  passed r = flt (score r) threshold && negb (existsb is_high (flags r)) ->
  blocked content = true -> passed r = false.
Proof.
  intros Hf Hp Hb. rewrite Hp, Hf, existsb_app, keyword_flags_high, Hb.
  simpl. apply andb_false_r.
Qed.

Lemma moderate_batch_items (contents : list string) (n : nat) :
  let results := fst (moderate_batch settings claude_client contents n) in
  length results = Nat.min (length contents) 10
  /\ forall (i : nat) (content : string),
       contents !! i = Some content -> (i < 10)%nat ->
       exists r,
         results !! i = Some r
         /\ score r = snd (fst (check_ai_moderation claude_client content (n + i)))
         /\ flags r = check_keyword_filters content
                      ++ fst (fst (check_ai_moderation claude_client content (n + i)))
         /\ passed r = flt (score r) (severity_threshold_medium settings)
                       && negb (existsb is_high (flags r))
         /\ (blocked content = true -> passed r = false).
Proof.
  cbv zeta. unfold moderate_batch. split.
  - rewrite batch_loop_length, length_take. apply Nat.min_comm.
  - intros i content Hi Hlt.
    destruct (batch_loop_lookup (take 10 contents) n i content)
      as (r & Hr & Hs & Hf & Hp).
    { rewrite lookup_take_lt by exact Hlt. exact Hi. }
    exists r. repeat (split; [assumption|]). apply (high_flags_fail _ _ _ _ Hf Hp).
Qed.

End ModerationFacts.

Section ModerationExamples.

Import Re Moderation ModerationSpec.

(** The reference matcher on the texts of the examples. *)
Example bomb_with_article_unmatched :
  blocked "hello world" = false /\ blocked "how to make a bomb" = false.
Proof. split; vm_compute; reflexivity. Qed.

Example bomb_without_article_matched : blocked "how to make bomb" = true.
Proof. vm_compute. reflexivity. Qed.

(** No blocked pattern matches anywhere in the text with the article. *)
Example bomb_with_article_not_found :
  Forall (fun pattern => ~ found pattern (Re.lower "how to make a bomb")) BLOCKED_PATTERNS.
Proof.
  repeat constructor; intros H; apply search_found in H; vm_compute in H; discriminate.
Qed.

(** C4 (amended).  [moderate_batch] returns one result for each of the
    first ten items, in order; the result of item [i] carries the raw score
    and the flags of its own classifier call together with its own keyword
    flags, passes exactly when that score is below the medium threshold and
    no flag is of high severity, and so fails whenever the item matches a
    blocked pattern, whatever the classifier.  For instance
    moderate_batch(["hello world", "how to make bomb"]) returns two results
    and the second has failed. *)
Theorem moderate_batch_independent_items :
  (forall (rt : Runtime) (settings : Settings) (claude_client : option client)
          (contents : list string) (n : nat),
     let results := fst (moderate_batch settings claude_client contents n) in
     length results = Nat.min (length contents) 10
     /\ forall (i : nat) (content : string),
          contents !! i = Some content -> (i < 10)%nat ->
          exists r,
            results !! i = Some r
            /\ score r = snd (fst (check_ai_moderation claude_client content (n + i)))
            /\ flags r = check_keyword_filters content
                         ++ fst (fst (check_ai_moderation claude_client content (n + i)))
            /\ passed r = flt (score r) (severity_threshold_medium settings)
                          && negb (existsb is_high (flags r))
            /\ (blocked content = true -> passed r = false))
  /\ (forall (settings : Settings) (claude_client : option client) (n : nat),
        exists r1 r2,
          fst (moderate_batch settings claude_client
                 ["hello world"; "how to make bomb"] n) = [r1; r2]
          /\ passed r2 = false).
Proof.
  split.
  - intros rt settings claude_client contents n. apply moderate_batch_items.
  - intros settings claude_client n.
    destruct (moderate_batch_items settings claude_client
                ["hello world"; "how to make bomb"] n) as [Hlen Hitems].
    destruct (Hitems 1%nat "how to make bomb" eq_refl) as (r2 & Hr2 & _ & _ & _ & Hfail);
      [lia|].
    destruct (fst (moderate_batch settings claude_client
                     ["hello world"; "how to make bomb"] n)) as [|r1 [|r2' [|r3 rest]]];
      try discriminate.
    injection Hr2 as ->. exists r1, r2. split; [reflexivity|].
    apply Hfail. exact bomb_without_article_matched.
Qed.

Lemma moderate_batch_independent_items_witness :
  exists r,
    fst (moderate_batch default_settings (Some lenient_client)
           ["hello world"; "how to make bomb"] 0) !! 1%nat = Some r
    /\ score r = Fin (2 # 10)
    /\ passed r = false.
Proof.
  destruct (proj1 moderate_batch_independent_items reference_runtime default_settings
              (Some lenient_client) ["hello world"; "how to make bomb"] 0%nat)
    as [_ Hitems].
  destruct (Hitems 1%nat "how to make bomb" eq_refl ltac:(lia))
    as (r & Hr & Hs & _ & _ & Hfail).
  exists r. split; [exact Hr|]. split; [exact Hs|].
  apply Hfail. vm_compute. reflexivity.
Defined.

(** C4 as stated fails on its own example: no pattern matches
    "how to make a bomb", and with the classifier unconfigured the second
    result passes. *)
Lemma moderate_batch_example_passes :
  fst (moderate_batch default_settings None ["hello world"; "how to make a bomb"] 0)
  = [ {| passed := true; flags := []; score := Fin 0 |};
      {| passed := true; flags := []; score := Fin 0 |} ].
Proof. vm_compute. reflexivity. Qed.

(** C3 as stated fails: a classifier answer with score 5 is returned as the
    score of the response. *)
Lemma moderate_score_can_leave_unit :
  let response :=
    fst (moderate_content default_settings (Some overshooting_client)
           {| content := "hello"; filter_level := "moderate" |} 0) in
  response = {| passed := false; flags := []; score := Fin 5 |}
  /\ ~ in_unit (score response).
Proof.
  split.
  - vm_compute. reflexivity.
  - vm_compute. intros [_ H]. apply H. reflexivity.
Qed.

Lemma moderate_blocked_short_circuits_witness :
  moderate_content default_settings (Some overshooting_client)
    {| content := "I want to KILL myself"; filter_level := "relaxed" |} 0
  = ({| passed := false; flags := [keyword_flag]; score := Fin 1 |}, 0%nat).
Proof.
  exact (moderate_blocked_short_circuits default_settings (Some overshooting_client)
           {| content := "I want to KILL myself"; filter_level := "relaxed" |} 0
           eq_refl).
Defined.

Lemma moderate_unblocked_decision_witness :
  moderate_content default_settings (Some lenient_client)
    {| content := "hello world"; filter_level := "strict" |} 0
  = ({| passed := true; flags := []; score := Fin (2 # 10) |}, 1%nat).
Proof.
  exact (moderate_unblocked_decision default_settings (Some lenient_client)
           {| content := "hello world"; filter_level := "strict" |} 0 eq_refl).
Defined.

Lemma classifier_failure_fails_open_witness :
  fst (moderate_content default_settings (Some failing_client)
         {| content := "hello world"; filter_level := "moderate" |} 0)
  = {| passed := true; flags := []; score := Fin 0 |}
  /\ fst (moderate_content default_settings None
            {| content := "how to build weapon"; filter_level := "moderate" |} 0)
     = {| passed := false; flags := [keyword_flag]; score := Fin 1 |}.
Proof.
  split.
  - exact (proj2 (classifier_failure_fails_open default_settings (Some failing_client)
                    {| content := "hello world"; filter_level := "moderate" |} 0 I)).
  - exact (proj2 (classifier_failure_fails_open default_settings None
                    {| content := "how to build weapon"; filter_level := "moderate" |}
                    0 I)).
Defined.

End ModerationExamples.

(* ===================================================================== *)
(** ** Memory service: properties *)
(* ===================================================================== *)

Section CosineFacts.

Import Memory MemorySpec.

Lemma nonzero_true (x : R) : nonzero x = true <-> x <> 0%R.
Proof. unfold nonzero. destruct (Req_dec_T x 0); split; congruence. Qed.

Lemma nonzero_false (x : R) : nonzero x = false <-> x = 0%R.
Proof. unfold nonzero. destruct (Req_dec_T x 0); split; congruence. Qed.

Lemma cosine_zero_norm (a b : list R) :
  norm a = 0%R \/ norm b = 0%R -> cosine_similarity a b = ok 0%R.
Proof.
  intros Hn. unfold cosine_similarity.
  destruct Hn as [Hn|Hn]; apply nonzero_false in Hn; rewrite Hn;
    [|rewrite andb_false_r]; reflexivity.
Qed.

Lemma cosine_quotient (a b : list R) :
  norm a <> 0%R -> norm b <> 0%R ->
  cosine_similarity a b = ok (dot a b / (norm a * norm b))%R.
Proof.
  intros Ha Hb. unfold cosine_similarity.
  rewrite (proj2 (nonzero_true _) Ha), (proj2 (nonzero_true _) Hb). simpl.
  unfold div. destruct (Req_dec_T (norm a * norm b) 0) as [H0|_]; [|reflexivity].
  apply Rmult_integral in H0. tauto.
Qed.

End CosineFacts.

Section ClearFacts.

Import Memory MemorySpec.

Variable openai_client : option embedder.

(** Record keys and index keys never coincide. *)
Lemma key_spaces_disjoint (memory_id conversation_id : string) :
  memory_key memory_id <> index_key_of conversation_id.
Proof. unfold memory_key, index_key_of. intros H. simplify_eq. Qed.

Lemma del_run (key : string) (w : world) :
  exists count,
    redis (Redis.del key) w = (ok count, {| db := delete key (db w); calls := calls w |}).
Proof.
  unfold redis, Redis.del. destruct (db w !! key) eqn:Hk.
  - eexists. reflexivity.
  - exists 0%nat. rewrite delete_id by exact Hk. reflexivity.
Qed.

Lemma delete_loop_run (memory_ids : list string) (w : world) :
  for_each memory_ids
    (fun mid => (let* _ := redis (Redis.del (memory_key mid)) in ret tt)%st) w
  = (ok tt, {| db := delete_all (map memory_key memory_ids) (db w); calls := calls w |}).
Proof.
  revert w. induction memory_ids as [|mid rest IH]; intros w.
  - destruct w. reflexivity.
  - destruct (del_run (memory_key mid) w) as [count Hdel].
    cbn [for_each]. erewrite mbind_ok.
    2:{ erewrite mbind_ok; [reflexivity|exact Hdel]. }
    rewrite IH. reflexivity.
Qed.

Lemma delete_all_lookup (keys : list string) (d : gmap string (Redis.entry memory))
  (key : string) :
  delete_all keys d !! key = if decide (key ∈ keys) then None else d !! key.
Proof.
  revert d. induction keys as [|k keys IH]; intros d; simpl.
  - reflexivity.
  - rewrite IH. destruct (decide (key ∈ keys)) as [Hin|Hnin].
    + rewrite decide_True by (right; exact Hin). reflexivity.
    + destruct (decide (key = k)) as [->|Hne].
      * rewrite decide_True by left. apply lookup_delete_eq.
      * rewrite decide_False by (intros Hin; apply elem_of_cons in Hin; tauto).
        apply lookup_delete_ne. congruence.
Qed.

Lemma smembers_index_set (key : string) (d : gmap string (Redis.entry memory)) :
  Redis.smembers key d
  = (match index_set d key with
     | Some members => ok members
     | None => raise ResponseError
     end, d).
Proof.
  unfold Redis.smembers, index_set.
  destruct (d !! key) as [[[data|members] t]|]; reflexivity.
Qed.

Lemma index_members_index_set (conversation_id : string) (w : world) :
  index_members conversation_id w
  = match index_set (db w) (index_key_of conversation_id) with
    | Some members => ok members
    | None => raise ResponseError
    end.
Proof. unfold index_members. rewrite smembers_index_set. reflexivity. Qed.

Lemma retrieve_without_index (request : RetrieveMemoryRequest) (w : world) :
  db w !! index_key_of (r_conversation_id request) = None ->
  retrieve_memories true openai_client request w = (ok [], w).
Proof.
  intros Habs. unfold retrieve_memories. cbn [negb].
  apply try_except_ok. erewrite mbind_ok.
  - rewrite decide_True by reflexivity. reflexivity.
  - unfold redis. rewrite smembers_index_set. unfold index_set. rewrite Habs.
    destruct w. reflexivity.
Qed.

Lemma elapse_absent (seconds : Z) (d : gmap string (Redis.entry memory)) (key : string) :
  d !! key = None -> Redis.elapse seconds d !! key = None.
Proof. intros H. unfold Redis.elapse. rewrite lookup_omap, H. reflexivity. Qed.

(** C7.  For a conversation whose index holds the ids [memory_ids],
    [clear_memories] answers with their number, whether or not the records
    still exist; afterwards no indexed record and no index is left, and a
    later [retrieve_memories] for the conversation returns the empty
    list. *)
Theorem clear_memories_count_and_effect (conversation_id : string) (w : world)
  (memory_ids : gset string) :
  index_members conversation_id w = ok memory_ids ->
  exists w',
    clear_memories true conversation_id w = (ok {| cleared := size memory_ids |}, w')
    /\ (forall mid, mid ∈ memory_ids -> db w' !! memory_key mid = None)
    /\ db w' !! index_key_of conversation_id = None
    /\ forall (seconds : Z) (request : RetrieveMemoryRequest),
         r_conversation_id request = conversation_id ->
         fst (retrieve_memories true openai_client request (later seconds w')) = ok [].
Proof.
  intros Hidx. rewrite index_members_index_set in Hidx.
  assert (Hsm : Redis.smembers (index_key_of conversation_id) (db w)
                = (ok memory_ids, db w)).
  { rewrite smembers_index_set.
    destruct (index_set (db w) (index_key_of conversation_id)); [|discriminate].
    injection Hidx as ->. reflexivity. }
  set (d1 := delete_all (map memory_key (elements memory_ids)) (db w)).
  exists {| db := delete (index_key_of conversation_id) d1; calls := calls w |}.
  split; [|split; [|split]].
  - destruct (del_run (index_key_of conversation_id)
                {| db := d1; calls := calls w |}) as [count Hdel].
    unfold clear_memories. cbn [negb]. cbv zeta.
    apply try_except_ok. erewrite mbind_ok.
    2:{ unfold redis. rewrite Hsm. reflexivity. }
    erewrite mbind_ok.
    2:{ apply delete_loop_run. }
    erewrite mbind_ok; [reflexivity|exact Hdel].
  - intros mid Hin. cbn [db].
    rewrite lookup_delete_ne by (intros Heq; symmetry in Heq;
                                 exact (key_spaces_disjoint _ _ Heq)).
    unfold d1. rewrite delete_all_lookup, decide_True; [reflexivity|].
    apply list_elem_of_fmap. exists mid. split; [reflexivity|].
    apply elem_of_elements. exact Hin.
  - cbn [db]. apply lookup_delete_eq.
  - intros seconds request Hconv.
    rewrite retrieve_without_index; [reflexivity|].
    rewrite Hconv. cbn [later db]. apply elapse_absent, lookup_delete_eq.
Qed.

End ClearFacts.

Section StoreFacts.

Import Memory MemorySpec.

Variable settings : Settings.
Variable openai_client : option embedder.
Variable hash : string -> Z.

Local Abbreviation id_of request :=
  (memory_id_of hash (s_conversation_id request) (s_content request)).
Local Abbreviation key_of request := (memory_key (id_of request)).
Local Abbreviation index_of request := (index_key_of (s_conversation_id request)).

Lemma summary_index_set (redis_client : bool) (conversation_id : string) (w : world) :
  fst (get_memory_summary redis_client conversation_id w)
  = if redis_client then
      match index_set (db w) (index_key_of conversation_id) with
      | Some members => ok {| sm_conversation_id := conversation_id;
                              total_memories := size members |}
      | None => raise (HTTPException 500 (JStr "Failed to get memory summary"))
      end
    else raise (HTTPException 503 (JStr "Memory service unavailable")).
Proof.
  unfold get_memory_summary. destruct redis_client; [|reflexivity]. cbn [negb]. cbv zeta.
  destruct (index_set (db w) (index_key_of conversation_id)) as [members|] eqn:Hset.
  - erewrite try_except_ok; [reflexivity|]. erewrite mbind_ok; [reflexivity|].
    unfold redis. rewrite smembers_index_set, Hset. reflexivity.
  - erewrite try_except_raise; [reflexivity|]. erewrite mbind_raise; [reflexivity|].
    unfold redis. rewrite smembers_index_set, Hset. reflexivity.
Qed.

Lemma get_embedding_run (text : string) (w : world) :
  exists embedding c,
    get_embedding openai_client text w = (ok embedding, {| db := db w; calls := c |}).
Proof.
  unfold get_embedding. destruct openai_client as [create|].
  - destruct (create (calls w) text); eexists _, _; reflexivity.
  - exists None, (calls w). destruct w. reflexivity.
Qed.

Lemma store_memory_unconfigured (request : StoreMemoryRequest) (w : world) :
  store_memory settings false openai_client hash request w
  = (raise (HTTPException 503 (JStr "Memory service unavailable")), w).
Proof. reflexivity. Qed.

Lemma store_memory_bad_ttl (request : StoreMemoryRequest) (w : world) :
  (short_term_ttl settings <= 0)%Z ->
  exists c,
    store_memory settings true openai_client hash request w
    = (raise (HTTPException 500 (JStr "Failed to store memory")),
       {| db := db w; calls := c |}).
Proof.
  intros Httl. destruct (get_embedding_run (s_content request) w) as (emb & c & Hemb).
  exists c. unfold store_memory. cbn [negb]. cbv zeta.
  eapply try_except_raise. erewrite mbind_ok by exact Hemb.
  erewrite mbind_raise; [reflexivity|].
  unfold redis, Redis.setex. cbn [db calls].
  rewrite (proj2 (Z.leb_le _ _) Httl). reflexivity.
Qed.

Lemma store_memory_wrong_type (request : StoreMemoryRequest) (w : world) :
  (0 < short_term_ttl settings)%Z ->
  index_set (db w) (index_of request) = None ->
  exists embedding c,
    store_memory settings true openai_client hash request w
    = (raise (HTTPException 500 (JStr "Failed to store memory")),
       {| db := <[key_of request := record_entry settings hash request embedding]> (db w);
          calls := c |}).
Proof.
  intros Httl Hset.
  destruct (get_embedding_run (s_content request) w) as (emb & c & Hemb).
  exists emb, c. unfold store_memory. cbn [negb]. cbv zeta.
  eapply try_except_raise. erewrite mbind_ok by exact Hemb.
  erewrite mbind_ok.
  2:{ unfold redis, Redis.setex. cbn [db calls].
      rewrite (proj2 (Z.leb_gt _ _) Httl). reflexivity. }
  erewrite mbind_raise; [reflexivity|].
  unfold redis, Redis.sadd. cbn [db calls].
  rewrite lookup_insert_ne by apply key_spaces_disjoint.
  unfold index_set in Hset.
  destruct (db w !! index_of request) as [[[data|members] t]|]; try discriminate.
  reflexivity.
Qed.

Lemma expire_fresh_index (request : StoreMemoryRequest)
  (d : gmap string (Redis.entry memory)) (e : Redis.entry memory) :
  (0 < short_term_ttl settings)%Z ->
  Redis.expire (index_of request) (short_term_ttl settings * 24)
    (<[index_of request := e]> d)
  = (ok tt, <[index_of request :=
                {| Redis.val := Redis.val e;
                   Redis.ttl := Some (short_term_ttl settings * 24)%Z |}]> d).
Proof.
  intros Httl. unfold Redis.expire. rewrite lookup_insert_eq.
  rewrite (proj2 (Z.leb_gt _ _)) by lia. rewrite insert_insert_eq. reflexivity.
Qed.

Lemma store_memory_success (request : StoreMemoryRequest) (w : world)
  (members : gset string) :
  (0 < short_term_ttl settings)%Z ->
  index_set (db w) (index_of request) = Some members ->
  exists embedding c,
    store_memory settings true openai_client hash request w
    = (ok {| sr_id := id_of request; sr_stored := true |},
       {| db := <[index_of request := index_entry settings (members ∪ {[id_of request]})]>
                  (<[key_of request := record_entry settings hash request embedding]>
                     (db w));
          calls := c |}).
Proof.
  intros Httl Hset.
  destruct (get_embedding_run (s_content request) w) as (emb & c & Hemb).
  exists emb, c. unfold store_memory. cbn [negb]. cbv zeta.
  eapply try_except_ok. erewrite mbind_ok by exact Hemb.
  erewrite mbind_ok.
  2:{ unfold redis, Redis.setex. cbn [db calls].
      rewrite (proj2 (Z.leb_gt _ _) Httl). reflexivity. }
  unfold index_set in Hset.
  destruct (db w !! index_of request) as [[[data|members'] t]|] eqn:Hidx;
    try discriminate; injection Hset as <-.
  - erewrite mbind_ok.
    2:{ unfold redis, Redis.sadd. cbn [db calls].
        rewrite lookup_insert_ne by apply key_spaces_disjoint.
        rewrite Hidx. reflexivity. }
    erewrite mbind_ok.
    2:{ unfold redis. cbn [db calls]. rewrite (expire_fresh_index _ _ _ Httl).
        reflexivity. }
    reflexivity.
  - erewrite mbind_ok.
    2:{ unfold redis, Redis.sadd. cbn [db calls].
        rewrite lookup_insert_ne by apply key_spaces_disjoint.
        rewrite Hidx. reflexivity. }
    erewrite mbind_ok.
    2:{ unfold redis. cbn [db calls]. rewrite (expire_fresh_index _ _ _ Httl).
        reflexivity. }
    unfold ret, index_entry. cbn [Redis.val]. rewrite (left_id_L ∅ (∪)). reflexivity.
Qed.

Lemma index_set_inserted (d : gmap string (Redis.entry memory)) (key : string)
  (members : gset string) :
  index_set (<[key := index_entry settings members]> d) key = Some members.
Proof. unfold index_set. rewrite lookup_insert_eq. reflexivity. Qed.

Lemma index_set_record_written (d : gmap string (Redis.entry memory))
  (memory_id conversation_id : string) (e : Redis.entry memory) :
  index_set (<[memory_key memory_id := e]> d) (index_key_of conversation_id)
  = index_set d (index_key_of conversation_id).
Proof.
  unfold index_set. rewrite lookup_insert_ne by apply key_spaces_disjoint. reflexivity.
Qed.

Lemma add_member_twice (members : gset string) (x : string) :
  members ∪ {[x]} ∪ {[x]} = members ∪ {[x]}.
Proof. rewrite <- (assoc_L (∪)), (idemp_L (∪)). reflexivity. Qed.

(** C10.  Storing the same content for the same conversation a second time
    gives the same answer with the same id (conversation id, a colon, the
    content hash), writes the same record key, and leaves the members of
    the conversation's index, and the count [get_memory_summary] reports,
    as the first call left them. *)
Theorem store_memory_twice_same_index (redis_client : bool)
  (request : StoreMemoryRequest) (w : world) :
  let conversation_id := s_conversation_id request in
  let first := store_memory settings redis_client openai_client hash request w in
  let second := store_memory settings redis_client openai_client hash request (snd first) in
  fst second = fst first
  /\ index_members conversation_id (snd second) = index_members conversation_id (snd first)
  /\ fst (get_memory_summary redis_client conversation_id (snd second))
     = fst (get_memory_summary redis_client conversation_id (snd first))
  /\ forall response, fst first = ok response ->
       sr_id response = conversation_id +:+ ":" +:+ pretty (hash (s_content request))
       /\ (exists members, index_members conversation_id (snd first) = ok members
                           /\ sr_id response ∈ members)
       /\ is_Some (db (snd first) !! memory_key (sr_id response))
       /\ dom (db (snd second)) = dom (db (snd first)).
Proof.
  cbv zeta. rewrite !summary_index_set, !index_members_index_set.
  destruct redis_client.
  2:{ rewrite !store_memory_unconfigured. cbn [fst snd].
      do 3 (split; [reflexivity|]). intros response H. discriminate. }
  destruct (Z_lt_le_dec 0 (short_term_ttl settings)) as [Httl|Httl].
  2:{ destruct (store_memory_bad_ttl request w Httl) as (c & ->). cbn [fst snd].
      destruct (store_memory_bad_ttl request {| db := db w; calls := c |} Httl)
        as (c' & ->). cbn [fst snd db].
      do 3 (split; [reflexivity|]). intros response H. discriminate. }
  destruct (index_set (db w) (index_of request)) as [members|] eqn:Hset.
  - destruct (store_memory_success request w members Httl Hset) as (emb & c & ->).
    cbn [fst snd]. set (w1 := {| db := _; calls := c |}).
    assert (Hset1 : index_set (db w1) (index_of request)
                    = Some (members ∪ {[id_of request]})).
    { apply index_set_inserted. }
    destruct (store_memory_success request w1 _ Httl Hset1) as (emb' & c' & ->).
    cbn [fst snd db].
    rewrite index_set_inserted, Hset1, add_member_twice.
    do 3 (split; [reflexivity|]).
    intros response H. injection H as <-. cbn [sr_id].
    split; [reflexivity|]. split; [|split].
    + eexists. split; [reflexivity|].
      apply elem_of_union_r, elem_of_singleton. reflexivity.
    + unfold w1. cbn [db].
      rewrite lookup_insert_ne by (intros Heq; symmetry in Heq;
                                   exact (key_spaces_disjoint _ _ Heq)).
      rewrite lookup_insert_eq. eauto.
    + unfold w1. cbn [db]. rewrite !dom_insert_L.
      apply set_eq. intros x. rewrite !elem_of_union. tauto.
  - destruct (store_memory_wrong_type request w Httl Hset) as (emb & c & ->).
    cbn [fst snd]. set (w1 := {| db := _; calls := c |}).
    assert (Hset1 : index_set (db w1) (index_of request) = None).
    { unfold w1. cbn [db]. rewrite index_set_record_written. exact Hset. }
    destruct (store_memory_wrong_type request w1 Httl Hset1) as (emb' & c' & ->).
    cbn [fst snd db]. rewrite index_set_record_written, Hset1.
    do 3 (split; [reflexivity|]). intros response H. discriminate.
Qed.

End StoreFacts.

Section StoreExamples.

Import Memory MemorySpec.

Lemma clear_memories_count_and_effect_witness :
  exists w',
    clear_memories true "c1" sample_world = (ok {| cleared := 2 |}, w')
    /\ db w' !! "memory:c1:7" = None
    /\ fst (retrieve_memories true None
              {| r_conversation_id := "c1"; r_query := "tea"; r_limit := 5 |}
              (later 60 w')) = ok [].
Proof.
  destruct (clear_memories_count_and_effect None "c1" sample_world sample_ids eq_refl)
    as (w' & Hrun & Hrecords & _ & Hretrieve).
  exists w'. split; [exact Hrun|]. split.
  - apply (Hrecords "c1:7"). apply elem_of_union_r, elem_of_singleton. reflexivity.
  - apply Hretrieve. reflexivity.
Defined.

Lemma store_memory_twice_same_index_witness :
  let first :=
    store_memory default_settings true None sample_hash sample_request empty_world in
  let second :=
    store_memory default_settings true None sample_hash sample_request (snd first) in
  fst first = ok {| sr_id := "c1:42"; sr_stored := true |}
  /\ fst second = fst first
  /\ fst (get_memory_summary true "c1" (snd second))
     = ok {| sm_conversation_id := "c1"; total_memories := 1 |}.
Proof.
  cbv zeta. split; [reflexivity|].
  destruct (store_memory_twice_same_index default_settings None sample_hash true
              sample_request empty_world) as (Hsame & _ & Hsummary & _).
  split; [exact Hsame|]. exact (eq_trans Hsummary eq_refl).
Defined.

End StoreExamples.

(* ===================================================================== *)
(** ** Chat orchestration: properties *)
(* ===================================================================== *)

Section ChatFacts.

Import Chat ChatSpec.

Variable settings : Settings.
Variable env : environment.
Variable str_of : json -> string.

Lemma append_cons (c : ascii) (s t : string) : String c s +:+ t = String c (s +:+ t).
Proof. reflexivity. Qed.

Lemma append_nil_r (s : string) : s +:+ "" = s.
Proof.
  induction s as [|c s IH]; [reflexivity|]. rewrite append_cons, IH. reflexivity.
Qed.

Lemma append_assoc (s t u : string) : (s +:+ t) +:+ u = s +:+ (t +:+ u).
Proof.
  induction s as [|c s IH]; [reflexivity|]. rewrite !append_cons, IH. reflexivity.
Qed.

Lemma stream_loop_events (texts : list string) (ending : stream_end) (acc : string) :
  stream_loop settings texts ending acc
  = map spec_chunk texts
    ++ match ending with
       | Completes => [spec_done settings (acc +:+ join texts)]
       | StreamRaises => [spec_error]
       | ExitRaises => [spec_done settings (acc +:+ join texts); spec_error]
       end.
Proof.
  revert acc. induction texts as [|text rest IH]; intros acc; simpl.
  - rewrite append_nil_r. destruct ending; reflexivity.
  - rewrite IH, append_assoc. reflexivity.
Qed.

Lemma generate_run (system_prompt : json) (claude_messages : list message_param)
  (tr : list call) :
  let c := MessagesStream (claude_model settings) system_prompt claude_messages in
  generate settings env system_prompt claude_messages tr
  = (ok (expected_events settings (messages_stream env tr c)), tr ++ [c]).
Proof.
  cbv zeta. unfold generate, expected_events.
  destruct (messages_stream env tr _) as [|texts ending]; [reflexivity|].
  rewrite stream_loop_events. destruct ending; reflexivity.
Qed.

Lemma count_chunks (name : string) (texts : list string) (rest : list sse) :
  name <> "chunk" ->
  count_events name (map spec_chunk texts ++ rest) = count_events name rest.
Proof.
  intros Hname. induction texts as [|t texts IH]; [reflexivity|].
  cbn [map app count_events]. change (event (spec_chunk t)) with "chunk".
  destruct (String.eqb_spec "chunk" name) as [Heq|_]; [congruence|]. exact IH.
Qed.

Lemma expected_events_terminal (outcome : stream_result) :
  let events := expected_events settings outcome in
  exists texts terminal,
    events = map spec_chunk texts ++ terminal
    /\ match outcome with
       | Opened stream Completes =>
           texts = stream /\ terminal = [spec_done settings (join stream)]
       | Opened stream StreamRaises => texts = stream /\ terminal = [spec_error]
       | Opened stream ExitRaises =>
           texts = stream /\ terminal = [spec_done settings (join stream); spec_error]
       | OpenRaises => texts = [] /\ terminal = [spec_error]
       end
    /\ count_events "done" events = count_events "done" terminal
    /\ count_events "error" events = count_events "error" terminal.
Proof.
  cbv zeta. destruct outcome as [|stream [| |]]; cbn [expected_events].
  - exists [], [spec_error]. auto.
  - eexists _, _. split; [reflexivity|]. split; [split; reflexivity|].
    rewrite !count_chunks by discriminate. auto.
  - eexists _, _. split; [reflexivity|]. split; [split; reflexivity|].
    rewrite !count_chunks by discriminate. auto.
  - eexists _, _. split; [reflexivity|]. split; [split; reflexivity|].
    rewrite !count_chunks by discriminate. auto.
Qed.

Lemma chat_stream_reaches_generate (request : ChatRequest) (tr tr' : list call)
  (events : list sse) :
  chat_stream settings true env str_of request tr = (ok events, tr') ->
  exists system_prompt claude_messages tr0,
    generate settings env system_prompt claude_messages tr0 = (ok events, tr').
Proof.
  unfold chat_stream. cbn [negb]. intros H.
  apply mbind_inv_ok in H as (moderation & tr1 & _ & H).
  apply mbind_inv_ok in H as (passed & tr1' & _ & H).
  destruct (negb (truthy passed)); [discriminate|].
  apply mbind_inv_ok in H as (context & tr2 & _ & H). cbv zeta in H.
  apply mbind_inv_ok in H as (memories & tr3 & _ & H).
  apply mbind_inv_ok in H as (system_prompt & tr3' & _ & H).
  apply mbind_inv_ok in H as (claude_messages & tr3'' & _ & H).
  eauto.
Qed.

(** C9 (amended).  The generator of [chat_stream] produces, for what the
    provider's stream does: the chunks, each carrying its text, and then
    one done event carrying their concatenation when the stream is read to
    its end and closed; the chunks received so far and then one error
    event, with no done event, when opening the stream or reading from it
    raises; and the chunks, the done event and then one error event when
    the stream is read to its end but closing it raises.  So there is at
    most one done event and at most one error event, at least one of the
    two, nothing but chunks before them, and both occur exactly in the
    last case.  Whenever [chat_stream] answers with an event stream, it is
    this sequence. *)
Theorem chat_stream_event_sequence :
  (forall system_prompt claude_messages tr,
     generate settings env system_prompt claude_messages tr
     = (ok (expected_events settings
              (messages_stream env tr
                 (MessagesStream (claude_model settings) system_prompt claude_messages))),
        tr ++ [MessagesStream (claude_model settings) system_prompt claude_messages]))
  /\ (forall request tr tr' events,
        chat_stream settings true env str_of request tr = (ok events, tr') ->
        exists tr0 c,
          tr' = tr0 ++ [c]
          /\ events = expected_events settings (messages_stream env tr0 c))
  /\ (forall outcome,
        let events := expected_events settings outcome in
        (exists texts terminal,
            events
            = map (fun text => {| event := "chunk";
                                  data := JObj [("content", JStr text)] |}) texts
              ++ terminal
            /\ match outcome with
               | Opened stream Completes =>
                   texts = stream /\ terminal = [spec_done settings (join stream)]
               | Opened stream StreamRaises =>
                   texts = stream /\ terminal = [spec_error]
               | Opened stream ExitRaises =>
                   texts = stream
                   /\ terminal = [spec_done settings (join stream); spec_error]
               | OpenRaises => texts = [] /\ terminal = [spec_error]
               end)
        /\ (count_events "done" events <= 1)%nat
        /\ (count_events "error" events <= 1)%nat
        /\ (1 <= count_events "done" events + count_events "error" events)%nat
        /\ (count_events "done" events + count_events "error" events = 2%nat
            <-> exists stream, outcome = Opened stream ExitRaises)).
Proof.
  split; [|split].
  - intros system_prompt claude_messages tr. apply generate_run.
  - intros request tr tr' events H.
    apply chat_stream_reaches_generate in H as (system_prompt & msgs & tr0 & H).
    rewrite generate_run in H. injection H as <- <-. eauto.
  - intros outcome events.
    destruct (expected_events_terminal outcome)
      as (texts & terminal & Hevents & Hcase & Hdone & Herror).
    fold events in Hevents, Hdone, Herror. rewrite Hdone, Herror.
    split; [exists texts, terminal; split; [exact Hevents|exact Hcase]|].
    destruct outcome as [|stream [| |]]; destruct Hcase as [_ ->]; cbn;
      (do 3 (split; [lia|])); split; try (intros H; discriminate H); eauto;
      intros (stream' & H); discriminate H.
Qed.

Lemma http_call_trace (c : call) (tr : list call) :
  snd (http_call env c tr) = tr ++ [c].
Proof. unfold http_call. destruct (http env tr c); reflexivity. Qed.

Lemma check_moderation_trace (content : string) (tr : list call) :
  snd (check_moderation env content tr) = tr ++ [PostModerate content].
Proof.
  unfold check_moderation, mbind, try_catch.
  pose proof (http_call_trace (PostModerate content) tr) as Hc.
  destruct (http_call env (PostModerate content) tr) as [[e|[status body]] tr1];
    simpl in Hc; subst tr1.
  - destruct e; reflexivity.
  - cbn [fst snd]. destruct (status =? 200)%Z; [|reflexivity].
    unfold lift. destruct (json_loads body) as [e|v]; [destruct e; reflexivity|].
    destruct (get v "data" _) as [e|d]; [destruct e; reflexivity|]. reflexivity.
Qed.

(** C8.  With the LLM client configured: when the moderation check of the
    user message fails, [chat] raises HTTP 400 with code CONTENT_BLOCKED
    after that one call, so before any call to the LLM; when that check
    passes, the context is fetched, the LLM call succeeds and the
    moderation check of the generated text fails, [chat] succeeds with the
    fixed refusal text as content and the usage metadata of the call. *)
Theorem chat_moderation_outcomes (request : ChatRequest) (tr : list call) :
  (forall moderation tr1,
     check_moderation env (message request) tr = (ok moderation, tr1) ->
     verdict_fails moderation ->
     exists detail,
       chat settings true env str_of request tr = (raise (HTTPException 400 detail), tr1)
       /\ get detail "code" JNull = ok (JStr "CONTENT_BLOCKED")
       /\ tr1 = tr ++ [PostModerate (message request)])
  /\ (forall moderation tr1 context tr2 memories tr3 system_prompt claude_messages
             response content response_moderation tr4,
        check_moderation env (message request) tr = (ok moderation, tr1) ->
        verdict_passes moderation ->
        get_conversation_context env (conversation_id request) tr1 = (ok context, tr2) ->
        get_memory_context env (conversation_id request) (message request) tr2
        = (ok memories, tr3) ->
        get (character context) "systemPrompt" (JStr "You are a helpful AI assistant.")
        = ok system_prompt ->
        build_messages str_of (character context) (messages context) (message request)
          memories = ok claude_messages ->
        messages_create env tr3
          (MessagesCreate (claude_model settings) system_prompt claude_messages)
        = Created response ->
        first_text (blocks response) = ok content ->
        check_moderation env content
          (tr3 ++ [MessagesCreate (claude_model settings) system_prompt claude_messages])
        = (ok response_moderation, tr4) ->
        verdict_fails response_moderation ->
        chat settings true env str_of request tr
        = (ok {| r_content := "I apologize, but I cannot provide that response.";
                 r_metadata := {| md_model := model response;
                                  prompt_tokens := input_tokens response;
                                  completion_tokens := output_tokens response |} |},
           tr4)).
Proof.
  split.
  - intros moderation tr1 Hmod (passed & Hget & Hfalse).
    destruct moderation as [| | | | | |fields]; try discriminate.
    exists (JObj [("code", JStr "CONTENT_BLOCKED");
                  ("message", JStr "Message blocked by content moderation");
                  ("flags", dict_get fields "flags" (JArr []))]).
    split; [|split; [reflexivity|]].
    + unfold chat. cbn [negb].
      rewrite (mbind_ok _ _ _ _ _ Hmod).
      erewrite mbind_ok by (rewrite lift_run, Hget; reflexivity).
      rewrite Hfalse. cbn [negb].
      erewrite mbind_ok by (rewrite lift_run; reflexivity). reflexivity.
    + pose proof (check_moderation_trace (message request) tr) as Htr.
      rewrite Hmod in Htr. exact Htr.
  - intros moderation tr1 context tr2 memories tr3 system_prompt claude_messages
           response content response_moderation tr4
           Hmod (passed & Hget & Htrue) Hctx Hmem Hsys Hbuild Hcreate Htext
           Hmod2 (passed2 & Hget2 & Hfalse2).
    unfold chat. cbn [negb].
    rewrite (mbind_ok _ _ _ _ _ Hmod).
    erewrite mbind_ok by (rewrite lift_run, Hget; reflexivity).
    rewrite Htrue. cbn [negb].
    rewrite (mbind_ok _ _ _ _ _ Hctx). cbv zeta.
    rewrite (mbind_ok _ _ _ _ _ Hmem).
    erewrite mbind_ok by (rewrite lift_run, Hsys; reflexivity).
    erewrite mbind_ok by (rewrite lift_run, Hbuild; reflexivity).
    apply try_except_ok.
    erewrite mbind_ok by (unfold create_call; rewrite Hcreate; reflexivity).
    erewrite mbind_ok by (rewrite lift_run, Htext; reflexivity).
    rewrite (mbind_ok _ _ _ _ _ Hmod2).
    erewrite mbind_ok by (rewrite lift_run, Hget2; reflexivity).
    rewrite Hfalse2. reflexivity.
Qed.

End ChatFacts.

Section ChatExamples.

Import Chat ChatSpec.

Lemma verdict_body_fails : verdict_fails (JObj [("passed", JBool false); ("flags", JArr [])]).
Proof. exists (JBool false). split; reflexivity. Qed.

Lemma verdict_body_passes : verdict_passes (JObj [("passed", JBool true); ("flags", JArr [])]).
Proof. exists (JBool true). split; reflexivity. Qed.

Lemma chat_moderation_outcomes_witness :
  (exists detail,
     chat default_settings true (sample_env false false) sample_str_of sample_request []
     = (raise (HTTPException 400 detail), [PostModerate "hi"])
     /\ get detail "code" JNull = ok (JStr "CONTENT_BLOCKED"))
  /\ (exists tr',
        chat default_settings true (sample_env true false) sample_str_of sample_request []
        = (ok {| r_content := "I apologize, but I cannot provide that response.";
                 r_metadata := {| md_model := "claude-sonnet-4-20250514";
                                  prompt_tokens := 12;
                                  completion_tokens := 3 |} |}, tr')).
Proof.
  split.
  - destruct (proj1 (chat_moderation_outcomes default_settings (sample_env false false)
                       sample_str_of sample_request [])
                _ _ eq_refl verdict_body_fails) as (detail & Hrun & Hcode & _).
    exists detail. split; [exact Hrun|exact Hcode].
  - eexists.
    pose (response := {| blocks := [TextBlock "generated text"];
                         model := "claude-sonnet-4-20250514";
                         input_tokens := 12;
                         output_tokens := 3 |}).
    apply (proj2 (chat_moderation_outcomes default_settings (sample_env true false)
                    sample_str_of sample_request [])
             (JObj [("passed", JBool true); ("flags", JArr [])])
             [PostModerate "hi"]
             {| conversation := JObj [("character", JObj [])];
                messages := JArr [];
                character := JObj [] |}
             [PostModerate "hi"; GetConversation "c1"; GetMessages "c1"]
             []
             [PostModerate "hi"; GetConversation "c1"; GetMessages "c1";
              PostRetrieve "c1" "hi"]
             (JStr "You are a helpful AI assistant.")
             [{| role := "user"; content := JStr "hi" |}]
             response
             "generated text"
             (JObj [("passed", JBool false); ("flags", JArr [])])
             _
             eq_refl verdict_body_passes eq_refl eq_refl eq_refl eq_refl eq_refl eq_refl
             eq_refl verdict_body_fails).
Defined.

Lemma chat_stream_event_sequence_witness :
  exists tr0 c,
    [PostModerate "hi"; GetConversation "c1"; GetMessages "c1"; PostRetrieve "c1" "hi";
     MessagesStream "claude-sonnet-4-20250514" (JStr "You are a helpful AI assistant.")
       [{| role := "user"; content := JStr "hi" |}]] = tr0 ++ [c]
    /\ [{| event := "chunk"; data := JObj [("content", JStr "Hel")] |};
        {| event := "chunk"; data := JObj [("content", JStr "lo")] |};
        {| event := "error"; data := JObj [("error", JStr "AI service unavailable")] |}]
       = expected_events default_settings (messages_stream (sample_env true true) tr0 c).
Proof.
  exact (proj1 (proj2 (chat_stream_event_sequence default_settings (sample_env true true)
                         sample_str_of))
           sample_request [] _ _ eq_refl).
Defined.

End ChatExamples.

(* ===================================================================== *)
(** ** Handlers step by step: inversion *)
(* ===================================================================== *)

Section StMore.

Context {S A : Type}.

Lemma try_except_inv_ok (body : St S A) (handler : exn) (w w' : S) (a : A) :
  try_except body handler w = (ok a, w') -> body w = (ok a, w').
Proof.
  unfold try_except. destruct (body w) as [[e|a'] w1]; intros H; [discriminate|exact H].
Qed.

Lemma lift_inv_ok (r : result A) (w w' : S) (a : A) :
  lift r w = (ok a, w') -> r = ok a /\ w' = w.
Proof. unfold lift. intros H. injection H as -> <-. split; reflexivity. Qed.

End StMore.

Section MapFacts.

Lemma mapM_error {A B : Type} (f : A -> result B) (l : list A) (e : exn) :
  mapM f l = raise e -> exists a, In a l /\ f a = raise e.
Proof.
  induction l as [|x l IH]; cbn [mapM]; [discriminate|].
  destruct (f x) as [e'|b] eqn:Hf.
  - intros H. injection H as <-. exists x. split; [left; reflexivity|exact Hf].
  - cbn [bind]. destruct (mapM f l) as [e'|bs]; [|discriminate].
    intros H. injection H as <-. destruct (IH eq_refl) as (a & Hin & Ha).
    exists a. split; [right; exact Hin|exact Ha].
Qed.

Lemma mapM_ok_In {A B : Type} (f : A -> result B) (l : list A) (r : list B) (a : A) :
  mapM f l = ok r -> In a l -> exists b, f a = ok b.
Proof.
  revert r. induction l as [|x l IH]; intros r; cbn [mapM]; [intros _ []|].
  destruct (f x) as [e|b] eqn:Hf; [discriminate|]. cbn [bind].
  destruct (mapM f l) as [e|bs]; [discriminate|]. intros _ [<-|Hin]; [eauto|].
  apply (IH bs eq_refl Hin).
Qed.

End MapFacts.

(* ===================================================================== *)
(** ** Moderation: further properties *)
(* ===================================================================== *)

Section ModerationMore.

Import Re Moderation ModerationSpec FloatOrder ModerationCases.

Context {rt : Runtime}.
Variable settings : Settings.
Variable claude_client : option client.

Lemma Qltb_le_trans (s a b : Q) :
  Qltb s a = true -> Qle_bool a b = true -> Qltb s b = true.
Proof.
  unfold Qltb. rewrite !negb_true_iff. intros Hsa Hab.
  destruct (Qle_bool b s) eqn:Hbs; [|reflexivity].
  apply Qle_bool_iff in Hab, Hbs.
  assert (Has : Qle_bool a s = true) by (apply Qle_bool_iff; eapply Qle_trans; eauto).
  congruence.
Qed.

Lemma flt_fle_trans (s a b : float) :
  flt s a = true -> fle a b = true -> flt s b = true.
Proof.
  destruct s as [s| | |], a as [a| | |], b as [b| | |]; simpl; try discriminate;
    try reflexivity. apply Qltb_le_trans.
Qed.

(** X1.  The response of [moderate_content] is decided in one of two ways
    only: when a blocked pattern matches it is failed with score 1.0 and
    exactly the keyword flags; otherwise its score and its flags are
    exactly those of the classifier step.  So the [max(final_score, 0.5)]
    adjustment for keyword flags never changes a score: every keyword flag
    has severity high and ends the handler before that line. *)
Theorem moderate_score_never_floored (request : ModerationRequest) (n : nat) :
  let response := fst (moderate_content settings claude_client request n) in
  let verdict := fst (check_ai_moderation claude_client (content request) n) in
  if blocked (content request)
  then response = {| passed := false;
                     flags := check_keyword_filters (content request);
                     score := Fin 1 |}
  else score response = snd verdict /\ flags response = fst verdict.
Proof.
  cbv zeta. destruct (blocked (content request)) eqn:Hb.
  - rewrite (moderate_content_blocked _ _ _ _ Hb). reflexivity.
  - split; [apply unblocked_score; exact Hb|].
    rewrite (moderate_content_unblocked _ _ _ n Hb). simpl.
    rewrite (unblocked_no_keyword_flags _ Hb). reflexivity.
Qed.

Lemma moderate_passed_cases (request : ModerationRequest) (n : nat) :
  let response := fst (moderate_content settings claude_client request n) in
  passed response
  = flt (score response) (spec_threshold settings (filter_level request))
    && negb (existsb is_high (flags response))
    && negb (blocked (content request)).
Proof.
  cbv zeta. destruct (blocked (content request)) eqn:Hb.
  - rewrite (moderate_content_blocked _ _ _ _ Hb). simpl. rewrite andb_false_r. reflexivity.
  - rewrite (moderate_content_unblocked _ _ _ n Hb). simpl.
    unfold spec_passed. rewrite no_high_forallb, andb_true_r. reflexivity.
Qed.

(** X2.  A response of [moderate_content] that passed has a score strictly
    below the threshold of the requested level and no flag of severity
    high, and its content matched no blocked pattern. *)
Theorem passed_response_is_clean (request : ModerationRequest) (n : nat) :
  let response := fst (moderate_content settings claude_client request n) in
  passed response = true ->
  flt (score response) (spec_threshold settings (filter_level request)) = true
  /\ Forall (fun f => severity f <> "high") (flags response)
  /\ blocked (content request) = false.
Proof.
  cbv zeta. rewrite moderate_passed_cases.
  rewrite !andb_true_iff, !negb_true_iff. intros [[Hs Hh] Hb].
  split; [exact Hs|]. split; [|exact Hb].
  apply Forall_forall. intros f Hin Hsev.
  assert (existsb is_high (flags (fst (moderate_content settings claude_client request n)))
          = true); [|congruence].
  apply existsb_exists. exists f. split; [apply list_elem_of_In; exact Hin|].
  unfold is_high. rewrite Hsev. reflexivity.
Qed.

Lemma response_level_independent (content : string) (level level' : string) (n : nat) :
  let response l :=
    fst (moderate_content settings claude_client
           {| content := content; filter_level := l |} n) in
  score (response level) = score (response level')
  /\ flags (response level) = flags (response level').
Proof.
  cbv beta zeta. destruct (blocked content) eqn:Hb.
  - rewrite !moderate_content_blocked by exact Hb. split; reflexivity.
  - rewrite !(moderate_content_unblocked _ _ _ n) by exact Hb. split; reflexivity.
Qed.

(** X3.  When the configured thresholds are ordered (low <= medium <=
    high), the levels are ordered too: for one content and one classifier
    answer, what passes at level strict passes at level moderate, and what
    passes at level moderate passes at level relaxed. *)
Theorem stricter_level_passes_less (content : string) (n : nat) :
  fle (severity_threshold_low settings) (severity_threshold_medium settings) = true ->
  fle (severity_threshold_medium settings) (severity_threshold_high settings) = true ->
  let response level :=
    fst (moderate_content settings claude_client
           {| content := content; filter_level := level |} n) in
  (passed (response "strict") = true -> passed (response "moderate") = true)
  /\ (passed (response "moderate") = true -> passed (response "relaxed") = true).
Proof.
  intros Hlm Hmh. cbv beta zeta. rewrite !moderate_passed_cases. cbn [Moderation.content Moderation.filter_level].
  destruct (response_level_independent content "strict" "moderate" n) as [Hs1 Hf1].
  destruct (response_level_independent content "relaxed" "moderate" n) as [Hs2 Hf2].
  cbv beta zeta in Hs1, Hf1, Hs2, Hf2. rewrite Hs1, Hf1, Hs2, Hf2.
  change (spec_threshold settings "strict") with (severity_threshold_low settings).
  change (spec_threshold settings "moderate") with (severity_threshold_medium settings).
  change (spec_threshold settings "relaxed") with (severity_threshold_high settings).
  rewrite !andb_true_iff. split; intros [[Hs Hh] Hb]; (split; [split|]); try assumption.
  - exact (flt_fle_trans _ _ _ Hs Hlm).
  - exact (flt_fle_trans _ _ _ Hs Hmh).
Qed.

Lemma keyword_scan_repeat (patterns : list regex) (text : string) :
  flat_map (fun pattern => if re_search pattern text then [keyword_flag] else [])
           patterns
  = repeat keyword_flag
      (length (List.filter (fun pattern => re_search pattern text) patterns)).
Proof.
  induction patterns as [|p ps IH]; simpl; [reflexivity|].
  destruct (re_search p text); simpl; rewrite IH; reflexivity.
Qed.

(** X4.  [check_keyword_filters] returns one flag per blocked pattern that
    matches the lowercased content, all of them the same flag (category
    keyword_match, severity high): at most four flags, and none tells which
    pattern matched. *)
Theorem keyword_flags_one_per_match (content : string) :
  let matching :=
    List.filter (fun pattern => re_search pattern (str_lower content)) BLOCKED_PATTERNS in
  check_keyword_filters content = repeat keyword_flag (length matching)
  /\ (length (check_keyword_filters content) <= 4)%nat.
Proof.
  cbv zeta. unfold check_keyword_filters. cbv zeta. rewrite keyword_scan_repeat.
  split; [reflexivity|]. rewrite repeat_length.
  etransitivity; [apply List.filter_length_le|]. reflexivity.
Qed.

Lemma mapM_raise {A B : Type} (f : A -> result B) (l : list A) (a : A) :
  In a l -> (exists e, f a = raise e) -> exists e, mapM f l = raise e.
Proof.
  induction l as [|x l IH]; intros Hin Hf; [destruct Hin|]. simpl.
  destruct (f x) as [e|b] eqn:Hx.
  - exists e. reflexivity.
  - destruct Hin as [->|Hin].
    + destruct Hf as [e He]. unfold raise in He. congruence.
    + destruct (IH Hin Hf) as [e ->]. exists e. reflexivity.
Qed.

Lemma unusable_parse (v : json) :
  unusable v -> exists e, parse_result (JsonText v) = raise e.
Proof.
  unfold parse_result. cbn [json_loads bind ok].
  destruct v as [| | | | | |fields]; simpl; try (intros _; eexists; reflexivity).
  intros [(items & f & Hiter & Hin & Hf)|[(e & Hiter)|(e & Hscore)]].
  - rewrite Hiter. cbn [bind ok]. destruct (mapM_raise _ _ _ Hin Hf) as [e ->].
    exists e. reflexivity.
  - rewrite Hiter. exists e. reflexivity.
  - destruct (iter _) as [e'|items]; [exists e'; reflexivity|]. cbn [bind].
    destruct (mapM flag_of_json items) as [e'|fs]; [exists e'; reflexivity|]. cbn [bind].
    rewrite Hscore. exists e. reflexivity.
Qed.

(** X5.  When the classifier's answer parses as JSON but is not an object,
    or its flags cannot be iterated, or one of its flags cannot be turned
    into a ModerationFlag, or its score is not a number, then
    [check_ai_moderation] drops the whole answer, its valid flags included:
    it returns no flags and score 0.0, having made its one call. *)
Theorem unusable_answer_discarded (create : client) (content : string) (n : nat)
  (v : json) (rest : list block) :
  create n content = Message (TextBlock (JsonText v) :: rest) ->
  unusable v ->
  check_ai_moderation (Some create) content n = (([], Fin 0), Datatypes.S n).
Proof.
  intros Hanswer Hbad. unfold check_ai_moderation, analyse. rewrite Hanswer.
  cbn [response_text bind ok]. destruct (unusable_parse v Hbad) as [e ->].
  destruct e; reflexivity.
Qed.

(** X6.  For a single content, [moderate_batch] takes the same pass
    decision as [moderate_content] at level moderate, and returns the very
    same response when no blocked pattern matches; when one matches, the
    two agree on the decision only. *)
Theorem batch_item_agrees_with_single (content : string) (n : nat) :
  let single :=
    fst (moderate_content settings claude_client
           {| content := content; filter_level := "moderate" |} n) in
  exists r,
    fst (moderate_batch settings claude_client [content] n) = [r]
    /\ passed r = passed single
    /\ (blocked content = false -> r = single).
Proof.
  cbv zeta. unfold moderate_batch. cbn [firstn]. rewrite batch_loop_cons.
  cbn [batch_loop fst]. eexists. split; [reflexivity|].
  destruct (blocked content) eqn:Hb.
  - split; [|discriminate].
    rewrite (moderate_content_blocked _ _
               {| content := content; filter_level := "moderate" |} _ Hb).
    cbn [passed fst]. rewrite existsb_app, keyword_flags_high, Hb. apply andb_false_r.
  - rewrite (moderate_content_unblocked _ _
               {| content := content; filter_level := "moderate" |} n Hb).
    cbn [Moderation.content Moderation.filter_level fst].
    rewrite (unblocked_no_keyword_flags _ Hb). unfold spec_final_score, spec_passed.
    rewrite pymax_same, no_high_forallb.
    change (spec_threshold settings "moderate") with (severity_threshold_medium settings).
    split; [reflexivity|]. intros _. reflexivity.
Qed.

Lemma batch_loop_calls (contents : list string) (n : nat) :
  snd (batch_loop settings claude_client contents n)
  = match claude_client with
    | Some _ => (n + length contents)%nat
    | None => n
    end.
Proof.
  revert n. induction contents as [|c rest IH]; intros n; simpl.
  - destruct claude_client; [lia|reflexivity].
  - destruct (check_ai_moderation claude_client c n) as [[ai_flags ai_score] n'] eqn:Hc.
    specialize (IH n').
    destruct (batch_loop settings claude_client rest n') as [results n'']. simpl in *.
    unfold check_ai_moderation in Hc.
    destruct claude_client; injection Hc as _ Hn; lia.
Qed.

(** X7.  With a classifier configured, [moderate_batch] calls it once for
    each of the first ten items, blocked or not, while [moderate_content]
    calls it once for content that no blocked pattern matches and not at
    all for blocked content; without a classifier no call is made. *)
Theorem classifier_call_counts (contents : list string) (request : ModerationRequest)
  (n : nat) :
  snd (moderate_batch settings claude_client contents n)
  = match claude_client with
    | Some _ => (n + Nat.min (length contents) 10)%nat
    | None => n
    end
  /\ snd (moderate_content settings claude_client request n)
     = match claude_client with
       | Some _ => if blocked (content request) then n else Datatypes.S n
       | None => n
       end.
Proof.
  split.
  - unfold moderate_batch. rewrite batch_loop_calls, length_take, Nat.min_comm.
    reflexivity.
  - destruct (blocked (content request)) eqn:Hb.
    + rewrite (moderate_content_blocked _ _ _ _ Hb). destruct claude_client; reflexivity.
    + rewrite (moderate_content_unblocked _ _ _ n Hb). cbn [snd].
      destruct claude_client; reflexivity.
Qed.

Lemma verdict_cases (content : string) (n : nat) :
  (no_usable_answer claude_client content n
   /\ fst (check_ai_moderation claude_client content n) = ([], Fin 0))
  \/ (exists s ai_flags,
        answers_score claude_client content n s
        /\ fst (check_ai_moderation claude_client content n) = (ai_flags, s)).
Proof.
  unfold no_usable_answer, answers_score, check_ai_moderation.
  destruct claude_client as [create|]; [|left; split; [exact I|reflexivity]].
  cbn [fst]. unfold analyse.
  destruct (create n content) as [|[|[[raw|v]|] rest]] eqn:Hcreate;
    try (left; split; [exact I|reflexivity]).
  cbn [response_text bind ok].
  destruct v as [| | | | | |fields];
    try (left; split; [exact I|reflexivity]).
  unfold parse_result. cbn [json_loads bind ok get].
  destruct (iter (dict_get fields "flags" (JArr []))) as [e|items] eqn:Hiter.
  { left. split; [right; left; exists e; exact Hiter|]. destruct e; reflexivity. }
  cbn [bind].
  destruct (mapM flag_of_json items) as [e|ai_flags] eqn:Hflags.
  { left. split.
    - left. apply mapM_error in Hflags as (f & Hin & Hf).
      exists items, f. split; [exact Hiter|]. split; [exact Hin|]. exists e. exact Hf.
    - destruct e; reflexivity. }
  cbn [bind].
  destruct (py_float (dict_get fields "score" (JInt 0))) as [e|s] eqn:Hscore.
  { left. split; [right; right; exists e; exact Hscore|]. destruct e; reflexivity. }
  right. exists s, ai_flags. split; [|reflexivity].
  exists create, fields, rest, items. split; [reflexivity|]. split; [exact Hcreate|].
  split; [exact Hiter|]. split; [|exact Hscore].
  intros f Hin. apply (mapM_ok_In _ _ _ _ Hflags Hin).
Qed.

Lemma answers_score_unique (content : string) (n : nat) (s s' : float) :
  answers_score claude_client content n s ->
  answers_score claude_client content n s' -> s = s'.
Proof.
  intros (create & fields & rest & items & Hc & Hm & _ & _ & Hs)
         (create' & fields' & rest' & items' & Hc' & Hm' & _ & _ & Hs').
  rewrite Hc in Hc'. injection Hc' as <-. rewrite Hm in Hm'. injection Hm' as <- _.
  rewrite Hs in Hs'. injection Hs' as <-. reflexivity.
Qed.

Lemma answers_score_usable (content : string) (n : nat) (s : float) :
  answers_score claude_client content n s ->
  no_usable_answer claude_client content n -> False.
Proof.
  intros (create & fields & rest & items & -> & Hm & Hiter & Hflags & Hs).
  unfold no_usable_answer. rewrite Hm. cbn [unusable].
  intros [(items' & f & Hiter' & Hin & e & Hf)|[(e & Hiter')|(e & Hs')]].
  - rewrite Hiter in Hiter'. injection Hiter' as <-.
    destruct (Hflags f Hin) as (flag & Hflag). unfold ok, raise in *. congruence.
  - unfold ok, raise in *. congruence.
  - unfold ok, raise in *. congruence.
Qed.

(** C3 (amended).  The score of the response is decided by the content and
    by the classifier's answer alone, and is never clamped: it is 1.0 when
    a blocked pattern matches; otherwise it is 0.0 when the classifier
    gives no usable answer, and it is the number in the score entry of the
    classifier's answer when that answer is usable: for an entry that is
    a JSON float, that very float.  It therefore lies in [0,1] whenever
    the score of every usable answer does. *)
Theorem moderate_score_in_unit (request : ModerationRequest) (n : nat) :
  let response := fst (moderate_content settings claude_client request n) in
  (blocked (content request) = true -> score response = Fin 1)
  /\ (blocked (content request) = false ->
      no_usable_answer claude_client (content request) n ->
      score response = Fin 0)
  /\ (forall s,
        blocked (content request) = false ->
        answers_score claude_client (content request) n s ->
        score response = s)
  /\ (forall create fields rest items x,
        blocked (content request) = false ->
        claude_client = Some create ->
        create n (content request)
        = Message (TextBlock (JsonText (JObj fields)) :: rest) ->
        iter (dict_get fields "flags" (JArr [])) = ok items ->
        (forall f, In f items -> exists flag, flag_of_json f = ok flag) ->
        dict_get fields "score" (JInt 0) = JFloat x ->
        score response = x)
  /\ ((forall s, answers_score claude_client (content request) n s -> in_unit s) ->
      in_unit (score response)).
Proof.
  cbv zeta.
  assert (Hanswered : forall s,
            blocked (content request) = false ->
            answers_score claude_client (content request) n s ->
            score (fst (moderate_content settings claude_client request n)) = s).
  { intros s Hb Hs. rewrite (unblocked_score _ _ _ _ Hb).
    destruct (verdict_cases (content request) n) as [[Hnone _]|(s' & fs & Hs' & ->)].
    - destruct (answers_score_usable _ _ _ Hs Hnone).
    - apply (answers_score_unique _ _ _ _ Hs' Hs). }
  split; [|split; [|split; [exact Hanswered|split]]].
  - intros Hb. rewrite (moderate_content_blocked _ _ _ _ Hb). reflexivity.
  - intros Hb Hnone. rewrite (unblocked_score _ _ _ _ Hb).
    destruct (verdict_cases (content request) n) as [[_ ->]|(s & fs & Hs & _)];
      [reflexivity|].
    destruct (answers_score_usable _ _ _ Hs Hnone).
  - intros create fields rest items x Hb Hc Hm Hiter Hflags Hx.
    apply (Hanswered x Hb). exists create, fields, rest, items.
    rewrite Hx. auto.
  - intros Hunit. destruct (blocked (content request)) eqn:Hb.
    + rewrite (moderate_content_blocked _ _ _ _ Hb). apply in_unit_one.
    + rewrite (unblocked_score _ _ _ _ Hb).
      destruct (verdict_cases (content request) n) as [[_ ->]|(s & fs & Hs & ->)].
      * simpl. split; discriminate.
      * apply Hunit. exact Hs.
Qed.

End ModerationMore.

(* ===================================================================== *)
(** ** Cosine similarity: further properties *)
(* ===================================================================== *)

Section CosineMore.

Import Memory MemorySpec.

Lemma dot_comm (a b : list R) : dot a b = dot b a.
Proof.
  unfold dot. revert b. induction a as [|x a IH]; intros [|y b]; simpl; try reflexivity.
  rewrite IH. lra.
Qed.

(** Cauchy-Schwarz on the zipped prefix. *)
(** X8.  [cosine_similarity] is symmetric in its two vectors, whatever
    their lengths. *)
Theorem cosine_similarity_symmetric (a b : list R) :
  cosine_similarity a b = cosine_similarity b a.
Proof.
  unfold cosine_similarity. rewrite (dot_comm a b), (Rmult_comm (norm a) (norm b)).
  rewrite (andb_comm (nonzero (norm a))). reflexivity.
Qed.

End CosineMore.

(* ===================================================================== *)
(** ** Cosine similarity in double arithmetic *)
(* ===================================================================== *)

Section DoubleFacts.

Import Doubles DoublesSpec.




Context {builtins : Builtins}.





End DoubleFacts.

Section DoubleExamples.

Import Doubles DoublesSpec.



End DoubleExamples.

(* ===================================================================== *)
(** ** Memory store: reads, ranking and round trips *)
(* ===================================================================== *)

Section RetrieveFacts.

Import Memory MemorySpec MemoryViews.

Variable openai_client : option embedder.

Lemma keeps_ret {A} (a : A) : keeps_db (ret a).
Proof. intros w. reflexivity. Qed.

Lemma keeps_lift {A} (r : result A) : keeps_db (lift r).
Proof. intros w. reflexivity. Qed.

Lemma keeps_bind {A B} (m : M A) (k : A -> M B) :
  keeps_db m -> (forall a, keeps_db (k a)) -> keeps_db (mbind m k).
Proof.
  intros Hm Hk w. unfold mbind. specialize (Hm w).
  destruct (m w) as [[e|a] w1]; simpl in *; [exact Hm|].
  rewrite Hk. exact Hm.
Qed.

Lemma keeps_try_except {A} (m : M A) (handler : exn) :
  keeps_db m -> keeps_db (try_except m handler).
Proof.
  intros Hm w. unfold try_except. specialize (Hm w).
  destruct (m w) as [[e|a] w1]; exact Hm.
Qed.

Lemma keeps_smembers (key : string) : keeps_db (redis (Redis.smembers key)).
Proof.
  intros w. unfold redis. rewrite smembers_index_set. reflexivity.
Qed.

Lemma keeps_get (key : string) : keeps_db (redis (Redis.get key)).
Proof.
  intros w. unfold redis, Redis.get.
  destruct (db w !! key) as [[[data|members] t]|]; reflexivity.
Qed.

Lemma keeps_get_embedding (text : string) : keeps_db (get_embedding openai_client text).
Proof.
  intros w. unfold get_embedding. destruct openai_client as [create|]; [|reflexivity].
  destruct (create (calls w) text); reflexivity.
Qed.

Lemma keeps_fetch_all (memory_ids : list string) (memories : list memory) :
  keeps_db (fetch_all memory_ids memories).
Proof.
  revert memories. induction memory_ids as [|mid rest IH]; intros memories.
  - apply keeps_ret.
  - cbn [fetch_all]. cbv zeta. apply keeps_bind; [apply keeps_get|].
    intros [m|]; apply IH.
Qed.

Lemma retrieve_keeps_db (redis_client : bool) (request : RetrieveMemoryRequest)
  (w : world) :
  db (snd (retrieve_memories redis_client openai_client request w)) = db w.
Proof.
  revert w. change (keeps_db (retrieve_memories redis_client openai_client request)).
  unfold retrieve_memories. destruct redis_client; [|intros w; reflexivity]. cbn [negb].
  apply keeps_try_except. cbv zeta. apply keeps_bind; [apply keeps_smembers|].
  intros ids. destruct (decide (ids = ∅)); [apply keeps_ret|].
  apply keeps_bind; [apply keeps_fetch_all|]. intros memories.
  apply keeps_bind; [apply keeps_get_embedding|]. intros query_embedding.
  apply keeps_bind; [|intros ranked; apply keeps_ret].
  destruct query_embedding as [[|x q]|]; try apply keeps_ret.
  apply keeps_bind; [apply keeps_lift|]. intros scored. apply keeps_ret.
Qed.

Lemma summary_keeps_world (redis_client : bool) (conversation_id : string) (w : world) :
  snd (get_memory_summary redis_client conversation_id w) = w.
Proof.
  unfold get_memory_summary. destruct redis_client; [|reflexivity]. cbn [negb].
  unfold try_except, mbind, redis. cbv zeta. rewrite smembers_index_set.
  destruct (index_set _ _); destruct w; reflexivity.
Qed.

(** X11.  The two reading handlers never write: [retrieve_memories] leaves
    every key of the store as it was (it may only count an embedding
    call), and [get_memory_summary] leaves the whole world as it was,
    whether they succeed or fail, and with or without a store configured. *)
Theorem reads_leave_store_unchanged (redis_client : bool)
  (request : RetrieveMemoryRequest) (conversation_id : string) (w : world) :
  db (snd (retrieve_memories redis_client openai_client request w)) = db w
  /\ snd (get_memory_summary redis_client conversation_id w) = w.
Proof.
  split; [apply retrieve_keeps_db|apply summary_keeps_world].
Qed.

Lemma insert_desc_perm {A} (key : A -> R) (x : A) (l : list A) :
  insert_desc key x l ≡ₚ x :: l.
Proof.
  induction l as [|y l IH]; simpl; [reflexivity|].
  destruct (Rlt_dec (key y) (key x)); [reflexivity|].
  rewrite IH. apply Permutation_swap.
Qed.

Lemma sort_desc_perm {A} (key : A -> R) (l : list A) : sort_desc key l ≡ₚ l.
Proof.
  unfold sort_desc.
  assert (H : forall acc, fold_left (fun acc x => insert_desc key x acc) l acc ≡ₚ acc ++ l).
  { induction l as [|x l IH]; intros acc; simpl.
    - rewrite app_nil_r. reflexivity.
    - rewrite IH, insert_desc_perm. apply Permutation_middle. }
  apply (H []).
Qed.

Lemma slice_length {A} (limit : Z) (l : list A) :
  (length (slice_to limit l) <= length l)%nat
  /\ ((0 <= limit)%Z -> (length (slice_to limit l) <= Z.to_nat limit)%nat).
Proof.
  unfold slice_to. destruct (0 <=? limit)%Z eqn:Hl; rewrite length_take; split; lia.
Qed.

Lemma slice_nil {A} (limit : Z) : slice_to limit ([] : list A) = [].
Proof. unfold slice_to. destruct (0 <=? limit)%Z; apply take_nil. Qed.

Lemma keeps_world_get (key : string) (w : world) :
  snd (redis (Redis.get key) w) = w.
Proof.
  unfold redis, Redis.get.
  destruct (db w !! key) as [[[data|members] t]|]; destruct w; reflexivity.
Qed.

Lemma fetch_all_inv (memory_ids : list string) (memories fetched : list memory)
  (w w' : world) :
  fetch_all memory_ids memories w = (ok fetched, w') ->
  w' = w /\ (length fetched <= length memories + length memory_ids)%nat.
Proof.
  revert memories w. induction memory_ids as [|mid rest IH]; intros memories w; simpl.
  - unfold ret. intros H. injection H as <- <-. split; [reflexivity|lia].
  - intros H. apply mbind_inv_ok in H as (data & w1 & Hget & H).
    pose proof (keeps_world_get (memory_key mid) w) as Hw. rewrite Hget in Hw.
    simpl in Hw. subst w1.
    destruct data as [m|]; apply IH in H as [-> Hlen]; split; try reflexivity.
    + rewrite length_app in Hlen. simpl in Hlen. lia.
    + lia.
Qed.

Lemma score_all_length (q : list R) (memories scored : list memory) :
  score_all q memories = ok scored -> length scored = length memories.
Proof.
  revert scored. induction memories as [|m rest IH]; intros scored; simpl.
  - intros H. injection H as <-. reflexivity.
  - destruct (match embedding m with
              | Some (x :: v) => cosine_similarity q (x :: v)
              | _ => ok (importance m)
              end) as [e|score]; [discriminate|]. cbn [bind].
    destruct (score_all q rest) as [e|rest'] eqn:Hrest; [discriminate|]. cbn [bind].
    intros H. injection H as <-. simpl. rewrite (IH rest' eq_refl). reflexivity.
Qed.

(** What a successful retrieval consists of. *)
Lemma retrieve_ok_inv (request : RetrieveMemoryRequest) (w w' : world)
  (views : list MemoryView) :
  retrieve_memories true openai_client request w = (ok views, w') ->
  exists (memory_ids : gset string) (fetched ranked : list memory),
    index_set (db w) (index_key_of (r_conversation_id request)) = Some memory_ids
    /\ (length fetched <= size memory_ids)%nat
    /\ length ranked = length fetched
    /\ views = map view (slice_to (r_limit request) ranked).
Proof.
  unfold retrieve_memories. cbn [negb]. cbv zeta. intros H.
  apply try_except_inv_ok in H.
  apply mbind_inv_ok in H as (memory_ids & w1 & Hsm & H).
  unfold redis in Hsm. rewrite smembers_index_set in Hsm.
  destruct (index_set (db w) (index_key_of (r_conversation_id request)))
    as [members|] eqn:Hset; [|discriminate].
  injection Hsm as -> <-.
  assert (Hw : {| db := db w; calls := calls w |} = w) by (destruct w; reflexivity).
  rewrite Hw in H. exists memory_ids.
  destruct (decide (memory_ids = ∅)) as [->|Hne].
  - unfold ret in H. injection H as <- <-. exists [], [].
    split; [reflexivity|]. split; [simpl; lia|]. split; [reflexivity|].
    rewrite slice_nil. reflexivity.
  - apply mbind_inv_ok in H as (fetched & w2 & Hfetch & H).
    apply fetch_all_inv in Hfetch as [-> Hlen]. simpl in Hlen.
    apply mbind_inv_ok in H as (query_embedding & w3 & Hemb & H).
    apply mbind_inv_ok in H as (ranked & w4 & Hrank & H).
    unfold ret in H. injection H as <- <-.
    exists fetched, ranked. split; [reflexivity|].
    split; [exact Hlen|].
    destruct query_embedding as [[|x q]|].
    + unfold ret in Hrank. injection Hrank as <- <-.
      split; [rewrite sort_desc_perm; reflexivity|reflexivity].
    + apply mbind_inv_ok in Hrank as (scored & w5 & Hscore & Hrank).
      unfold lift in Hscore. injection Hscore as Hscore <-.
      unfold ret in Hrank. injection Hrank as <- <-.
      apply score_all_length in Hscore.
      split; [rewrite sort_desc_perm; exact Hscore|reflexivity].
    + unfold ret in Hrank. injection Hrank as <- <-.
      split; [rewrite sort_desc_perm; reflexivity|reflexivity].
Qed.

(** X13.  A successful [retrieve_memories] returns at most [limit]
    memories when the limit is not negative, and never more than the
    conversation's index has members. *)
Theorem retrieve_respects_limit (request : RetrieveMemoryRequest) (w w' : world)
  (views : list MemoryView) :
  retrieve_memories true openai_client request w = (ok views, w') ->
  ((0 <= r_limit request)%Z -> (length views <= Z.to_nat (r_limit request))%nat)
  /\ exists memory_ids,
       index_members (r_conversation_id request) w = ok memory_ids
       /\ (length views <= size memory_ids)%nat.
Proof.
  intros H. apply retrieve_ok_inv in H
    as (ids & fetched & ranked & Hset & Hfetched & Hranked & ->).
  rewrite length_map. destruct (slice_length (r_limit request) ranked) as [Hle Hlim].
  split; [exact Hlim|]. exists ids. split; [|lia].
  rewrite index_members_index_set, Hset. reflexivity.
Qed.

End RetrieveFacts.

Section RoundTrip.

Import Memory MemorySpec MemoryViews.

Variable settings : Settings.
Variable openai_client : option embedder.
Variable hash : string -> Z.

Local Abbreviation id_of request :=
  (memory_id_of hash (s_conversation_id request) (s_content request)).
Local Abbreviation key_of request := (memory_key (id_of request)).
Local Abbreviation index_of request := (index_key_of (s_conversation_id request)).

Lemma memory_key_inj (x y : string) : memory_key x = memory_key y -> x = y.
Proof. unfold memory_key. apply String.app_inj. Qed.

Lemma cosine_similarity_total (a b : list R) : exists r, cosine_similarity a b = ok r.
Proof.
  destruct (Req_dec_T (norm a) 0) as [Ha|Ha].
  { exists 0%R. apply cosine_zero_norm. left. exact Ha. }
  destruct (Req_dec_T (norm b) 0) as [Hb|Hb].
  { exists 0%R. apply cosine_zero_norm. right. exact Hb. }
  rewrite (cosine_quotient _ _ Ha Hb). eauto.
Qed.

Lemma score_all_total (q : list R) (memories : list memory) :
  exists scored, score_all q memories = ok scored /\ map core scored = map core memories.
Proof.
  induction memories as [|m rest (scored & IH & Hcore)]; simpl.
  - exists []. split; reflexivity.
  - assert (Hscore : exists score,
               match embedding m with
               | Some (x :: v) => cosine_similarity q (x :: v)
               | _ => ok (importance m)
               end = ok score).
    { destruct (embedding m) as [[|x v]|]; eauto. apply cosine_similarity_total. }
    destruct Hscore as [score ->]. rewrite IH. cbn [bind ok].
    eexists. split; [reflexivity|]. simpl. rewrite Hcore. reflexivity.
Qed.

Lemma get_run (key : string) (w : world) :
  (forall members t,
      db w !! key <> Some {| Redis.val := Redis.VSet members; Redis.ttl := t |}) ->
  redis (Redis.get key) w
  = (ok match db w !! key with
        | Some {| Redis.val := Redis.VString m |} => Some m
        | _ => None
        end, w).
Proof.
  intros Htyped. unfold redis, Redis.get.
  destruct (db w !! key) as [[[m|members] t]|] eqn:Hk; destruct w; try reflexivity.
  exfalso. eapply Htyped. reflexivity.
Qed.

Lemma smembers_run (key : string) (w : world) (memory_ids : gset string) :
  index_set (db w) key = Some memory_ids ->
  redis (Redis.smembers key) w = (ok memory_ids, w).
Proof.
  intros Hset. unfold redis. rewrite smembers_index_set, Hset. destruct w; reflexivity.
Qed.

Lemma fetch_all_run (memory_ids : list string) (memories : list memory) (w : world) :
  records_typed (db w) memory_ids ->
  fetch_all memory_ids memories w = (ok (memories ++ live_records (db w) memory_ids), w).
Proof.
  revert memories. induction memory_ids as [|mid rest IH]; intros memories Htyped.
  - simpl. rewrite app_nil_r. reflexivity.
  - assert (Hrest : records_typed (db w) rest).
    { intros mid' members t Hin. apply Htyped. right. exact Hin. }
    cbn [fetch_all]. cbv zeta. unfold live_records. cbn [flat_map].
    fold (live_records (db w) rest).
    erewrite mbind_ok.
    2:{ apply get_run. intros members t. apply Htyped. left. reflexivity. }
    destruct (db w !! memory_key mid) as [[[m|members] t]|].
    + rewrite (IH _ Hrest), <- app_assoc. reflexivity.
    + rewrite (IH _ Hrest). reflexivity.
    + rewrite (IH _ Hrest). reflexivity.
Qed.


(** A retrieval over an index whose record keys hold no set succeeds, and
    ranks exactly the records found. *)
Lemma retrieve_run (request : RetrieveMemoryRequest) (w : world)
  (memory_ids : gset string) :
  index_set (db w) (index_key_of (r_conversation_id request)) = Some memory_ids ->
  records_typed (db w) (elements memory_ids) ->
  exists ranked w',
    retrieve_memories true openai_client request w
    = (ok (map view (slice_to (r_limit request) ranked)), w')
    /\ map core ranked ≡ₚ map core (live_records (db w) (elements memory_ids)).
Proof.
  intros Hset Htyped. unfold retrieve_memories. cbn [negb]. cbv zeta.
  destruct (decide (memory_ids = ∅)) as [->|Hne].
  - exists [], w. split.
    + apply try_except_ok. erewrite mbind_ok.
      2:{ apply smembers_run. exact Hset. }
      rewrite decide_True by reflexivity. rewrite slice_nil. reflexivity.
    + rewrite elements_empty. reflexivity.
  - destruct (get_embedding_run openai_client (r_query request) w)
      as (query_embedding & c & Hemb).
    set (fetched := live_records (db w) (elements memory_ids)) in *.
    assert (Hfetch : fetch_all (elements memory_ids) [] w = (ok fetched, w))
      by (apply (fetch_all_run _ []); exact Htyped).
    pose proof (smembers_run _ _ _ Hset) as Hsm.
    destruct query_embedding as [[|x q]|].
    + exists (sort_desc importance fetched), {| db := db w; calls := c |}. split.
      * apply try_except_ok. rewrite (mbind_ok _ _ _ _ _ Hsm).
        rewrite decide_False by exact Hne.
        rewrite (mbind_ok _ _ _ _ _ Hfetch), (mbind_ok _ _ _ _ _ Hemb). reflexivity.
      * rewrite sort_desc_perm. reflexivity.
    + destruct (score_all_total (x :: q) fetched) as (scored & Hscore & Hcore).
      exists (sort_desc (fun m => or_default (relevance_score m) 0%R) scored),
             {| db := db w; calls := c |}. split.
      * apply try_except_ok. rewrite (mbind_ok _ _ _ _ _ Hsm).
        rewrite decide_False by exact Hne.
        rewrite (mbind_ok _ _ _ _ _ Hfetch), (mbind_ok _ _ _ _ _ Hemb).
        erewrite mbind_ok.
        2:{ erewrite mbind_ok by (rewrite lift_run, Hscore; reflexivity). reflexivity. }
        reflexivity.
      * rewrite sort_desc_perm, Hcore. reflexivity.
    + exists (sort_desc importance fetched), {| db := db w; calls := c |}. split.
      * apply try_except_ok. rewrite (mbind_ok _ _ _ _ _ Hsm).
        rewrite decide_False by exact Hne.
        rewrite (mbind_ok _ _ _ _ _ Hfetch), (mbind_ok _ _ _ _ _ Hemb). reflexivity.
      * rewrite sort_desc_perm. reflexivity.
Qed.

Lemma well_typed_index (d : gmap string (Redis.entry memory)) (cid : string) :
  well_typed d -> exists memory_ids, index_set d (index_key_of cid) = Some memory_ids.
Proof.
  intros [_ Hidx]. unfold index_set.
  destruct (d !! index_key_of cid) as [[[m|members] t]|] eqn:Hk; eauto.
  exfalso. eapply Hidx. exact Hk.
Qed.


Lemma well_typed_insert_record (d : gmap string (Redis.entry memory))
  (mid : string) (m : memory) (t : option Z) :
  well_typed d ->
  well_typed (<[memory_key mid := {| Redis.val := Redis.VString m; Redis.ttl := t |}]> d).
Proof.
  intros [Hrec Hidx]. split.
  - intros mid' members t'. destruct (decide (memory_key mid' = memory_key mid)) as [->|Hne].
    + rewrite lookup_insert_eq. discriminate.
    + rewrite lookup_insert_ne by congruence. apply Hrec.
  - intros cid m' t'.
    rewrite lookup_insert_ne by apply key_spaces_disjoint. apply Hidx.
Qed.

Lemma well_typed_insert_index (d : gmap string (Redis.entry memory))
  (cid : string) (members : gset string) (t : option Z) :
  well_typed d ->
  well_typed (<[index_key_of cid := {| Redis.val := Redis.VSet members; Redis.ttl := t |}]> d).
Proof.
  intros [Hrec Hidx]. split.
  - intros mid members' t'.
    rewrite lookup_insert_ne
      by (intros Heq; symmetry in Heq; exact (key_spaces_disjoint _ _ Heq)).
    apply Hrec.
  - intros cid' m t'. destruct (decide (index_key_of cid' = index_key_of cid)) as [->|Hne].
    + rewrite lookup_insert_eq. discriminate.
    + rewrite lookup_insert_ne by congruence. apply Hidx.
Qed.

Lemma well_typed_delete (d : gmap string (Redis.entry memory)) (key : string) :
  well_typed d -> well_typed (delete key d).
Proof.
  intros [Hrec Hidx]. split.
  - intros mid members t H. apply lookup_delete_Some in H as [_ H]. exact (Hrec _ _ _ H).
  - intros cid m t H. apply lookup_delete_Some in H as [_ H]. exact (Hidx _ _ _ H).
Qed.

Lemma well_typed_delete_all (keys : list string) (d : gmap string (Redis.entry memory)) :
  well_typed d -> well_typed (delete_all keys d).
Proof.
  revert d. induction keys as [|k keys IH]; intros d Hd; simpl; [exact Hd|].
  apply IH, well_typed_delete, Hd.
Qed.

Lemma well_typed_elapse (seconds : Z) (d : gmap string (Redis.entry memory)) :
  well_typed d -> well_typed (Redis.elapse seconds d).
Proof.
  intros [Hrec Hidx]. unfold Redis.elapse. split.
  - intros mid members t H. apply lookup_omap_Some in H as (e & Hage & He).
    unfold Redis.age in Hage. destruct e as [v t0]. simpl in Hage.
    destruct t0 as [t0|]; [destruct (t0 <=? seconds)%Z; [discriminate|]|];
      injection Hage as -> _; exact (Hrec _ _ _ He).
  - intros cid m t H. apply lookup_omap_Some in H as (e & Hage & He).
    unfold Redis.age in Hage. destruct e as [v t0]. simpl in Hage.
    destruct t0 as [t0|]; [destruct (t0 <=? seconds)%Z; [discriminate|]|];
      injection Hage as -> _; exact (Hidx _ _ _ He).
Qed.

Lemma clear_run (conversation_id : string) (w : world) (memory_ids : gset string) :
  index_set (db w) (index_key_of conversation_id) = Some memory_ids ->
  clear_memories true conversation_id w
  = (ok {| cleared := size memory_ids |},
     {| db := delete (index_key_of conversation_id)
                (delete_all (map memory_key (elements memory_ids)) (db w));
        calls := calls w |}).
Proof.
  intros Hset.
  destruct (del_run (index_key_of conversation_id)
              {| db := delete_all (map memory_key (elements memory_ids)) (db w);
                 calls := calls w |}) as [count Hdel].
  unfold clear_memories. cbn [negb]. cbv zeta.
  apply try_except_ok. erewrite mbind_ok by (apply smembers_run; exact Hset).
  erewrite mbind_ok by apply delete_loop_run.
  erewrite mbind_ok; [reflexivity|exact Hdel].
Qed.

(** What a store call does, by cases. *)
Lemma store_memory_cases (request : StoreMemoryRequest) (w : world) :
  well_typed (db w) ->
  exists memory_ids embedding c,
    index_set (db w) (index_of request) = Some memory_ids
    /\ store_memory settings true openai_client hash request w
       = if (0 <? short_term_ttl settings)%Z
         then (ok {| sr_id := id_of request; sr_stored := true |},
               {| db := <[index_of request :=
                            index_entry settings (memory_ids ∪ {[id_of request]})]>
                          (<[key_of request := record_entry settings hash request embedding]>
                             (db w));
                  calls := c |})
         else (raise (HTTPException 500 (JStr "Failed to store memory")),
               {| db := db w; calls := c |}).
Proof.
  intros Htyped.
  destruct (well_typed_index _ (s_conversation_id request) Htyped) as [ids Hset].
  exists ids. destruct (0 <? short_term_ttl settings)%Z eqn:Httl.
  - apply Z.ltb_lt in Httl.
    destruct (store_memory_success settings openai_client hash request w ids Httl Hset)
      as (emb & c & ->). eauto.
  - apply Z.ltb_ge in Httl.
    destruct (store_memory_bad_ttl settings openai_client hash request w Httl) as (c & ->).
    exists None, c. auto.
Qed.

(** X14.  The service keeps its store well typed: if no record key holds a
    set and no index key holds a string, this is still so after any of the
    four handlers has run, and after any amount of time has passed. *)
Theorem handlers_keep_store_well_typed (store_request : StoreMemoryRequest)
  (retrieve_request : RetrieveMemoryRequest) (conversation_id : string)
  (seconds : Z) (w : world) :
  well_typed (db w) ->
  well_typed (db (snd (store_memory settings true openai_client hash store_request w)))
  /\ well_typed (db (snd (retrieve_memories true openai_client retrieve_request w)))
  /\ well_typed (db (snd (clear_memories true conversation_id w)))
  /\ well_typed (db (snd (get_memory_summary true conversation_id w)))
  /\ well_typed (db (later seconds w)).
Proof.
  intros Htyped. split; [|split; [|split; [|split]]].
  - destruct (store_memory_cases store_request w Htyped) as (ids & emb & c & _ & ->).
    destruct (0 <? short_term_ttl settings)%Z; cbn [snd db]; [|exact Htyped].
    apply well_typed_insert_index, well_typed_insert_record, Htyped.
  - rewrite retrieve_keeps_db. exact Htyped.
  - destruct (well_typed_index _ conversation_id Htyped) as [ids Hset].
    rewrite (clear_run _ _ _ Hset). cbn [snd db].
    apply well_typed_delete, well_typed_delete_all, Htyped.
  - rewrite summary_keeps_world. exact Htyped.
  - apply well_typed_elapse, Htyped.
Qed.





(** X17.  The index outlives its records: for a conversation with no index
    yet, once a stored record's time-to-live has passed but the index's
    (24 times longer) has not, [get_memory_summary] still counts one
    memory while [retrieve_memories] returns none. *)
Theorem expired_record_still_counted (store_request : StoreMemoryRequest)
  (retrieve_request : RetrieveMemoryRequest) (seconds : Z) (w : world) :
  (0 < short_term_ttl settings)%Z ->
  db w !! index_of store_request = None ->
  (short_term_ttl settings <= seconds < short_term_ttl settings * 24)%Z ->
  r_conversation_id retrieve_request = s_conversation_id store_request ->
  let after :=
    later seconds (snd (store_memory settings true openai_client hash store_request w)) in
  fst (get_memory_summary true (s_conversation_id store_request) after)
  = ok {| sm_conversation_id := s_conversation_id store_request; total_memories := 1 |}
  /\ fst (retrieve_memories true openai_client retrieve_request after) = ok [].
Proof.
  intros Httl Hfresh [Hlo Hhi] Hconv. cbv zeta.
  assert (Hset : index_set (db w) (index_of store_request) = Some ∅).
  { unfold index_set. rewrite Hfresh. reflexivity. }
  destruct (store_memory_success settings openai_client hash store_request w ∅ Httl Hset)
    as (emb & c & ->). cbn [snd]. unfold later. cbn [db calls].
  rewrite (left_id_L ∅ (∪)).
  set (d1 := Redis.elapse seconds _).
  assert (Hidx : d1 !! index_of store_request
                 = Some {| Redis.val := Redis.VSet {[id_of store_request]};
                           Redis.ttl := Some (short_term_ttl settings * 24 - seconds)%Z |}).
  { unfold d1, Redis.elapse. rewrite lookup_omap, lookup_insert_eq. simpl.
    unfold Redis.age. simpl. rewrite (proj2 (Z.leb_gt _ _)) by lia. reflexivity. }
  assert (Hkey : d1 !! key_of store_request = None).
  { unfold d1, Redis.elapse. rewrite lookup_omap.
    rewrite lookup_insert_ne
      by (intros Heq; symmetry in Heq; exact (key_spaces_disjoint _ _ Heq)).
    rewrite lookup_insert_eq. simpl. unfold Redis.age. simpl.
    rewrite (proj2 (Z.leb_le _ _)) by lia. reflexivity. }
  assert (Hset1 : index_set d1 (index_of store_request) = Some {[id_of store_request]}).
  { unfold index_set. rewrite Hidx. reflexivity. }
  split.
  - rewrite summary_index_set. cbn [db]. rewrite Hset1, size_singleton. reflexivity.
  - assert (Htyped : records_typed d1 (elements ({[id_of store_request]} : gset string))).
    { intros mid members t Hin. rewrite elements_singleton in Hin.
      destruct Hin as [<-|[]]. rewrite Hkey. discriminate. }
    assert (Hset2 : index_set d1 (index_key_of (r_conversation_id retrieve_request))
                    = Some {[id_of store_request]}) by (rewrite Hconv; exact Hset1).
    destruct (retrieve_run retrieve_request {| db := d1; calls := c |} _ Hset2 Htyped)
      as (ranked & w' & -> & Hperm). cbn [db fst] in *.
    rewrite elements_singleton in Hperm. unfold live_records in Hperm. simpl in Hperm.
    rewrite Hkey in Hperm. simpl in Hperm. apply Permutation_nil_r in Hperm.
    destruct ranked; [|discriminate]. rewrite slice_nil. reflexivity.
Qed.

(** X18.  Two contents of one conversation whose hashes coincide share one
    memory id: the second [store_memory] gives the same answer as the
    first, leaves the index as it was, and replaces the first record by
    its own. *)
Theorem colliding_hash_overwrites (first_request second_request : StoreMemoryRequest)
  (w : world) :
  well_typed (db w) ->
  (0 < short_term_ttl settings)%Z ->
  s_conversation_id second_request = s_conversation_id first_request ->
  hash (s_content second_request) = hash (s_content first_request) ->
  let first := store_memory settings true openai_client hash first_request w in
  let second := store_memory settings true openai_client hash second_request (snd first) in
  fst second = fst first
  /\ index_members (s_conversation_id first_request) (snd second)
     = index_members (s_conversation_id first_request) (snd first)
  /\ exists embedding,
       db (snd second) !! key_of first_request
       = Some (record_entry settings hash second_request embedding).
Proof.
  intros Htyped Httl Hconv Hhash. cbv zeta.
  assert (Hid : id_of second_request = id_of first_request).
  { unfold memory_id_of. rewrite Hconv, Hhash. reflexivity. }
  destruct (store_memory_cases first_request w Htyped) as (ids & emb & c & Hset & ->).
  rewrite (proj2 (Z.ltb_lt _ _) Httl). cbn [fst snd].
  set (w1 := {| db := _; calls := c |}).
  assert (Hset1 : index_set (db w1) (index_of second_request)
                  = Some (ids ∪ {[id_of first_request]})).
  { rewrite Hconv. apply index_set_inserted. }
  destruct (store_memory_success settings openai_client hash second_request w1 _
              Httl Hset1) as (emb' & c' & ->).
  cbn [fst snd]. rewrite !index_members_index_set. cbn [db].
  rewrite Hid, Hconv, add_member_twice, index_set_inserted.
  split; [reflexivity|]. split.
  - unfold w1. cbn [db]. rewrite index_set_inserted. reflexivity.
  - exists emb'.
    rewrite lookup_insert_ne
      by (intros Heq; symmetry in Heq; exact (key_spaces_disjoint _ _ Heq)).
    apply lookup_insert_eq.
Qed.

(** X19.  [clear_memories] touches only the conversation's index key and
    the record keys of the ids in it: every other key of the store is as
    before, and no embedding call is made. *)
Theorem clear_leaves_other_keys (conversation_id : string) (w : world)
  (memory_ids : gset string) (key : string) :
  index_members conversation_id w = ok memory_ids ->
  key <> index_key_of conversation_id ->
  (forall mid, mid ∈ memory_ids -> key <> memory_key mid) ->
  let after := snd (clear_memories true conversation_id w) in
  db after !! key = db w !! key /\ calls after = calls w.
Proof.
  intros Hidx Hkey Hrecords. cbv zeta.
  rewrite index_members_index_set in Hidx.
  destruct (index_set (db w) (index_key_of conversation_id)) as [ids|] eqn:Hset;
    [|discriminate]. injection Hidx as ->.
  rewrite (clear_run _ _ _ Hset). cbn [snd db calls]. split; [|reflexivity].
  rewrite lookup_delete_ne by congruence.
  rewrite delete_all_lookup, decide_False; [reflexivity|].
  intros Hin. apply list_elem_of_fmap in Hin as (mid & -> & Hmid).
  apply elem_of_elements in Hmid. exact (Hrecords mid Hmid eq_refl).
Qed.

(** X20.  With a time-to-live of zero or less configured, every
    [store_memory] answers 500 "Failed to store memory" and leaves the
    store unchanged; the embedding call, if a client is configured, has
    been made by then. *)
Theorem nonpositive_ttl_rejects_store (request : StoreMemoryRequest) (w : world) :
  (short_term_ttl settings <= 0)%Z ->
  let outcome := store_memory settings true openai_client hash request w in
  fst outcome = raise (HTTPException 500 (JStr "Failed to store memory"))
  /\ db (snd outcome) = db w
  /\ calls (snd outcome) = match openai_client with
                           | Some _ => Datatypes.S (calls w)
                           | None => calls w
                           end.
Proof.
  intros Httl. cbv zeta.
  assert (Hemb : exists embedding,
             get_embedding openai_client (s_content request) w
             = (ok embedding,
                {| db := db w;
                   calls := match openai_client with
                            | Some _ => Datatypes.S (calls w)
                            | None => calls w
                            end |})).
  { unfold get_embedding. destruct openai_client as [create|].
    - destruct (create (calls w) (s_content request)); eexists; reflexivity.
    - exists None. destruct w; reflexivity. }
  destruct Hemb as [emb Hemb].
  assert (Hrun : store_memory settings true openai_client hash request w
                 = (raise (HTTPException 500 (JStr "Failed to store memory")),
                    {| db := db w;
                       calls := match openai_client with
                                | Some _ => Datatypes.S (calls w)
                                | None => calls w
                                end |})).
  { unfold store_memory. cbn [negb]. cbv zeta.
    eapply try_except_raise. erewrite mbind_ok by exact Hemb.
    erewrite mbind_raise; [reflexivity|].
    unfold redis, Redis.setex. cbn [db calls].
    rewrite (proj2 (Z.leb_le _ _) Httl). reflexivity. }
  rewrite Hrun. auto.
Qed.

End RoundTrip.

(* ===================================================================== *)
(** ** Chat orchestration: failures and call sequences *)
(* ===================================================================== *)

Section ChatMore.

Import Chat ChatSpec ChatCases.

Variable settings : Settings.
Variable env : environment.
Variable str_of : json -> string.

Lemma http_call_run (c : call) (tr : list call) :
  http_call env c tr
  = (match http env tr c with
     | RequestFails => raise RequestError
     | Response status_code body => ok (status_code, body)
     end, tr ++ [c]).
Proof. unfold http_call. destruct (http env tr c); reflexivity. Qed.

Lemma item_error (m : json) (key : string) (e : exn) :
  item m key = raise e -> is_request_error e = false.
Proof.
  destruct m as [| | | | | |fields]; cbn [item]; try (intros H; injection H as <-; reflexivity).
  induction fields as [|[k v] rest IH]; cbn [dict_item].
  - intros H. injection H as <-. reflexivity.
  - destruct (String.eqb k key); [discriminate|exact IH].
Qed.

Lemma check_moderation_run (content : string) (tr : list call) :
  check_moderation env content tr
  = (match http env tr (PostModerate content) with
     | RequestFails => ok allowing
     | Response status_code body =>
         if (status_code =? 200)%Z
         then (let* body := json_loads body in
               get body "data" (JObj [("passed", JBool true)]))%py
         else ok allowing
     end, tr ++ [PostModerate content]).
Proof.
  unfold check_moderation, mbind, try_catch. rewrite http_call_run.
  destruct (http env tr (PostModerate content)) as [|status body]; [reflexivity|].
  unfold ok at 1. cbn [fst snd]. destruct (status =? 200)%Z; [|reflexivity].
  destruct body as [raw|v]; [reflexivity|]. destruct v; reflexivity.
Qed.

Lemma get_memory_context_run (conversation_id message : string) (tr : list call) :
  get_memory_context env conversation_id message tr
  = (match http env tr (PostRetrieve conversation_id message) with
     | RequestFails => ok []
     | Response status_code body =>
         if (status_code =? 200)%Z
         then (let* data := json_loads body in
               let* d := get data "data" (JObj []) in
               let* ms := get d "memories" (JArr []) in
               let* ms := iter ms in
               mapM (fun m => item m "content") ms)%py
         else ok []
     end, tr ++ [PostRetrieve conversation_id message]).
Proof.
  unfold get_memory_context, mbind, try_catch. rewrite http_call_run.
  destruct (http env tr (PostRetrieve conversation_id message)) as [|status body];
    [reflexivity|].
  unfold ok at 1. cbn [fst snd]. destruct (status =? 200)%Z; [|reflexivity].
  destruct body as [raw|v]; [reflexivity|].
  destruct v as [| | | | | |fields]; try reflexivity.
  cbv beta iota delta [get ok raise bind lift json_loads].
  destruct (dict_get fields "data" (JObj [])) as [| | | | | |d]; try reflexivity.
  assert (Hitems : forall items : list json,
            (let (r, w') :=
               let (r, w') := (mapM (fun m => item m "content") items,
                               tr ++ [PostRetrieve conversation_id message]) in
               match r with
               | inl e => (inl e, w')
               | inr a => ret (Some a) w'
               end in
             match r with
             | inl e => if is_request_error e then ret None w' else (inl e, w')
             | inr a => (inr a, w')
             end)
            = (match mapM (fun m => item m "content") items with
               | inl e => inl e
               | inr a => inr (Some a)
               end, tr ++ [PostRetrieve conversation_id message])).
  { intros items. destruct (mapM _ items) as [e|contents] eqn:Hm; [|reflexivity].
    apply mapM_error in Hm as (a & _ & Ha). rewrite (item_error _ _ _ Ha).
    reflexivity. }
  destruct (dict_get d "memories" (JArr [])) as [| | | |s|items|fs]; try reflexivity;
    cbv beta iota delta [iter ok].
  - rewrite Hitems. destruct (mapM _ _); reflexivity.
  - rewrite Hitems. destruct (mapM _ _); reflexivity.
  - rewrite Hitems. destruct (mapM _ _); reflexivity.
Qed.

Lemma dict_get_item (fields : list (string * json)) (key : string) (default : json) :
  (dict_item fields key = ok (dict_get fields key default))
  \/ (dict_item fields key = raise KeyError /\ dict_get fields key default = default).
Proof.
  induction fields as [|[k v] rest IH]; cbn [dict_item dict_get]; [right; split; reflexivity|].
  destruct (String.eqb k key); [left; reflexivity|exact IH].
Qed.

(** The context fetch: each way the conversation request can fail. *)
Lemma get_conversation_context_unreachable (conversation_id : string) (tr : list call) :
  http env tr (GetConversation conversation_id) = RequestFails ->
  get_conversation_context env conversation_id tr
  = (raise (HTTPException 500 (JStr "Failed to fetch conversation context")),
     tr ++ [GetConversation conversation_id]).
Proof.
  intros H. unfold get_conversation_context, try_catch, mbind.
  rewrite http_call_run, H. reflexivity.
Qed.

Lemma get_conversation_context_status (conversation_id : string) (tr : list call)
  (status_code : Z) (body : text) :
  http env tr (GetConversation conversation_id) = Response status_code body ->
  status_code <> 200%Z ->
  get_conversation_context env conversation_id tr
  = (raise (HTTPException 404 (JStr "Conversation not found")),
     tr ++ [GetConversation conversation_id]).
Proof.
  intros H Hs. unfold get_conversation_context, try_catch, mbind.
  rewrite http_call_run, H. cbv beta iota delta [ok fst snd].
  destruct (Z.eqb_spec status_code 200); [contradiction|]. reflexivity.
Qed.

Lemma get_conversation_context_unsuccessful (conversation_id : string) (tr : list call)
  (fields : list (string * json)) :
  http env tr (GetConversation conversation_id) = Response 200 (JsonText (JObj fields)) ->
  truthy (dict_get fields "success" JNull) = false ->
  get_conversation_context env conversation_id tr
  = (raise (HTTPException 404 (JStr "Conversation not found")),
     tr ++ [GetConversation conversation_id]).
Proof.
  intros H Hs. unfold get_conversation_context, try_catch, mbind.
  rewrite http_call_run, H.
  cbv beta iota delta [ok fst snd Z.eqb Pos.eqb negb lift json_loads get].
  rewrite Hs. reflexivity.
Qed.

Lemma get_conversation_context_no_history (conversation_id : string) (tr : list call)
  (fields : list (string * json)) (conversation : json) :
  http env tr (GetConversation conversation_id) = Response 200 (JsonText (JObj fields)) ->
  truthy (dict_get fields "success" JNull) = true ->
  dict_item fields "data" = ok conversation ->
  http env (tr ++ [GetConversation conversation_id]) (GetMessages conversation_id)
  = RequestFails ->
  get_conversation_context env conversation_id tr
  = (raise (HTTPException 500 (JStr "Failed to fetch conversation context")),
     (tr ++ [GetConversation conversation_id]) ++ [GetMessages conversation_id]).
Proof.
  intros H Hs Hd Hm. unfold get_conversation_context, try_catch, mbind.
  rewrite http_call_run, H.
  cbv beta iota delta [ok fst snd Z.eqb Pos.eqb negb lift json_loads get item].
  rewrite Hs, Hd. cbv beta iota delta [ok negb].
  rewrite http_call_run, Hm. reflexivity.
Qed.

Lemma get_conversation_context_ok (conversation_id : string) (tr tr' : list call)
  (context : Context) :
  get_conversation_context env conversation_id tr = (ok context, tr') ->
  tr' = (tr ++ [GetConversation conversation_id]) ++ [GetMessages conversation_id].
Proof.
  unfold get_conversation_context, try_catch.
  match goal with |- context [mbind ?m ?k tr] => destruct (mbind m k tr) as [[e|c] t] eqn:Hb end.
  - destruct (is_request_error e); discriminate.
  - intros Heq. injection Heq as -> ->.
    apply mbind_inv_ok in Hb as ([status body] & tr1 & Hcall & Hb).
    pose proof (http_call_trace env (GetConversation conversation_id) tr) as Ht.
    rewrite Hcall in Ht. cbn [snd] in Ht. subst tr1. cbn [fst snd] in Hb.
    destruct (negb (status =? 200)%Z); [discriminate|].
    apply mbind_inv_ok in Hb as (conv_data & tr1 & Hl & Hb).
    rewrite lift_run in Hl. injection Hl as _ <-.
    apply mbind_inv_ok in Hb as (success & tr1 & Hl & Hb).
    rewrite lift_run in Hl. injection Hl as _ <-.
    destruct (negb (truthy success)); [discriminate|].
    apply mbind_inv_ok in Hb as (conversation & tr1 & Hl & Hb).
    rewrite lift_run in Hl. injection Hl as _ <-.
    apply mbind_inv_ok in Hb as ([status' body'] & tr1 & Hcall' & Hb).
    pose proof (http_call_trace env (GetMessages conversation_id)
                  (tr ++ [GetConversation conversation_id])) as Ht.
    rewrite Hcall' in Ht. cbn [snd] in Ht. subst tr1.
    apply mbind_inv_ok in Hb as (messages_data & tr1 & Hl & Hb).
    rewrite lift_run in Hl. injection Hl as _ <-.
    apply mbind_inv_ok in Hb as (messages & tr1 & Hl & Hb).
    rewrite lift_run in Hl. injection Hl as _ <-.
    apply mbind_inv_ok in Hb as (character & tr1 & Hl & Hb).
    rewrite lift_run in Hl. injection Hl as _ <-.
    unfold ret in Hb. injection Hb as _ <-. reflexivity.
Qed.

(** X21.  [check_moderation] fails open, and only an explicit verdict
    fails: when the moderation service cannot be reached or answers with a
    status other than 200, the result is the allowing verdict; and whenever
    the result is a failing verdict, the service answered 200 with a JSON
    object whose data entry is that verdict and holds a false-like passed
    entry. *)
Theorem check_moderation_fails_open (content : string) (tr : list call) :
  (http env tr (PostModerate content) = RequestFails
   \/ (exists status_code body,
         http env tr (PostModerate content) = Response status_code body
         /\ status_code <> 200%Z) ->
   check_moderation env content tr = (ok allowing, tr ++ [PostModerate content])
   /\ verdict_passes allowing)
  /\ (forall moderation tr',
        check_moderation env content tr = (ok moderation, tr') ->
        verdict_fails moderation ->
        exists fields verdict passed,
          http env tr (PostModerate content) = Response 200 (JsonText (JObj fields))
          /\ dict_item fields "data" = ok (JObj verdict)
          /\ moderation = JObj verdict
          /\ dict_item verdict "passed" = ok passed
          /\ truthy passed = false).
Proof.
  split.
  - intros H. split; [|exists (JBool true); split; reflexivity].
    rewrite check_moderation_run.
    destruct H as [->|(status & body & -> & Hs)]; [reflexivity|].
    destruct (Z.eqb_spec status 200); [contradiction|reflexivity].
  - intros moderation tr' Hrun (passed & Hget & Hfalse).
    rewrite check_moderation_run in Hrun. injection Hrun as Hrun _.
    destruct (http env tr (PostModerate content)) as [|status body].
    { injection Hrun as <-. injection Hget as <-. discriminate. }
    destruct (Z.eqb_spec status 200) as [->|_];
      [|injection Hrun as <-; injection Hget as <-; discriminate].
    destruct body as [raw|v]; [discriminate|]. cbn [json_loads bind] in Hrun.
    destruct v as [| | | | | |fields]; try discriminate.
    cbn [get] in Hrun. injection Hrun as <-.
    destruct (dict_get_item fields "data" (JObj [("passed", JBool true)]))
      as [Hitem|[_ Hdef]].
    + destruct (dict_get fields "data" _) as [| | | | | |verdict] eqn:Hd; try discriminate.
      cbn [get] in Hget. injection Hget as <-.
      destruct (dict_get_item verdict "passed" (JBool true)) as [Hp|[_ Hp]].
      * exists fields, verdict, (dict_get verdict "passed" (JBool true)). auto.
      * rewrite Hp in Hfalse. discriminate.
    + rewrite Hdef in Hget. injection Hget as <-. discriminate.
Qed.

Lemma mapM_ok_length {A B : Type} (f : A -> result B) (l : list A) (r : list B) :
  mapM f l = ok r -> length r = length l.
Proof.
  revert r. induction l as [|a l IH]; intros r; cbn [mapM].
  - intros H. injection H as <-. reflexivity.
  - destruct (f a) as [e|b]; [discriminate|]. cbn [bind].
    destruct (mapM f l) as [e|bs]; [discriminate|]. cbn [bind].
    intros H. injection H as <-. cbn [length]. f_equal. apply IH. reflexivity.
Qed.

Lemma mapM_ok_lookup {A B : Type} (f : A -> result B) (l : list A) (r : list B)
  (i : nat) (a : A) :
  mapM f l = ok r -> l !! i = Some a -> exists b, f a = ok b /\ r !! i = Some b.
Proof.
  revert r i. induction l as [|x l IH]; intros r i; cbn [mapM]; [discriminate 2|].
  destruct (f x) as [e|b] eqn:Hf; [discriminate|]. cbn [bind].
  destruct (mapM f l) as [e|bs]; [discriminate|]. cbn [bind].
  intros H. injection H as <-. destruct i as [|i]; cbn.
  - intros Ha. injection Ha as <-. eauto.
  - intros Ha. apply (IH bs i eq_refl Ha).
Qed.

Lemma get_memory_context_trace (conversation_id message : string) (tr : list call) :
  snd (get_memory_context env conversation_id message tr)
  = tr ++ [PostRetrieve conversation_id message].
Proof. rewrite get_memory_context_run. reflexivity. Qed.

Lemma prepares_trace (request : ChatRequest) (tr tr3 : list call) (system_prompt : json)
  (claude_messages : list message_param) :
  prepares env str_of request tr tr3 system_prompt claude_messages ->
  tr3 = tr ++ preparation request.
Proof.
  intros (moderation & tr1 & context & tr2 & memories & Hmod & _ & Hctx & Hmem & _).
  pose proof (check_moderation_trace env (message request) tr) as H1.
  rewrite Hmod in H1. cbn [snd] in H1. subst tr1.
  apply get_conversation_context_ok in Hctx. subst tr2.
  pose proof (get_memory_context_trace (conversation_id request) (message request)
                (((tr ++ [PostModerate (message request)])
                    ++ [GetConversation (conversation_id request)])
                   ++ [GetMessages (conversation_id request)])) as H3.
  rewrite Hmem in H3. cbn [snd] in H3. subst tr3.
  unfold preparation. rewrite <- !app_assoc. reflexivity.
Qed.

Ltac run_prepared H :=
  let moderation := fresh "moderation" in
  let passed := fresh "passed" in
  let Hmod := fresh "Hmod" in
  let Hget := fresh "Hget" in
  let Htrue := fresh "Htrue" in
  let Hctx := fresh "Hctx" in
  let Hmem := fresh "Hmem" in
  let Hsys := fresh "Hsys" in
  let Hbuild := fresh "Hbuild" in
  destruct H as (moderation & ? & ? & ? & ? & Hmod & (passed & Hget & Htrue)
                 & Hctx & Hmem & Hsys & Hbuild);
  cbn [negb];
  rewrite (mbind_ok _ _ _ _ _ Hmod);
  erewrite mbind_ok by (rewrite lift_run, Hget; reflexivity);
  rewrite Htrue; cbn [negb];
  rewrite (mbind_ok _ _ _ _ _ Hctx); cbv zeta;
  rewrite (mbind_ok _ _ _ _ _ Hmem);
  erewrite mbind_ok by (rewrite lift_run, Hsys; reflexivity);
  erewrite mbind_ok by (rewrite lift_run, Hbuild; reflexivity).

Lemma chat_stream_prepared (request : ChatRequest) (tr tr3 : list call)
  (system_prompt : json) (claude_messages : list message_param) :
  prepares env str_of request tr tr3 system_prompt claude_messages ->
  chat_stream settings true env str_of request tr
  = generate settings env system_prompt claude_messages tr3.
Proof. intros H. unfold chat_stream. run_prepared H. reflexivity. Qed.

(** What a handler has done once it got past the moderation verdict and
    the three fetches. *)
Lemma prepared_inv {A : Type} (request : ChatRequest) (tr tr' : list call)
  (blocked : json -> M A) (k : json -> list message_param -> M A) (a : A) :
  (let* moderation := check_moderation env (message request) in
   let* passed := lift (get moderation "passed" (JBool true)) in
   if negb (truthy passed) then blocked moderation
   else
     let* context := get_conversation_context env (conversation_id request) in
     let* memories :=
       get_memory_context env (conversation_id request) (message request) in
     let* system_prompt :=
       lift (get (character context) "systemPrompt"
               (JStr "You are a helpful AI assistant.")) in
     let* claude_messages :=
       lift (build_messages str_of (character context) (messages context)
               (message request) memories) in
     k system_prompt claude_messages)%st tr = (ok a, tr') ->
  (exists moderation tr1,
     check_moderation env (message request) tr = (ok moderation, tr1)
     /\ verdict_fails moderation /\ blocked moderation tr1 = (ok a, tr'))
  \/ (exists tr3 system_prompt claude_messages,
        prepares env str_of request tr tr3 system_prompt claude_messages
        /\ k system_prompt claude_messages tr3 = (ok a, tr')).
Proof.
  intros H.
  apply mbind_inv_ok in H as (moderation & tr1 & Hmod & H).
  apply mbind_inv_ok in H as (passed & tr1' & Hget & H).
  apply lift_inv_ok in Hget as [Hget ->].
  destruct (truthy passed) eqn:Hp; cbn [negb] in H.
  - right.
    apply mbind_inv_ok in H as (context & tr2 & Hctx & H).
    apply mbind_inv_ok in H as (memories & tr3 & Hmem & H).
    apply mbind_inv_ok in H as (system_prompt & tr3' & Hsys & H).
    apply lift_inv_ok in Hsys as [Hsys ->].
    apply mbind_inv_ok in H as (claude_messages & tr3' & Hbuild & H).
    apply lift_inv_ok in Hbuild as [Hbuild ->].
    exists tr3, system_prompt, claude_messages. split; [|exact H].
    exists moderation, tr1, context, tr2, memories.
    split; [exact Hmod|]. split; [exists passed; split; assumption|].
    repeat (split; [assumption|]). assumption.
  - left. exists moderation, tr1. split; [exact Hmod|].
    split; [exists passed; split; assumption|exact H].
Qed.

(** X22.  Once the user's message has passed moderation, a failure to get
    the conversation ends both [chat] and [chat_stream] right after the
    failing call, so before the memory service and the LLM are called:
    with 500 "Failed to fetch conversation context" when the chat service
    cannot be reached, for the conversation or for its messages, and with
    404 "Conversation not found" when it answers with a status other than
    200 or with a false-like or missing success entry. *)
Theorem conversation_failure_stops_chat (request : ChatRequest) (tr tr1 : list call)
  (moderation : json) :
  check_moderation env (message request) tr = (ok moderation, tr1) ->
  verdict_passes moderation ->
  (http env tr1 (GetConversation (conversation_id request)) = RequestFails ->
   let failure := HTTPException 500 (JStr "Failed to fetch conversation context") in
   chat settings true env str_of request tr
   = (raise failure, tr1 ++ [GetConversation (conversation_id request)])
   /\ chat_stream settings true env str_of request tr
      = (raise failure, tr1 ++ [GetConversation (conversation_id request)]))
  /\ (forall status_code body,
        http env tr1 (GetConversation (conversation_id request))
        = Response status_code body ->
        status_code <> 200%Z
        \/ (exists fields,
              status_code = 200%Z /\ body = JsonText (JObj fields)
              /\ truthy (dict_get fields "success" JNull) = false) ->
        let failure := HTTPException 404 (JStr "Conversation not found") in
        chat settings true env str_of request tr
        = (raise failure, tr1 ++ [GetConversation (conversation_id request)])
        /\ chat_stream settings true env str_of request tr
           = (raise failure, tr1 ++ [GetConversation (conversation_id request)]))
  /\ (forall fields conversation,
        http env tr1 (GetConversation (conversation_id request))
        = Response 200 (JsonText (JObj fields)) ->
        truthy (dict_get fields "success" JNull) = true ->
        dict_item fields "data" = ok conversation ->
        http env (tr1 ++ [GetConversation (conversation_id request)])
          (GetMessages (conversation_id request)) = RequestFails ->
        let failure := HTTPException 500 (JStr "Failed to fetch conversation context") in
        let made := (tr1 ++ [GetConversation (conversation_id request)])
                      ++ [GetMessages (conversation_id request)] in
        chat settings true env str_of request tr = (raise failure, made)
        /\ chat_stream settings true env str_of request tr = (raise failure, made)).
Proof.
  intros Hmod (passed & Hget & Htrue).
  assert (Hstop : forall e tr2,
            get_conversation_context env (conversation_id request) tr1 = (raise e, tr2) ->
            chat settings true env str_of request tr = (raise e, tr2)
            /\ chat_stream settings true env str_of request tr = (raise e, tr2)).
  { intros e tr2 Hctx. unfold chat, chat_stream. cbn [negb].
    rewrite !(mbind_ok _ _ _ _ _ Hmod).
    erewrite !mbind_ok by (rewrite lift_run, Hget; reflexivity).
    rewrite Htrue. cbn [negb].
    rewrite !(mbind_raise _ _ _ _ _ Hctx). split; reflexivity. }
  split; [|split].
  - intros H failure. apply Hstop. apply get_conversation_context_unreachable. exact H.
  - intros status body H [Hs|(fields & -> & -> & Hs)] failure; apply Hstop.
    + apply (get_conversation_context_status _ _ _ _ H Hs).
    + apply (get_conversation_context_unsuccessful _ _ _ H Hs).
  - intros fields conversation H Hs Hd Hm failure made. apply Hstop.
    apply (get_conversation_context_no_history _ _ _ _ H Hs Hd Hm).
Qed.

(** X23.  The status code of the messages response is never looked at:
    once the conversation is found, whatever the status, a JSON object as
    body gives the context, with its data entry as the history and the
    empty list when it has none (as an error body has). *)
Theorem history_status_ignored (conversation_id : string) (tr : list call)
  (fields conversation history : list (string * json)) (status_code : Z) :
  http env tr (GetConversation conversation_id) = Response 200 (JsonText (JObj fields)) ->
  truthy (dict_get fields "success" JNull) = true ->
  dict_item fields "data" = ok (JObj conversation) ->
  http env (tr ++ [GetConversation conversation_id]) (GetMessages conversation_id)
  = Response status_code (JsonText (JObj history)) ->
  get_conversation_context env conversation_id tr
  = (ok {| Chat.conversation := JObj conversation;
           messages := dict_get history "data" (JArr []);
           character := dict_get conversation "character" (JObj []) |},
     tr ++ [GetConversation conversation_id; GetMessages conversation_id]).
Proof.
  intros H Hs Hd Hm. unfold get_conversation_context, try_catch, mbind.
  rewrite http_call_run, H.
  cbv beta iota delta [ok fst snd Z.eqb Pos.eqb negb lift json_loads get item].
  rewrite Hs, Hd. cbv beta iota delta [ok negb].
  rewrite http_call_run, Hm.
  cbv beta iota delta [ok fst snd lift json_loads get ret].
  rewrite <- app_assoc. reflexivity.
Qed.

(** X24.  [get_memory_context] degrades to no memories when the memory
    service cannot be reached or answers with a status other than 200; a
    200 answer whose body is not JSON is no such case: the decoding error
    leaves the function. *)
Theorem memory_outage_gives_no_memories (conversation_id message : string)
  (tr : list call) :
  (http env tr (PostRetrieve conversation_id message) = RequestFails
   \/ (exists status_code body,
         http env tr (PostRetrieve conversation_id message) = Response status_code body
         /\ status_code <> 200%Z) ->
   get_memory_context env conversation_id message tr
   = (ok [], tr ++ [PostRetrieve conversation_id message]))
  /\ (forall raw,
        http env tr (PostRetrieve conversation_id message) = Response 200 (NotJson raw) ->
        get_memory_context env conversation_id message tr
        = (raise JSONDecodeError, tr ++ [PostRetrieve conversation_id message])).
Proof.
  split.
  - intros H. rewrite get_memory_context_run.
    destruct H as [->|(status & body & -> & Hs)]; [reflexivity|].
    destruct (Z.eqb_spec status 200); [contradiction|reflexivity].
  - intros raw H. rewrite get_memory_context_run, H. reflexivity.
Qed.

(** X25.  A successful [build_messages] returns one message per history
    entry, in order and with the entry's content, followed by the user's
    message with the memory context appended; a history entry has role
    user exactly when its role is the string USER, and assistant otherwise,
    so no other role ever reaches the LLM. *)
Theorem build_messages_shape (character messages : json) (user_message : string)
  (memories : list json) (result : list message_param) :
  build_messages str_of character messages user_message memories = ok result ->
  exists items,
    iter messages = ok items
    /\ length result = Datatypes.S (length items)
    /\ (forall i msg,
          items !! i = Some msg ->
          exists r c,
            item msg "role" = ok r /\ item msg "content" = ok c
            /\ result !! i
               = Some {| role := if json_is_str r "USER" then "user" else "assistant";
                         content := c |})
    /\ result !! length items
       = Some {| role := "user";
                 content := JStr (user_message +:+ memory_context str_of memories) |}
    /\ Forall (fun p => role p = "user" \/ role p = "assistant") result.
Proof.
  unfold build_messages. cbv zeta. fold (memory_context str_of memories).
  destruct (iter messages) as [e|items]; [discriminate|]. cbn [bind].
  match goal with |- context [mapM ?f items] => set (entry := f) end.
  destruct (mapM entry items) as [e|history'] eqn:Hmap; [discriminate|]. cbn [bind].
  intros H. injection H as <-. exists items.
  pose proof (mapM_ok_length _ _ _ Hmap) as Hlen.
  split; [reflexivity|]. split; [rewrite length_app; cbn [length]; lia|].
  split; [|split].
  - intros i msg Hi.
    destruct (mapM_ok_lookup _ _ _ _ _ Hmap Hi) as (p & Hp & Hlook).
    unfold entry in Hp.
    destruct (item msg "role") as [e|r]; [discriminate|]. cbn [bind] in Hp.
    destruct (item msg "content") as [e|c]; [discriminate|]. cbn [bind] in Hp.
    injection Hp as <-. exists r, c. split; [reflexivity|]. split; [reflexivity|].
    rewrite lookup_app_l by (rewrite Hlen; apply (lookup_lt_Some _ _ _ Hi)).
    exact Hlook.
  - rewrite <- Hlen. rewrite lookup_app_r by lia. rewrite Nat.sub_diag. reflexivity.
  - apply Forall_app. split; [|repeat constructor].
    apply Forall_lookup. intros i p Hp.
    destruct (lookup_lt_is_Some_2 items i) as [msg Hi];
      [rewrite <- Hlen; apply (lookup_lt_Some _ _ _ Hp)|].
    destruct (mapM_ok_lookup _ _ _ _ _ Hmap Hi) as (p' & Hp' & Hlook).
    rewrite Hp in Hlook. injection Hlook as <-. unfold entry in Hp'.
    destruct (item msg "role") as [e|r]; [discriminate|]. cbn [bind] in Hp'.
    destruct (item msg "content") as [e|c]; [discriminate|]. cbn [bind] in Hp'.
    injection Hp' as <-. cbn [role]. destruct (json_is_str r "USER"); auto.
Qed.

(** X26.  Whenever [chat_stream] answers with an event stream, the calls
    made are exactly these five, in this order: moderation of the user's
    message, the conversation, its messages, the memories, the LLM stream.
    The streamed text is never sent to moderation. *)
Theorem chat_stream_call_sequence (request : ChatRequest) (tr tr' : list call)
  (events : list sse) :
  chat_stream settings true env str_of request tr = (ok events, tr') ->
  exists system_prompt claude_messages,
    tr' = tr ++ [PostModerate (message request);
                 GetConversation (conversation_id request);
                 GetMessages (conversation_id request);
                 PostRetrieve (conversation_id request) (message request);
                 MessagesStream (claude_model settings) system_prompt claude_messages].
Proof.
  unfold chat_stream. cbn [negb]. intros H.
  apply (prepared_inv request tr tr'
           (fun _ => throw (HTTPException 400
                              (JStr "Message blocked by content moderation")))
           (fun system_prompt claude_messages =>
              generate settings env system_prompt claude_messages)) in H
    as [(moderation & tr1 & _ & _ & H)|(tr3 & system_prompt & msgs & Hprep & H)];
    [discriminate|].
  apply prepares_trace in Hprep. subst tr3.
  rewrite generate_run in H. injection H as _ <-.
  exists system_prompt, msgs. unfold preparation. rewrite <- app_assoc. reflexivity.
Qed.

(** X27.  Whenever [chat] succeeds, the calls made are exactly these six, in
    this order: moderation of the user's message, the conversation, its
    messages, the memories, the LLM call, and moderation of the text of the
    first block of the LLM's answer; the content returned is that text or
    the fixed refusal, and the metadata are those of the LLM's answer. *)
Theorem chat_call_sequence (request : ChatRequest) (tr tr' : list call)
  (response : ChatResponse) :
  chat settings true env str_of request tr = (ok response, tr') ->
  exists system_prompt claude_messages answer text,
    let c := MessagesCreate (claude_model settings) system_prompt claude_messages in
    tr' = tr ++ preparation request ++ [c; PostModerate text]
    /\ messages_create env (tr ++ preparation request) c = Created answer
    /\ first_text (blocks answer) = ok text
    /\ (r_content response = text \/ r_content response = refusal)
    /\ r_metadata response = {| md_model := model answer;
                                prompt_tokens := input_tokens answer;
                                completion_tokens := output_tokens answer |}.
Proof.
  unfold chat. cbn [negb]. intros H.
  apply (prepared_inv request tr tr'
           (fun moderation =>
              let* flags := lift (get moderation "flags" (JArr [])) in
              throw (HTTPException 400
                       (JObj [("code", JStr "CONTENT_BLOCKED");
                              ("message", JStr "Message blocked by content moderation");
                              ("flags", flags)])))%st
           (fun system_prompt claude_messages =>
              try_except
                (let* response :=
                   create_call env (MessagesCreate (claude_model settings) system_prompt
                                      claude_messages) in
                 let* content := lift (first_text (blocks response)) in
                 let* response_moderation := check_moderation env content in
                 let* passed := lift (get response_moderation "passed" (JBool true)) in
                 let content := if negb (truthy passed) then refusal else content in
                 ret {| r_content := content;
                        r_metadata := {| md_model := model response;
                                         prompt_tokens := input_tokens response;
                                         completion_tokens := output_tokens response |} |})
                (HTTPException 500 (JStr "AI service error")))%st) in H
    as [(moderation & tr1 & _ & _ & H)|(tr3 & system_prompt & msgs & Hprep & H)].
  { apply mbind_inv_ok in H as (flags & tr1' & _ & H). discriminate. }
  apply prepares_trace in Hprep. subst tr3.
  apply try_except_inv_ok in H.
  apply mbind_inv_ok in H as (answer & tr4 & Hcreate & H).
  unfold create_call in Hcreate.
  destruct (messages_create env (tr ++ preparation request) _) as [|answer'] eqn:Hc;
    [discriminate|].
  injection Hcreate as -> <-.
  apply mbind_inv_ok in H as (text & tr4 & Htext & H).
  apply lift_inv_ok in Htext as [Htext ->].
  apply mbind_inv_ok in H as (verdict & tr5 & Hmod & H).
  pose proof (check_moderation_trace env text
                ((tr ++ preparation request)
                   ++ [MessagesCreate (claude_model settings) system_prompt msgs])) as Ht.
  rewrite Hmod in Ht. cbn [snd] in Ht. subst tr5.
  apply mbind_inv_ok in H as (passed & tr5 & Hp & H).
  apply lift_inv_ok in Hp as [Hp ->]. cbv zeta in H. unfold ret in H.
  injection H as <- <-.
  exists system_prompt, msgs, answer, text. cbv zeta.
  split; [rewrite <- !app_assoc; reflexivity|].
  split; [exact Hc|]. split; [exact Htext|]. split; [|reflexivity].
  cbn [r_content]. destruct (negb (truthy passed)); auto.
Qed.

(** X28.  Once the prompt is built, an LLM call that raises, or an answer
    whose first block has no text, makes [chat] answer 500 "AI service
    error" right after the LLM call, without a second moderation call. *)
Theorem llm_failure_is_service_error (request : ChatRequest) (tr tr3 : list call)
  (system_prompt : json) (claude_messages : list message_param) :
  prepares env str_of request tr tr3 system_prompt claude_messages ->
  let c := MessagesCreate (claude_model settings) system_prompt claude_messages in
  messages_create env tr3 c = CreateRaises
  \/ (exists answer e,
        messages_create env tr3 c = Created answer
        /\ first_text (blocks answer) = raise e) ->
  chat settings true env str_of request tr
  = (raise (HTTPException 500 (JStr "AI service error")), tr3 ++ [c]).
Proof.
  intros Hprep c Hfail. unfold chat. run_prepared Hprep.
  destruct Hfail as [Hc|(answer & e & Hc & Htext)].
  - eapply try_except_raise. apply mbind_raise.
    unfold create_call. fold c. rewrite Hc. reflexivity.
  - eapply try_except_raise.
    erewrite mbind_ok by (unfold create_call; fold c; rewrite Hc; reflexivity).
    apply mbind_raise. rewrite lift_run, Htext. reflexivity.
Qed.

(** X29.  A 200 answer of the moderation service whose body is not JSON is
    treated differently by [chat] before and after the LLM call: for the
    user's message the decoding error leaves the handler as it is, while
    for the generated text it becomes 500 "AI service error". *)
Theorem malformed_verdict_asymmetry (request : ChatRequest) (tr : list call) :
  (forall raw,
     http env tr (PostModerate (message request)) = Response 200 (NotJson raw) ->
     chat settings true env str_of request tr
     = (raise JSONDecodeError, tr ++ [PostModerate (message request)]))
  /\ (forall tr3 system_prompt claude_messages answer text raw,
        prepares env str_of request tr tr3 system_prompt claude_messages ->
        let c := MessagesCreate (claude_model settings) system_prompt claude_messages in
        messages_create env tr3 c = Created answer ->
        first_text (blocks answer) = ok text ->
        http env (tr3 ++ [c]) (PostModerate text) = Response 200 (NotJson raw) ->
        chat settings true env str_of request tr
        = (raise (HTTPException 500 (JStr "AI service error")),
           tr3 ++ [c; PostModerate text])).
Proof.
  split.
  - intros raw H. unfold chat. cbn [negb]. apply mbind_raise.
    rewrite check_moderation_run, H. reflexivity.
  - intros tr3 system_prompt claude_messages answer text raw Hprep c Hc Htext H.
    unfold chat. run_prepared Hprep.
    replace (tr3 ++ [c; PostModerate text]) with ((tr3 ++ [c]) ++ [PostModerate text])
      by (rewrite <- app_assoc; reflexivity).
    eapply try_except_raise.
    erewrite mbind_ok by (unfold create_call; fold c; rewrite Hc; reflexivity).
    erewrite mbind_ok by (rewrite lift_run, Htext; reflexivity).
    apply mbind_raise. rewrite check_moderation_run, H. reflexivity.
Qed.

End ChatMore.

(* ===================================================================== *)
(** ** Examples for the further properties *)
(* ===================================================================== *)

Section ModerationMoreExamples.

Import Re Moderation ModerationSpec FloatOrder ModerationCases.

Lemma passed_response_is_clean_witness :
  let response :=
    fst (moderate_content default_settings (Some lenient_client)
           {| content := "hello world"; filter_level := "strict" |} 0) in
  flt (score response) (spec_threshold default_settings "strict") = true
  /\ Forall (fun f => severity f <> "high") (flags response)
  /\ blocked "hello world" = false.
Proof.
  exact (passed_response_is_clean default_settings (Some lenient_client)
           {| content := "hello world"; filter_level := "strict" |} 0 eq_refl).
Defined.

Lemma stricter_level_passes_less_witness :
  passed (fst (moderate_content default_settings (Some lenient_client)
                 {| content := "hello world"; filter_level := "relaxed" |} 0)) = true.
Proof.
  destruct (stricter_level_passes_less default_settings (Some lenient_client)
              "hello world" 0 eq_refl eq_refl) as [Hstrict Hmoderate].
  apply Hmoderate, Hstrict. reflexivity.
Defined.

Lemma unusable_answer_discarded_witness :
  check_ai_moderation (Some sloppy_client) "hello world" 0 = (([], Fin 0), 1%nat).
Proof.
  apply (unusable_answer_discarded sloppy_client "hello world" 0 _ [] eq_refl).
  left. exists [JObj [("category", JStr "violence"); ("severity", JStr "high")];
                JObj [("category", JStr "spam"); ("severity", JInt 3)]],
               (JObj [("category", JStr "spam"); ("severity", JInt 3)]).
  split; [reflexivity|]. split; [right; left; reflexivity|].
  exists ValidationError. reflexivity.
Defined.

Lemma batch_item_agrees_with_single_witness :
  fst (moderate_batch default_settings (Some lenient_client) ["hello world"] 0)
  = [fst (moderate_content default_settings (Some lenient_client)
            {| content := "hello world"; filter_level := "moderate" |} 0)].
Proof.
  destruct (batch_item_agrees_with_single default_settings (Some lenient_client)
              "hello world" 0) as (r & Hr & _ & Hsame).
  rewrite Hr, (Hsame eq_refl). reflexivity.
Defined.

Lemma moderate_score_in_unit_witness :
  let response :=
    fst (moderate_content default_settings (Some lenient_client)
           {| content := "hello world"; filter_level := "moderate" |} 0) in
  score response = Fin (2 # 10) /\ in_unit (score response).
Proof.
  cbv zeta.
  pose proof (moderate_score_in_unit default_settings (Some lenient_client)
                {| content := "hello world"; filter_level := "moderate" |} 0)
    as (_ & _ & Hscore & _ & Hunit).
  assert (Hanswer : answers_score (Some lenient_client) "hello world" 0 (Fin (2 # 10))).
  { exists lenient_client, [("flags", JArr []); ("score", JFloat (Fin (2 # 10)))], [], [].
    split; [reflexivity|]. split; [reflexivity|]. split; [reflexivity|].
    split; [intros f []|reflexivity]. }
  split; [exact (Hscore _ eq_refl Hanswer)|].
  apply Hunit. intros s Hs.
  rewrite <- (answers_score_unique (Some lenient_client) _ _ _ _ Hanswer Hs).
  simpl. split; discriminate.
Defined.

End ModerationMoreExamples.

Section MemoryMoreExamples.

Import Memory MemorySpec MemoryViews.

Lemma well_typed_empty : well_typed (db empty_world).
Proof. split; intros; cbn [db empty_world]; rewrite lookup_empty; discriminate. Qed.

Lemma retrieve_respects_limit_witness :
  (length [{| v_id := "c1:5"; v_content := "likes tea"; v_type := "fact";
              v_importance := 0.5%R; v_relevance_score := None |}] <= 5)%nat.
Proof.
  apply (proj1 (retrieve_respects_limit None sample_query sample_world sample_world _
                  eq_refl)).
  discriminate.
Defined.

Lemma handlers_keep_store_well_typed_witness :
  well_typed (db (snd (store_memory default_settings true None sample_hash sample_request
                         empty_world))).
Proof.
  exact (proj1 (handlers_keep_store_well_typed default_settings None sample_hash
                  sample_request sample_query "c1" 60 empty_world well_typed_empty)).
Defined.



Lemma expired_record_still_counted_witness :
  let after :=
    later 3600 (snd (store_memory default_settings true None sample_hash sample_request
                       empty_world)) in
  fst (get_memory_summary true "c1" after)
  = ok {| sm_conversation_id := "c1"; total_memories := 1 |}
  /\ fst (retrieve_memories true None sample_query after) = ok [].
Proof.
  apply (expired_record_still_counted default_settings None sample_hash sample_request
           sample_query 3600 empty_world eq_refl eq_refl).
  - split; [discriminate|reflexivity].
  - reflexivity.
Defined.

Lemma colliding_hash_overwrites_witness :
  let first :=
    store_memory default_settings true None sample_hash sample_request empty_world in
  let second :=
    store_memory default_settings true None sample_hash other_request (snd first) in
  fst second = fst first
  /\ index_members "c1" (snd second) = index_members "c1" (snd first)
  /\ exists embedding,
       db (snd second) !! "memory:c1:42"
       = Some (record_entry default_settings sample_hash other_request embedding).
Proof.
  exact (colliding_hash_overwrites default_settings None sample_hash sample_request
           other_request empty_world well_typed_empty eq_refl eq_refl eq_refl).
Defined.

Lemma clear_leaves_other_keys_witness :
  let after := snd (clear_memories true "c2" sample_world) in
  db after !! "memory:c1:5" = db sample_world !! "memory:c1:5"
  /\ calls after = calls sample_world.
Proof.
  apply (clear_leaves_other_keys "c2" sample_world ∅ "memory:c1:5" eq_refl).
  - discriminate.
  - intros mid Hmid. apply elem_of_empty in Hmid. destruct Hmid.
Defined.

Lemma nonpositive_ttl_rejects_store_witness :
  let outcome :=
    store_memory {| short_term_ttl := 0; embedding_model := "text-embedding-3-small" |}
      true None sample_hash sample_request empty_world in
  fst outcome = raise (HTTPException 500 (JStr "Failed to store memory"))
  /\ db (snd outcome) = db empty_world
  /\ calls (snd outcome) = calls empty_world.
Proof.
  apply (nonpositive_ttl_rejects_store
           {| short_term_ttl := 0; embedding_model := "text-embedding-3-small" |}
           None sample_hash sample_request empty_world).
  discriminate.
Defined.

End MemoryMoreExamples.

Section ChatMoreExamples.

Import Chat ChatSpec ChatCases.

Lemma check_moderation_fails_open_witness :
  check_moderation
    (scripted_env RequestFails RequestFails known_conversation no_history no_memories
       CreateRaises idle) "hi" []
  = (ok allowing, [PostModerate "hi"])
  /\ exists passed,
       dict_item [("passed", JBool false); ("flags", JArr [])] "passed" = ok passed
       /\ truthy passed = false.
Proof.
  split.
  - apply (proj1 (check_moderation_fails_open
                    (scripted_env RequestFails RequestFails known_conversation no_history
                       no_memories CreateRaises idle) "hi" [])).
    left. reflexivity.
  - destruct (proj2 (check_moderation_fails_open (sample_env false false) "hi" [])
                _ _ eq_refl verdict_body_fails)
      as (fields & verdict & passed & _ & _ & Hverdict & Hpassed & Hfalse).
    injection Hverdict as <-. exists passed. split; assumption.
Defined.

Lemma conversation_failure_stops_chat_witness :
  chat default_settings true
    (scripted_env passing passing not_found no_history no_memories CreateRaises idle)
    sample_str_of sample_request []
  = (raise (HTTPException 404 (JStr "Conversation not found")),
     [PostModerate "hi"; GetConversation "c1"]).
Proof.
  apply (proj1 (proj2 (conversation_failure_stops_chat default_settings
                         (scripted_env passing passing not_found no_history no_memories
                            CreateRaises idle)
                         sample_str_of sample_request [] _ _ eq_refl verdict_body_passes))
           404%Z (NotJson "Not Found") eq_refl).
  left. discriminate.
Defined.

Lemma history_status_ignored_witness :
  get_conversation_context
    (scripted_env passing passing known_conversation failed_history no_memories
       CreateRaises idle) "c1" []
  = (ok {| conversation := JObj [("character", JObj [])];
           messages := JArr [];
           character := JObj [] |},
     [GetConversation "c1"; GetMessages "c1"]).
Proof.
  exact (history_status_ignored
           (scripted_env passing passing known_conversation failed_history no_memories
              CreateRaises idle) "c1" [] _ [("character", JObj [])] _ 500
           eq_refl eq_refl eq_refl eq_refl).
Defined.

Lemma memory_outage_gives_no_memories_witness :
  get_memory_context
    (scripted_env passing passing known_conversation no_history not_found
       CreateRaises idle) "c1" "hi" []
  = (ok [], [PostRetrieve "c1" "hi"])
  /\ get_memory_context
       (scripted_env passing passing known_conversation no_history garbled
          CreateRaises idle) "c1" "hi" []
     = (raise JSONDecodeError, [PostRetrieve "c1" "hi"]).
Proof.
  split.
  - apply (proj1 (memory_outage_gives_no_memories
                    (scripted_env passing passing known_conversation no_history not_found
                       CreateRaises idle) "c1" "hi" [])).
    right. exists 404%Z, (NotJson "Not Found"). split; [reflexivity|discriminate].
  - exact (proj2 (memory_outage_gives_no_memories
                    (scripted_env passing passing known_conversation no_history garbled
                       CreateRaises idle) "c1" "hi" []) "<html>" eq_refl).
Defined.

Lemma build_messages_shape_witness :
  Forall (fun p => role p = "user" \/ role p = "assistant") sample_messages.
Proof.
  destruct (build_messages_shape sample_str_of (JObj []) sample_history "hi" []
              sample_messages eq_refl) as (items & _ & _ & _ & _ & Hroles).
  exact Hroles.
Defined.

Lemma chat_stream_call_sequence_witness :
  exists system_prompt claude_messages,
    [PostModerate "hi"; GetConversation "c1"; GetMessages "c1"; PostRetrieve "c1" "hi";
     MessagesStream "claude-sonnet-4-20250514" sample_system sample_prompt]
    = [] ++ [PostModerate "hi"; GetConversation "c1"; GetMessages "c1";
             PostRetrieve "c1" "hi";
             MessagesStream "claude-sonnet-4-20250514" system_prompt claude_messages].
Proof.
  exact (chat_stream_call_sequence default_settings (sample_env true true) sample_str_of
           sample_request [] _ _ eq_refl).
Defined.

Lemma chat_call_sequence_witness :
  exists system_prompt claude_messages answer text,
    [PostModerate "hi"; GetConversation "c1"; GetMessages "c1"; PostRetrieve "c1" "hi";
     MessagesCreate "claude-sonnet-4-20250514" sample_system sample_prompt;
     PostModerate "generated text"]
    = [] ++ preparation sample_request
         ++ [MessagesCreate "claude-sonnet-4-20250514" system_prompt claude_messages;
             PostModerate text]
    /\ first_text (blocks answer) = ok text.
Proof.
  destruct (chat_call_sequence default_settings (sample_env true false) sample_str_of
              sample_request [] _
              {| r_content := refusal;
                 r_metadata := {| md_model := "claude-sonnet-4-20250514";
                                  prompt_tokens := 12;
                                  completion_tokens := 3 |} |} eq_refl)
    as (system_prompt & claude_messages & answer & text & Htrace & _ & Htext & _).
  exists system_prompt, claude_messages, answer, text. split; assumption.
Defined.

Lemma sample_prepares (later_moderate : http_result) (created : create_result)
  (streamed : stream_result) :
  prepares
    (scripted_env passing later_moderate known_conversation no_history no_memories
       created streamed)
    sample_str_of sample_request [] (preparation sample_request) sample_system
    sample_prompt.
Proof.
  exists (JObj [("passed", JBool true); ("flags", JArr [])]), [PostModerate "hi"],
    {| conversation := JObj [("character", JObj [])];
       messages := JArr [];
       character := JObj [] |},
    [PostModerate "hi"; GetConversation "c1"; GetMessages "c1"], [].
  split; [reflexivity|]. split; [exact verdict_body_passes|].
  repeat (split; [reflexivity|]). reflexivity.
Defined.

Lemma llm_failure_is_service_error_witness :
  chat default_settings true
    (scripted_env passing passing known_conversation no_history no_memories
       CreateRaises idle)
    sample_str_of sample_request []
  = (raise (HTTPException 500 (JStr "AI service error")),
     preparation sample_request
       ++ [MessagesCreate "claude-sonnet-4-20250514" sample_system sample_prompt]).
Proof.
  apply (llm_failure_is_service_error default_settings _ sample_str_of sample_request
           [] _ _ _ (sample_prepares passing CreateRaises idle)).
  left. reflexivity.
Defined.

Lemma malformed_verdict_asymmetry_witness :
  chat default_settings true
    (scripted_env garbled garbled known_conversation no_history no_memories
       (Created sample_message) idle)
    sample_str_of sample_request []
  = (raise JSONDecodeError, [PostModerate "hi"])
  /\ chat default_settings true
       (scripted_env passing garbled known_conversation no_history no_memories
          (Created sample_message) idle)
       sample_str_of sample_request []
     = (raise (HTTPException 500 (JStr "AI service error")),
        preparation sample_request
          ++ [MessagesCreate "claude-sonnet-4-20250514" sample_system sample_prompt;
              PostModerate "generated text"]).
Proof.
  split.
  - exact (proj1 (malformed_verdict_asymmetry default_settings
                    (scripted_env garbled garbled known_conversation no_history
                       no_memories (Created sample_message) idle)
                    sample_str_of sample_request []) "<html>" eq_refl).
  - exact (proj2 (malformed_verdict_asymmetry default_settings
                    (scripted_env passing garbled known_conversation no_history
                       no_memories (Created sample_message) idle)
                    sample_str_of sample_request [])
             _ _ _ sample_message "generated text" "<html>"
             (sample_prepares garbled (Created sample_message) idle)
             eq_refl eq_refl eq_refl).
Defined.

(** C9 as stated fails: when the stream is read to its end and leaving the
    [with] block raises, the done event has already been yielded and the
    error event follows it, so the sequence holds both. *)
Lemma chat_stream_done_then_error :
  let events :=
    [{| event := "chunk"; data := JObj [("content", JStr "Hel")] |};
     {| event := "chunk"; data := JObj [("content", JStr "lo")] |};
     {| event := "done";
        data := JObj [("content", JStr "Hello");
                      ("metadata", JObj [("model", JStr "claude-sonnet-4-20250514")])] |};
     {| event := "error"; data := JObj [("error", JStr "AI service unavailable")] |}] in
  fst (chat_stream default_settings true
         (scripted_env passing passing known_conversation no_history no_memories
            CreateRaises closing_fails)
         sample_str_of sample_request [])
  = ok events
  /\ count_events "done" events = 1%nat
  /\ count_events "error" events = 1%nat.
Proof. cbv zeta. split; [reflexivity|]. split; reflexivity. Qed.

End ChatMoreExamples.
